(** * Funding ledger: normalisation and aggregation of exchange cash flows

    A shallow embedding of [bin_by_funding.py]: the time-paginated fetch of
    funding payments (Binance), the per-settlement-coin snapshot fetch of
    realised P&L (Bybit), the two normalisers, the aggregation performed by
    [write_csv], and [main].

    Conventions of the embedding.
    - Python [str] is [string]; a character is its code point, so the
      strings covered are those with code points below 256.
    - Python [int] is [Z].
    - A JSON object is a finite map from field names to scalar values
      ([value]).  JSON numbers with a fraction or an exponent become Python
      floats; floats are outside this embedding, and so are arrays and
      objects nested inside a record (both venues send flat records whose
      amounts, sizes and symbols are strings).
    - [decimal.Decimal] is [Decimal], with the arithmetic of the default
      context: 28 significant digits, ROUND_HALF_EVEN, exponents between
      Emin = -999999 and Emax = 999999, InvalidOperation and Overflow
      trapped (Underflow, Subnormal, Inexact, Rounded and Clamped are
      not).  [Decimal(s)] itself is exact and applies no limit.
    - An exception is a value of [exn]; a computation that may raise
      returns an [outcome].  What is printed is returned as a list of
      [LogLine]s.
    - The two venues behind [requests.get] are parameters
      ([BinanceServer], [BybitServer]); request signing is part of them.
      The keys of [config.py] are a [Config].  [OUTPUT_DIR], which the
      source leaves to be filled in, is the directory of the two files of
      [Files].
    - The [while True] loop of [get_binance_funding] takes a bound on its
      iterations ([fuel]); running out of it stands for a loop that does
      not end. *)

From Stdlib Require Import ZArith NArith QArith Qpower List String Ascii Bool Lia.
From Stdlib Require Import Permutation Sorted DecimalString OrdersEx.
From stdpp Require Import gmap strings.

Import ListNotations.
Local Open Scope string_scope.
Local Open Scope list_scope.
Local Open Scope Z_scope.

(** ** Exceptions *)

(** The exception classes the program can meet.  All derive from
    [Exception]; [main] tells [RuntimeError] apart. *)
Inductive exn : Type :=
| RuntimeError
| TypeError
| ValueError
| KeyError
| AttributeError
| IndexError
| InvalidOperation
| Overflow
| RequestException.

Definition is_RuntimeError (e : exn) : bool :=
  match e with RuntimeError => true | _ => false end.

Inductive outcome (A : Type) : Type :=
| Ok (a : A)
| Raise (e : exn).
Arguments Ok {A} a.
Arguments Raise {A} e.

Definition bind {A B : Type} (r : outcome A) (k : A -> outcome B) : outcome B :=
  match r with
  | Ok a => k a
  | Raise e => Raise e
  end.

Notation "x <- r ;; k" := (bind r (fun x => k))
  (at level 100, r at next level, right associativity).

(** ** Python values and strings *)

Module Py.

Inductive value : Type :=
| VNone
| VBool (b : bool)
| VInt (z : Z)
| VStr (s : string).

(** Truth value of an object: [None], [False], [0] and [""] are false. *)
Definition truthy (v : value) : bool :=
  match v with
  | VNone => false
  | VBool b => b
  | VInt z => negb (z =? 0)
  | VStr s => negb (String.eqb s "")
  end.

(** [a or b]. *)
Definition py_or (a b : value) : value := if truthy a then a else b.

(** [==] on scalars: [bool] is a subclass of [int], so [True == 1]. *)
Definition num_of (v : value) : option Z :=
  match v with
  | VBool b => Some (if b then 1 else 0)
  | VInt z => Some z
  | _ => None
  end.

Definition py_eqb (a b : value) : bool :=
  match a, b with
  | VNone, VNone => true
  | VStr s, VStr t => String.eqb s t
  | _, _ =>
      match num_of a, num_of b with
      | Some x, Some y => x =? y
      | _, _ => false
      end
  end.

(** [<] on scalars; [None] where Python raises TypeError. *)
Definition py_ltb (a b : value) : option bool :=
  match a, b with
  | VStr s, VStr t => Some (String.ltb s t)
  | _, _ =>
      match num_of a, num_of b with
      | Some x, Some y => Some (x <? y)
      | _, _ => None
      end
  end.

Definition is_digit (c : ascii) : bool :=
  let n := nat_of_ascii c in (48 <=? n)%nat && (n <=? 57)%nat.

Definition digit_val (c : ascii) : Z := Z.of_nat (nat_of_ascii c) - 48.

(** [str.isspace] on one character: tab, LF, VT, FF, CR, the four
    separators 0x1c-0x1f, space, NEL and NBSP. *)
Definition is_space (c : ascii) : bool :=
  let n := nat_of_ascii c in
  ((9 <=? n) && (n <=? 13) || (28 <=? n) && (n <=? 32)
   || (n =? 133) || (n =? 160))%nat.

(** The whitespace [int()] skips around a numeral: the C locale's
    whitespace, plus the non-ASCII spaces, which are first turned into
    [" "]. *)
Definition is_int_space (c : ascii) : bool :=
  let n := nat_of_ascii c in
  ((9 <=? n) && (n <=? 13) || (n =? 32) || (n =? 133) || (n =? 160))%nat.

Fixpoint lstrip (sp : ascii -> bool) (s : string) : string :=
  match s with
  | String c s' => if sp c then lstrip sp s' else s
  | EmptyString => EmptyString
  end.

Fixpoint rstrip (sp : ascii -> bool) (s : string) : string :=
  match s with
  | String c s' =>
      match rstrip sp s' with
      | EmptyString => if sp c then EmptyString else String c EmptyString
      | t => String c t
      end
  | EmptyString => EmptyString
  end.

(** [s.strip()]. *)
Definition strip (s : string) : string := rstrip is_space (lstrip is_space s).

Fixpoint starts_with (p s : string) : bool :=
  match p, s with
  | EmptyString, _ => true
  | String a p', String b s' => Ascii.eqb a b && starts_with p' s'
  | String _ _, EmptyString => false
  end.

(** [s.replace(old, new)] for a non-empty [old]: occurrences are found left
    to right and do not overlap.  [skip] counts the characters of a match
    that are still to be passed over. *)
Fixpoint replace_from (old new : string) (skip : nat) (s : string) : string :=
  match s with
  | EmptyString => EmptyString
  | String c s' =>
      match skip with
      | S k => replace_from old new k s'
      | O =>
          if starts_with old s
          then new +:+ replace_from old new (String.length old - 1) s'
          else String c (replace_from old new 0 s')
      end
  end.

Definition replace (old new s : string) : string := replace_from old new 0 s.

(** [str(n)] for an [int]. *)
Definition str_of_nat_N (n : N) : string := NilEmpty.string_of_uint (N.to_uint n).

Definition str_of_Z (z : Z) : string :=
  if z <? 0 then "-" +:+ str_of_nat_N (Z.abs_N z) else str_of_nat_N (Z.abs_N z).

(** [str(v)]. *)
Definition str (v : value) : string :=
  match v with
  | VNone => "None"
  | VBool true => "True"
  | VBool false => "False"
  | VInt z => str_of_Z z
  | VStr s => s
  end.

(** The digits of an [int()] argument: underscores may separate digits,
    one at a time. *)
Fixpoint int_digits (seen : bool) (acc : Z) (s : string) : option Z :=
  match s with
  | EmptyString => if seen then Some acc else None
  | String c s' =>
      if is_digit c then int_digits true (10 * acc + digit_val c) s'
      else if Ascii.eqb c "_" then
             if seen then int_digits false acc s' else None
           else None
  end.

Definition int_of_str (s : string) : option Z :=
  let t := rstrip is_int_space (lstrip is_int_space s) in
  match t with
  | String "-" r => option_map Z.opp (int_digits false 0 r)
  | String "+" r => int_digits false 0 r
  | _ => int_digits false 0 t
  end.

(** [int(v)].  The interpreter's adjustable cap on the length of integer
    strings is not modelled. *)
Definition int (v : value) : outcome Z :=
  match v with
  | VNone => Raise TypeError
  | VBool b => Ok (if b then 1 else 0)
  | VInt z => Ok z
  | VStr s =>
      match int_of_str s with
      | Some z => Ok z
      | None => Raise ValueError
      end
  end.

End Py.

(** ** decimal.Decimal under the default context *)

Module Dec.

(** A decimal is a sign, a coefficient and an exponent, or a special
    value.  [Fin s c e] stands for [(-1)^s * c * 10^e]; the payload of a
    NaN is [0] when there is none. *)
Inductive Decimal : Type :=
| Fin (sign : bool) (coef : N) (exp : Z)
| Inf (sign : bool)
| NaN (sign : bool) (signaling : bool) (payload : N).

(** [getcontext()]: the precision and the exponent limits;
    [context.Etiny()] and [context.Etop()]. *)
Definition prec : Z := 28.
Definition Emax : Z := 999999.
Definition Emin : Z := -999999.
Definition Etiny : Z := Emin - prec + 1.
Definition Etop : Z := Emax - prec + 1.

Definition pow10 (k : Z) : N := (10 ^ Z.to_N k)%N.

Fixpoint len_fuel (fuel : nat) (c : N) : Z :=
  match fuel with
  | O => 1
  | S f => if (c <? 10)%N then 1 else 1 + len_fuel f (c / 10)%N
  end.

(** [len(str(c))], the number of decimal digits of a coefficient. *)
Definition len_int (c : N) : Z := len_fuel (N.to_nat (N.size c)) c.

Definition is_finite (d : Decimal) : bool :=
  match d with Fin _ _ _ => true | _ => false end.

(** ROUND_HALF_EVEN: [c] without its last [k] digits, rounded to nearest,
    a tie going to the even neighbour. *)
Definition round_half_even (c : N) (k : Z) : N :=
  if k <=? 0 then c
  else
    let p := pow10 k in
    let q := (c / p)%N in
    let r := (c mod p)%N in
    if ((p <? 2 * r) || ((2 * r =? p) && N.odd q))%N then (q + 1)%N else q.

(** [d._rescale(e, ROUND_HALF_EVEN)]. *)
Definition rescale (d : Decimal) (e' : Z) : Decimal :=
  match d with
  | Fin s c e =>
      if (c =? 0)%N then Fin s 0 e'
      else if e' <=? e then Fin s (c * pow10 (e - e')) e'
      else Fin s (round_half_even c (e' - e)) e'
  | _ => d
  end.

(** [d._fix(context)]: the exponent of a zero is brought into the range
    from [Etiny] to [Emax]; a coefficient of more than [prec] digits, or
    with digits below [Etiny], is rounded to the digits that are left,
    and a result above [Emax] is an Overflow; a NaN payload is cut to its
    last [prec] digits. *)
Definition fix_ (d : Decimal) : outcome Decimal :=
  match d with
  | Fin s c e =>
      if (c =? 0)%N then Ok (Fin s 0 (Z.min (Z.max e Etiny) Emax))
      else
        let exp_min := len_int c + e - prec in
        if Etop <? exp_min then Raise Overflow
        else
          let exp_min := Z.max exp_min Etiny in
          if e <? exp_min then
            let digits := len_int c + e - exp_min in
            let '(c', e') := if digits <? 0 then (1%N, exp_min - 1) else (c, e) in
            let q := round_half_even c' (exp_min - e') in
            if prec <? len_int q then
              if Etop <? exp_min + 1 then Raise Overflow
              else Ok (Fin s (q / 10) (exp_min + 1))
            else Ok (Fin s q exp_min)
          else Ok d
  | Inf _ => Ok d
  | NaN s sg p =>
      if (p =? 0)%N then Ok d
      else if prec <? len_int p then Ok (NaN s sg (p mod pow10 prec)) else Ok d
  end.

(** [_normalize(op1, op2, prec)] on the operand with the larger exponent
    ([ti], [te]) and the other one ([oi], [oe]): an operand too small to
    affect the rounded sum is replaced by one unit of a nearby exponent,
    then both are brought to the same exponent. *)
Definition normalize_pair (ti : N) (te : Z) (oi : N) (oe : Z) : N * N * Z :=
  let e := te + Z.min (-1) (len_int ti - prec - 2) in
  let '(oi', oe') := if len_int oi + oe - 1 <? e then (1%N, e) else (oi, oe) in
  ((ti * pow10 (te - oe'))%N, oi', oe').

Definition normalize (i1 : N) (e1 : Z) (i2 : N) (e2 : Z) : N * N * Z :=
  if e1 <? e2 then
    let '(ti, oi, e) := normalize_pair i2 e2 i1 e1 in (oi, ti, e)
  else normalize_pair i1 e1 i2 e2.

(** [a + b] ([Decimal.__add__]). *)
Definition add (a b : Decimal) : outcome Decimal :=
  match a, b with
  | NaN _ true _, _ => Raise InvalidOperation
  | _, NaN _ true _ => Raise InvalidOperation
  | NaN _ false _, _ => fix_ a
  | _, NaN _ false _ => fix_ b
  | Inf s1, Inf s2 => if Bool.eqb s1 s2 then Ok a else Raise InvalidOperation
  | Inf _, _ => Ok a
  | _, Inf _ => Ok b
  | Fin s1 c1 e1, Fin s2 c2 e2 =>
      let e := Z.min e1 e2 in
      if (c1 =? 0)%N && (c2 =? 0)%N then fix_ (Fin (s1 && s2) 0 e)
      else if (c1 =? 0)%N then
        fix_ (rescale b (Z.max e (e2 - prec - 1)))
      else if (c2 =? 0)%N then
        fix_ (rescale a (Z.max e (e1 - prec - 1)))
      else
        let '(i1, i2, en) := normalize c1 e1 c2 e2 in
        if Bool.eqb s1 s2 then fix_ (Fin s1 (i1 + i2) en)
        else if (i1 =? i2)%N then fix_ (Fin false 0 e)
        else if (i1 <? i2)%N then fix_ (Fin s2 (i2 - i1) en)
        else fix_ (Fin s1 (i1 - i2) en)
  end.

(** [Decimal(n)] for an [int]. *)
Definition of_Z (z : Z) : Decimal := Fin (z <? 0) (Z.abs_N z) 0.

(** [Decimal("0")]. *)
Definition zero : Decimal := Fin false 0 0.

(** *** [Decimal(s)] for a string *)

Definition lower (c : ascii) : ascii :=
  let n := nat_of_ascii c in
  if ((65 <=? n) && (n <=? 90))%nat then ascii_of_nat (n + 32) else c.

Fixpoint lower_str (s : string) : string :=
  match s with
  | EmptyString => EmptyString
  | String c s' => String (lower c) (lower_str s')
  end.

Fixpoint remove_underscores (s : string) : string :=
  match s with
  | EmptyString => EmptyString
  | String c s' =>
      if Ascii.eqb c "_" then remove_underscores s'
      else String c (remove_underscores s')
  end.

(** The longest prefix of digits: its value, its length, and the rest. *)
Fixpoint span_digits (acc : N) (n : Z) (s : string) : N * Z * string :=
  match s with
  | String c s' =>
      if Py.is_digit c
      then span_digits (10 * acc + Z.to_N (Py.digit_val c))%N (n + 1) s'
      else (acc, n, s)
  | EmptyString => (acc, n, s)
  end.

(** The exponent part, [E[-+]?\d+], or nothing, up to the end. *)
Definition parse_exponent (s : string) : option Z :=
  match s with
  | EmptyString => Some 0
  | String c r =>
      if Ascii.eqb (lower c) "e" then
        let '(neg, r') :=
          match r with
          | String "-" t => (true, t)
          | String "+" t => (false, t)
          | _ => (false, r)
          end in
        match span_digits 0 0 r' with
        | (v, n, EmptyString) =>
            if 0 <? n then Some (if neg then - Z.of_N v else Z.of_N v)
            else None
        | _ => None
        end
      else None
  end.

(** A number: digits with an optional fraction and exponent, at least one
    digit before the exponent. *)
Definition parse_number (sign : bool) (s : string) : option Decimal :=
  let '(iv, il, r1) := span_digits 0 0 s in
  let '(fv, fl, r2) :=
    match r1 with
    | String "." t => span_digits 0 0 t
    | _ => (0%N, 0, r1)
    end in
  if 0 <? il + fl then
    match parse_exponent r2 with
    | Some e => Some (Fin sign (iv * pow10 fl + fv) (e - fl))
    | None => None
    end
  else None.

(** [NaN] or [sNaN] with optional diagnostic digits. *)
Definition parse_nan (sign : bool) (s : string) : option Decimal :=
  let '(sg, r) :=
    match s with
    | String c t => if Ascii.eqb (lower c) "s" then (true, t) else (false, s)
    | EmptyString => (false, s)
    end in
  match r with
  | String a (String b (String c t)) =>
      if String.eqb (lower_str (String a (String b (String c EmptyString)))) "nan"
      then
        match span_digits 0 0 t with
        | (v, _, EmptyString) => Some (NaN sign sg v)
        | _ => None
        end
      else None
  | _ => None
  end.

(** [Decimal(s)]: surrounding whitespace and all underscores are dropped;
    [None] where Python raises InvalidOperation. *)
Definition of_str (s : string) : option Decimal :=
  let t := remove_underscores (Py.strip s) in
  let '(sign, r) :=
    match t with
    | String "-" u => (true, u)
    | String "+" u => (false, u)
    | _ => (false, t)
    end in
  match parse_number sign r with
  | Some d => Some d
  | None =>
      let l := lower_str r in
      if String.eqb l "inf" || String.eqb l "infinity" then Some (Inf sign)
      else parse_nan sign r
  end.

(** [Decimal(v)] for a scalar: an [int] or [bool] converts exactly, a
    string is parsed, [None] is a TypeError. *)
Definition of_value (v : Py.value) : outcome Decimal :=
  match v with
  | Py.VNone => Raise TypeError
  | Py.VBool b => Ok (of_Z (if b then 1 else 0))
  | Py.VInt z => Ok (of_Z z)
  | Py.VStr s =>
      match of_str s with
      | Some d => Ok d
      | None => Raise InvalidOperation
      end
  end.

(** *** [format(d, ".10f")] *)

Fixpoint zeros (n : nat) : string :=
  match n with
  | O => EmptyString
  | S k => String "0" (zeros k)
  end.

Definition sign_str (s : bool) : string := if s then "-" else "".

Definition format_10f (d : Decimal) : string :=
  match rescale d (-10) with
  | Fin s c _ =>
      let frac := Py.str_of_nat_N (c mod pow10 10) in
      sign_str s +:+ Py.str_of_nat_N (c / pow10 10) +:+ "."
      +:+ zeros (10 - String.length frac) +:+ frac
  | Inf s => sign_str s +:+ "Infinity"
  | NaN s sg p =>
      sign_str s +:+ (if sg then "sNaN" else "NaN")
      +:+ (if (p =? 0)%N then "" else Py.str_of_nat_N p)
  end.

End Dec.

(** ** Records, configuration and transports *)

Import Py.

(** A JSON object of scalars, as [resp.json()] hands it over. *)
Abbreviation row := (gmap string value).

(** [r.get(k)] and [r.get(k, d)]. *)
Definition get (r : row) (k : string) : value := default VNone (r !! k).
Definition get_or (r : row) (k : string) (d : value) : value := default d (r !! k).

(** [config.py]: a key or secret that is [None] or empty is missing. *)
Record Config : Type := {
  BINANCE_API_KEY : option string;
  BINANCE_API_SECRET : option string;
  BYBIT_API_KEY : option string;
  BYBIT_API_SECRET : option string
}.

Definition missing (c : option string) : bool :=
  match c with
  | None => true
  | Some s => String.eqb s ""
  end.

(** The query of [/fapi/v1/income]. *)
Record IncomeParams : Type := {
  incomeType : string;
  limit : Z;
  startTime : option Z
}.

(** The Binance endpoint behind [requests.get]: its answer to the [n]-th
    request sent (counting from 0) with the given query, either the decoded
    JSON list or the exception of the transport ([raise_for_status], the
    connection, the decoding). *)
Definition BinanceServer : Type :=
  nat -> string -> IncomeParams -> outcome (list row).

(** The payload of [/v5/position/list]: [data["result"]["list"]], with
    [None] for a key that is absent or null, and [retCode] and [retMsg],
    with [VNone] for an absent key. *)
Record BybitResult : Type := { list_ : option (list row) }.

Record BybitData : Type := {
  retCode : value;
  retMsg : value;
  result : option BybitResult
}.

Record PositionParams : Type := { category : string; settleCoin : string }.

(** The Bybit endpoint behind [requests.get]. *)
Definition BybitServer : Type := string -> PositionParams -> outcome BybitData.

(** What the program prints. *)
Inductive LogLine : Type :=
| BinanceRawRows (n : nat)
| WarnSkippingBybit (settle : string) (e : exn)
| WarnBybitRetCode (settle : string) (code msg : value)
| InfoBybitRows (n : nat)
| BybitNotConfigured (e : exn)
| TotalRows (n : nat)
| Wrote.

(** The normalised record both normalisers build. *)
Record Event : Type := {
  exchange : string;
  symbol : value;
  asset : value;
  amount : Dec.Decimal;
  time : Z;
  type : string
}.

(** ** Binance: funding payments from a given timestamp *)

(** Returns, next to the outcome, the queries put on the wire: none when
    the credentials are missing. *)
Definition binance_signed_request (cfg : Config) (server : BinanceServer)
    (n : nat) (endpoint : string) (params : IncomeParams)
    : list IncomeParams * outcome (list row) :=
  if missing (BINANCE_API_KEY cfg) || missing (BINANCE_API_SECRET cfg)
  then ([], Raise RuntimeError)
  else ([params], server n endpoint params).

(** [int(data[-1]["time"])]. *)
Definition last_time (data : list row) : outcome Z :=
  match last data with
  | None => Raise IndexError
  | Some r =>
      match r !! "time" with
      | Some v => Py.int v
      | None => Raise KeyError
      end
  end.

(** The [while True] loop of [get_binance_funding].  [n] requests have been
    sent so far and [sent] lists their queries; [fuel] bounds the number of
    iterations, and [None] means the bound was reached. *)
Fixpoint funding_loop (fuel : nat) (cfg : Config) (server : BinanceServer)
    (n : nat) (params : IncomeParams) (sent : list IncomeParams)
    (all_rows : list row) : option (list IncomeParams * outcome (list row)) :=
  match fuel with
  | O => None
  | S fuel' =>
      let '(wire, r) := binance_signed_request cfg server n "/fapi/v1/income" params in
      let sent := sent ++ wire in
      match r with
      | Raise e => Some (sent, Raise e)
      | Ok data =>
          match data with
          | [] => Some (sent, Ok all_rows)
          | _ :: _ =>
              let all_rows := all_rows ++ data in
              if Z.of_nat (length data) <? limit params
              then Some (sent, Ok all_rows)
              else
                match last_time data with
                | Raise e => Some (sent, Raise e)
                | Ok t =>
                    funding_loop fuel' cfg server (S n)
                      {| incomeType := incomeType params;
                         limit := limit params;
                         startTime := Some (t + 1) |}
                      sent all_rows
                end
          end
      end
  end.

Definition get_binance_funding (fuel : nat) (cfg : Config)
    (server : BinanceServer) (start_ms : option Z)
    : option (list IncomeParams * outcome (list row)) :=
  funding_loop fuel cfg server 0
    {| incomeType := "FUNDING_FEE"; limit := 1000; startTime := start_ms |}
    [] [].

Definition normalize_binance_row (r : row) : outcome (option Event) :=
  if negb (py_eqb (get r "incomeType") (VStr "FUNDING_FEE")) then Ok None
  else
    let sym := get r "symbol" in
    let asset := get_or r "asset" (VStr "USDT") in
    amt <- Dec.of_value (VStr (str (get_or r "income" (VStr "0")))) ;;
    t <- Py.int (get_or r "time" (VInt 0)) ;;
    Ok (Some {| exchange := "Binance"; symbol := sym; asset := asset;
                amount := amt; time := t; type := "funding" |}).

Fixpoint normalize_binance (rows : list row) : outcome (list Event) :=
  match rows with
  | [] => Ok []
  | r :: rows' =>
      e <- normalize_binance_row r ;;
      norm <- normalize_binance rows' ;;
      Ok (match e with Some ev => ev :: norm | None => norm end)
  end.

(** ** Bybit: realised P&L of the open positions *)

Definition bybit_signed_request (cfg : Config) (server : BybitServer)
    (path : string) (params : PositionParams) : outcome BybitData :=
  if missing (BYBIT_API_KEY cfg) || missing (BYBIT_API_SECRET cfg)
  then Raise RuntimeError
  else server path params.

(** One turn of the [for settle in ...] loop: the lines printed and the
    positions added to [all_positions]. *)
Definition bybit_partition (cfg : Config) (server : BybitServer)
    (settle : string) : list LogLine * list row :=
  match bybit_signed_request cfg server "/v5/position/list"
          {| category := "linear"; settleCoin := settle |} with
  | Raise e => ([WarnSkippingBybit settle e], [])
  | Ok data =>
      if negb (py_eqb (retCode data) (VInt 0))
      then ([WarnBybitRetCode settle (retCode data) (retMsg data)], [])
      else
        let pos_list :=
          match result data with
          | Some res => default [] (list_ res)
          | None => []
          end in
        ([], pos_list)
  end.

Definition get_bybit_realized_raw (cfg : Config) (server : BybitServer)
    : list LogLine * list row :=
  fold_left
    (fun '(log, all_positions) settle =>
       let '(lines, pos_list) := bybit_partition cfg server settle in
       (log ++ lines, all_positions ++ pos_list))
    ["USDT"; "USDC"] ([], []).

(** [symbol.replace("USDT", "").replace("USDC", "")]; only a [str] has
    the method. *)
Definition asset_of_symbol (symbol : value) : outcome string :=
  match symbol with
  | VStr s => Ok (replace "USDC" "" (replace "USDT" "" s))
  | _ => Raise AttributeError
  end.

Definition normalize_bybit_position (pos : row) : outcome (option Event) :=
  let size := get pos "size" in
  if negb (truthy size) || py_eqb size (VStr "0") || py_eqb size (VStr "0.0")
  then Ok None
  else
    let symbol := get pos "symbol" in
    if negb (truthy symbol) then Ok None
    else
      asset <- asset_of_symbol symbol ;;
      let cur_realised_str := py_or (get pos "curRealisedPnl") (VStr "0") in
      let amt :=
        match Dec.of_value cur_realised_str with
        | Ok d => d
        | Raise _ => Dec.zero
        end in
      t <- Py.int (py_or (get_or pos "updatedTime" (VInt 0)) (VInt 0)) ;;
      Ok (Some {| exchange := "Bybit"; symbol := symbol; asset := VStr asset;
                  amount := amt; time := t; type := "realized_pnl" |}).

Fixpoint normalize_bybit_rows (positions : list row) : outcome (list Event) :=
  match positions with
  | [] => Ok []
  | pos :: positions' =>
      e <- normalize_bybit_position pos ;;
      norm <- normalize_bybit_rows positions' ;;
      Ok (match e with Some ev => ev :: norm | None => norm end)
  end.

Definition normalize_bybit (positions : list row)
    : list LogLine * outcome (list Event) :=
  match normalize_bybit_rows positions with
  | Ok norm => ([InfoBybitRows (length norm)], Ok norm)
  | Raise e => ([], Raise e)
  end.

(** ** The CSV writer: aggregation by key and the two tables *)

(** [(r["exchange"], r["symbol"], r["asset"], r["type"])]. *)
Definition Key : Type := string * value * value * string.

Definition key_of (r : Event) : Key := (exchange r, symbol r, asset r, type r).

(** Equality of two key tuples, component by component. *)
Definition key_eqb (a b : Key) : bool :=
  let '(e1, s1, a1, t1) := a in
  let '(e2, s2, a2, t2) := b in
  String.eqb e1 e2 && py_eqb s1 s2 && py_eqb a1 a2 && String.eqb t1 t2.

(** [a < b] on two entries of [by_key.items()]: the first components that
    differ decide; equal keys would leave the decision to the two inner
    dicts, which cannot be ordered.  [None] is a TypeError. *)
Definition key_lt (a b : Key) : option bool :=
  let '(e1, s1, a1, t1) := a in
  let '(e2, s2, a2, t2) := b in
  if negb (String.eqb e1 e2) then Some (String.ltb e1 e2)
  else if negb (py_eqb s1 s2) then py_ltb s1 s2
  else if negb (py_eqb a1 a2) then py_ltb a1 a2
  else if negb (String.eqb t1 t2) then Some (String.ltb t1 t2)
  else None.

Module Summary.
(** The inner dict of [by_key]. *)
Record t : Type := {
  total : Dec.Decimal;
  first : Z;
  last : Z;
  count : Z
}.
End Summary.

(** [by_key]: a dict keeps its keys in insertion order and finds them by
    [==]. *)
Definition ByKey : Type := list (Key * Summary.t).

Fixpoint dict_get (by_key : ByKey) (key : Key) : option Summary.t :=
  match by_key with
  | [] => None
  | (k, d) :: rest => if key_eqb k key then Some d else dict_get rest key
  end.

(** [by_key[key] = d]: the entry of an equal key is overwritten in place,
    a new key goes to the end. *)
Fixpoint dict_set (by_key : ByKey) (key : Key) (d : Summary.t) : ByKey :=
  match by_key with
  | [] => [(key, d)]
  | (k, d0) :: rest =>
      if key_eqb k key then (k, d) :: rest
      else (k, d0) :: dict_set rest key d
  end.

(** The body of [for r in rows]. *)
Definition accumulate (by_key : ByKey) (r : Event) : outcome ByKey :=
  let key := key_of r in
  let by_key :=
    match dict_get by_key key with
    | Some _ => by_key
    | None =>
        dict_set by_key key
          {| Summary.total := Dec.zero; Summary.first := time r;
             Summary.last := time r; Summary.count := 0 |}
    end in
  match dict_get by_key key with
  | None => Raise KeyError
  | Some d =>
      total <- Dec.add (Summary.total d) (amount r) ;;
      Ok (dict_set by_key key
            {| Summary.total := total;
               Summary.first := Z.min (Summary.first d) (time r);
               Summary.last := Z.max (Summary.last d) (time r);
               Summary.count := Summary.count d + 1 |})
  end.

Fixpoint aggregate_from (by_key : ByKey) (rows : list Event) : outcome ByKey :=
  match rows with
  | [] => Ok by_key
  | r :: rows' =>
      by_key' <- accumulate by_key r ;;
      aggregate_from by_key' rows'
  end.

Definition aggregate (rows : list Event) : outcome ByKey := aggregate_from [] rows.

(** [sorted(by_key.items())].  The keys of a dict are pairwise different,
    so the sort never has to order two inner dicts.  It raises TypeError
    when two keys cannot be ordered: whichever comparisons a sort makes, it
    has to compare the neighbours of the final order, and two keys that
    cannot be ordered leave two such neighbours that cannot be either.
    When every two keys can be ordered, the order is total and the result
    is the one sorted list. *)
Fixpoint comparable_with (k : Key) (items : ByKey) : bool :=
  match items with
  | [] => true
  | (k', _) :: rest =>
      match key_lt k k' with
      | Some _ => comparable_with k rest
      | None => false
      end
  end.

Fixpoint all_comparable (items : ByKey) : bool :=
  match items with
  | [] => true
  | (k, _) :: rest => comparable_with k rest && all_comparable rest
  end.

Definition key_ltb (a b : Key) : bool :=
  match key_lt a b with Some true => true | _ => false end.

Fixpoint insert_sorted (x : Key * Summary.t) (items : ByKey) : ByKey :=
  match items with
  | [] => [x]
  | y :: rest =>
      if key_ltb (fst y) (fst x) then y :: insert_sorted x rest
      else x :: items
  end.

Definition sort_items (items : ByKey) : ByKey := fold_right insert_sorted [] items.

Definition sorted_items (items : ByKey) : outcome ByKey :=
  if all_comparable items then Ok (sort_items items) else Raise TypeError.

(** A row handed to [csv.writer.writerow]. *)
Definition csv_row : Type := list value.

Definition summary_header : csv_row :=
  map VStr ["exchange"; "symbol"; "asset"; "type"; "total_amount"; "periods";
            "first_time"; "last_time"].

Definition details_header : csv_row :=
  map VStr ["exchange"; "symbol"; "asset"; "type"; "amount"; "time"].

Definition summary_row (item : Key * Summary.t) : csv_row :=
  let '((ex, sym, asset, typ), d) := item in
  [VStr ex; sym; asset; VStr typ;
   VStr (Dec.format_10f (Summary.total d));
   VInt (Summary.count d); VInt (Summary.first d); VInt (Summary.last d)].

Definition details_row (r : Event) : csv_row :=
  [VStr (exchange r); symbol r; asset r; VStr (type r);
   VStr (Dec.format_10f (amount r)); VInt (time r)].

(** [sorted(by_key.items())] after the loop over [rows], and the rows of
    the summary table written from it below the header. *)
Definition summary_items (rows : list Event) : outcome ByKey :=
  by_key <- aggregate rows ;;
  sorted_items by_key.

Definition summary_rows (rows : list Event) : outcome (list csv_row) :=
  items <- summary_items rows ;;
  Ok (map summary_row items).

(** The two files under [OUTPUT_DIR], [None] while a file does not exist. *)
Record Files : Type := {
  summary_csv : option (list csv_row);
  details_csv : option (list csv_row)
}.

Definition no_files : Files := {| summary_csv := None; details_csv := None |}.

(** The summary file is opened, and its header written, before
    [by_key.items()] is sorted. *)
Definition write_csv (rows : list Event) : list LogLine * Files * outcome unit :=
  match aggregate rows with
  | Raise e => ([], no_files, Raise e)
  | Ok by_key =>
      match sorted_items by_key with
      | Raise e =>
          ([], {| summary_csv := Some [summary_header]; details_csv := None |},
           Raise e)
      | Ok items =>
          ([Wrote],
           {| summary_csv := Some (summary_header :: map summary_row items);
              details_csv := Some (details_header :: map details_row rows) |},
           Ok tt)
      end
  end.

(** ** Main *)

Definition start_ms : Z := 1762732800000.

Definition main (fuel : nat) (cfg : Config) (binance : BinanceServer)
    (bybit : BybitServer) : option (list LogLine * Files * outcome unit) :=
  match get_binance_funding fuel cfg binance (Some start_ms) with
  | None => None
  | Some (_, Raise e) => Some ([], no_files, Raise e)
  | Some (_, Ok raw_binance) =>
      let log := [BinanceRawRows (length raw_binance)] in
      match normalize_binance raw_binance with
      | Raise e => Some (log, no_files, Raise e)
      | Ok norm_binance =>
          let '(lines, raw_bybit) := get_bybit_realized_raw cfg bybit in
          let log := log ++ lines in
          let '(lines, r) := normalize_bybit raw_bybit in
          let log := log ++ lines in
          let caught :=
            match r with
            | Ok norm_bybit => Ok (log, norm_bybit)
            | Raise e =>
                if is_RuntimeError e then Ok (log ++ [BybitNotConfigured e], [])
                else Raise e
            end in
          match caught with
          | Raise e => Some (log, no_files, Raise e)
          | Ok (log, norm_bybit) =>
              let rows := norm_binance ++ norm_bybit in
              let log := log ++ [TotalRows (length rows)] in
              let '(lines, files, r) := write_csv rows in
              Some (log ++ lines, files, r)
          end
      end
  end.

(** ** Vocabulary of the properties *)

(** The request [get_bybit_realized_raw] makes for one settlement coin. *)
Definition partition_request (cfg : Config) (server : BybitServer)
    (settle : string) : outcome BybitData :=
  bybit_signed_request cfg server "/v5/position/list"
    {| category := "linear"; settleCoin := settle |}.

(** A partition fails when its request raises or answers with a
    [retCode] other than 0. *)
Definition partition_failed (o : outcome BybitData) : Prop :=
  match o with
  | Raise _ => True
  | Ok data => py_eqb (retCode data) (VInt 0) = false
  end.

(** A partition succeeds with [records] when its request answers with
    [retCode] 0 and that list of positions. *)
Definition partition_succeeded (o : outcome BybitData) (records : list row) : Prop :=
  exists data,
    o = Ok data /\ py_eqb (retCode data) (VInt 0) = true
    /\ result data = Some {| list_ := Some records |}.

(** The records a partition contributes: those of a successful answer,
    none otherwise. *)
Definition partition_records (o : outcome BybitData) : list row :=
  match o with
  | Raise _ => []
  | Ok data =>
      if py_eqb (retCode data) (VInt 0)
      then match result data with
           | Some res => default [] (list_ res)
           | None => []
           end
      else []
  end.

(** ** Sample inputs *)

Definition both_keys : Config :=
  {| BINANCE_API_KEY := Some "key-a"; BINANCE_API_SECRET := Some "secret-a";
     BYBIT_API_KEY := Some "key-b"; BYBIT_API_SECRET := Some "secret-b" |}.

Definition no_bybit_keys : Config :=
  {| BINANCE_API_KEY := Some "key-a"; BINANCE_API_SECRET := Some "secret-a";
     BYBIT_API_KEY := None; BYBIT_API_SECRET := Some "" |}.

Definition no_binance_keys : Config :=
  {| BINANCE_API_KEY := Some ""; BINANCE_API_SECRET := Some "secret-a";
     BYBIT_API_KEY := Some "key-b"; BYBIT_API_SECRET := Some "secret-b" |}.

Definition position (size sym pnl updated : string) : row :=
  <["size" := VStr size]> (<["symbol" := VStr sym]>
    (<["curRealisedPnl" := VStr pnl]> (<["updatedTime" := VStr updated]> ∅))).

Definition three_positions : list row :=
  [position "0.5" "BTCUSDC" "12.5" "1762732800001";
   position "2" "ETHUSDC" "-3.25" "1762732800002";
   position "10" "SOLUSDC" "0" "1762732800003"].

(** The USDT partition is unreachable, the USDC partition answers. *)
Definition usdt_down : BybitServer :=
  fun _ params =>
    if String.eqb (settleCoin params) "USDT" then Raise RequestException
    else Ok {| retCode := VInt 0; retMsg := VStr "OK";
               result := Some {| list_ := Some three_positions |} |}.

Definition income (sym amt : string) (t : Z) : row :=
  <["incomeType" := VStr "FUNDING_FEE"]> (<["symbol" := VStr sym]>
    (<["asset" := VStr "USDT"]> (<["income" := VStr amt]>
      (<["time" := VInt t]> ∅)))).

(** A ledger of two funding payments, served in one page. *)
Definition two_payments : BinanceServer :=
  fun _ _ _ => Ok [income "BTCUSDT" "-0.37" 1762732800000;
                   income "BTCUSDT" "0.12" 1762761600000].

(** A Binance record whose amount is not a number, and the ledger that
    serves it. *)
Definition malformed_income : row := income "BTCUSDT" "abc" 1762732800000.

Definition one_malformed_payment : BinanceServer :=
  fun _ _ _ => Ok [income "ETHUSDT" "0.25" 1762732800000; malformed_income].

(** A Bybit position whose realised P&L is not a number. *)
Definition malformed_pnl : row := position "0.5" "BTCUSDT" "abc" "1762732800001".

(** *** Closed positions *)

(** The size of a closed position: zero, or the string ["0"] or ["0.0"]. *)
Definition closed_size (size : value) : Prop :=
  size = VInt 0 \/ size = VStr "0" \/ size = VStr "0.0".

(** Any other size that counts as true. *)
Definition open_size (size : value) : Prop :=
  truthy size = true /\ size <> VStr "0" /\ size <> VStr "0.0".

(** [int(pos.get("updatedTime", 0) or 0)]. *)
Definition updated_time (pos : row) : outcome Z :=
  Py.int (py_or (get_or pos "updatedTime" (VInt 0)) (VInt 0)).

(** A position with a size and nothing else. *)
Definition sized_only : row := <["size" := VStr "0.5"]> ∅.

(** *** Settlement-currency suffixes, in the words of the specification *)

(** [s] without the suffix [suffix], when it ends with it. *)
Fixpoint strip_suffix (suffix s : string) : option string :=
  if String.eqb s suffix then Some EmptyString
  else
    match s with
    | EmptyString => None
    | String c s' => option_map (String c) (strip_suffix suffix s')
    end.

(** The symbol without its settlement-currency suffix, the rest of the
    symbol unchanged. *)
Definition strip_settlement_suffix (sym : string) : string :=
  match strip_suffix "USDT" sym with
  | Some base => base
  | None => default sym (strip_suffix "USDC" sym)
  end.

(** [p in s]. *)
Fixpoint contains (p s : string) : bool :=
  starts_with p s
  || match s with
     | EmptyString => false
     | String _ s' => contains p s'
     end.

(** A dated contract settled in USDT. *)
Definition dated_contract : row :=
  position "1" "BTCUSDT-26DEC25" "4.2" "1762732800004".

(** *** Paginated sources *)

(** What a source answers along one run of the fetch, from its [n]-th
    request on: full pages, each followed by a request that starts one
    millisecond after the page's last record, until a page shorter than the
    limit (which may be empty). *)
Inductive serves (server : BinanceServer) : nat -> IncomeParams -> list (list row) -> Prop :=
| serves_last (n : nat) (params : IncomeParams) (page : list row) :
    server n "/fapi/v1/income" params = Ok page ->
    Z.of_nat (length page) < limit params ->
    serves server n params [page]
| serves_next (n : nat) (params : IncomeParams) (page : list row) (t : Z)
    (pages : list (list row)) :
    server n "/fapi/v1/income" params = Ok page ->
    limit params <= Z.of_nat (length page) ->
    last_time page = Ok t ->
    serves server (S n)
      {| incomeType := incomeType params; limit := limit params;
         startTime := Some (t + 1) |} pages ->
    serves server n params (page :: pages).

(** The [startTime] that follows a page. *)
Definition next_start (page : list row) : option Z :=
  match last_time page with
  | Ok t => Some (t + 1)
  | Raise _ => None
  end.

(** A ledger of funding payments, one per millisecond from [from] on. *)
Definition payments (from : Z) (n : nat) : list row :=
  map (fun i => income "BTCUSDT" "0.01" (from + Z.of_nat i)) (seq 0 n).

Definition time_of (r : row) : Z :=
  match r !! "time" with
  | Some (VInt t) => t
  | _ => 0
  end.

(** A source that holds a ledger and answers a query with the oldest
    records from [startTime] on, up to the limit. *)
Definition ledger_server (ledger : list row) : BinanceServer :=
  fun _ _ params =>
    let from_start :=
      match startTime params with
      | Some t => List.filter (fun r => t <=? time_of r) ledger
      | None => ledger
      end in
    Ok (firstn (Z.to_nat (limit params)) from_start).

(** A source that answers every request with the same full page. *)
Definition full_page : list row := payments 0 1000.

Definition endless_server : BinanceServer := fun _ _ _ => Ok full_page.

(** *** Canonical events and their groups *)

(** A canonical event (the LedgerEvent of the specification): symbol and
    asset are strings and the amount is a finite decimal. *)
Definition canonical (r : Event) : bool :=
  match symbol r, asset r with
  | VStr _, VStr _ => Dec.is_finite (amount r)
  | _, _ => false
  end.

(** The events that [by_key[k]] accumulates: those whose key tuple
    compares equal to [k], in the order of the input. *)
Definition bucket (k : Key) (rows : list Event) : list Event :=
  List.filter (fun r => key_eqb k (key_of r)) rows.

(** *** The partition, in the words of the specification *)

(** The aggregation key of an event: (exchange, symbol, asset, kind). *)
Definition aggregation_key (r : Event) : Key :=
  (exchange r, symbol r, asset r, type r).

(** Exact equality of two values and of two keys: no normalisation of
    case or whitespace, and no conversion between types. *)
Definition value_same (a b : value) : bool :=
  match a, b with
  | VNone, VNone => true
  | VBool x, VBool y => Bool.eqb x y
  | VInt x, VInt y => x =? y
  | VStr x, VStr y => String.eqb x y
  | _, _ => false
  end.

Definition key_same (a b : Key) : bool :=
  let '(e1, s1, a1, t1) := a in
  let '(e2, s2, a2, t2) := b in
  String.eqb e1 e2 && value_same s1 s2 && value_same a1 a2 && String.eqb t1 t2.

(** The group of the key [k]: the events whose aggregation key is exactly
    [k], in the order of the input. *)
Definition group (k : Key) (rows : list Event) : list Event :=
  List.filter (fun r => key_same k (aggregation_key r)) rows.

(** The sum of a list of decimals as the loop computes it: from
    [Decimal("0")], one [+=] after the other. *)
Fixpoint dec_sum_from (acc : Dec.Decimal) (l : list Dec.Decimal) : outcome Dec.Decimal :=
  match l with
  | [] => Ok acc
  | d :: l' => a <- Dec.add acc d ;; dec_sum_from a l'
  end.

Definition dec_sum (l : list Dec.Decimal) : outcome Dec.Decimal :=
  dec_sum_from Dec.zero l.

(** The total of every group can be added up: no partial sum leaves the
    exponent range of the context (or is otherwise refused). *)
Definition summable (rows : list Event) : bool :=
  forallb (fun r =>
             match dec_sum (map amount (group (aggregation_key r) rows)) with
             | Ok _ => true
             | Raise _ => false
             end) rows.

(** [m] is the least, or the greatest, of the times [l]. *)
Definition is_min (m : Z) (l : list Z) : Prop := In m l /\ forall t, In t l -> m <= t.
Definition is_max (m : Z) (l : list Z) : Prop := In m l /\ forall t, In t l -> t <= m.

Definition ledger_event (ex sym asset_ typ : string) (amt : Dec.Decimal) (t : Z) : Event :=
  {| exchange := ex; symbol := VStr sym; asset := VStr asset_; amount := amt;
     time := t; type := typ |}.

(** The two events of the aggregation example: +1.5 at 100, -0.5 at 200. *)
Definition two_fundings : list Event :=
  [ledger_event "A" "BTC" "USDT" "funding" (Dec.Fin false 15 (-1)) 100;
   ledger_event "A" "BTC" "USDT" "funding" (Dec.Fin true 5 (-1)) 200].

Definition canonical_key (k : Key) : bool :=
  match k with
  | (_, VStr _, VStr _, _) => true
  | _ => false
  end.

(** [d] is the summary of the non-empty list of events [g]. *)
Definition summarises (g : list Event) (d : Summary.t) : Prop :=
  g <> []
  /\ dec_sum (map amount g) = Ok (Summary.total d)
  /\ Summary.count d = Z.of_nat (length g)
  /\ is_min (Summary.first d) (map time g)
  /\ is_max (Summary.last d) (map time g).

(** [by_key] holds one entry per key of [rows], with the summary of the
    key's bucket. *)
Definition aggregated (rows : list Event) (by_key : ByKey) : Prop :=
  List.NoDup (map fst by_key)
  /\ (forall r, In r rows -> In (key_of r) (map fst by_key))
  /\ (forall k d, In (k, d) by_key ->
        canonical_key k = true
        /\ Dec.is_finite (Summary.total d) = true
        /\ summarises (bucket k rows) d).

(** No entry of [by_key] has a key equal to [key]. *)
Definition other_keys (key : Key) (by_key : ByKey) : Prop :=
  Forall (fun e => key_eqb (fst e) key = false) by_key.

(** *** The order of the summary rows, in the words of the specification *)

(** Strings compare character by character, by code point. *)
Definition str_lt (s t : string) : Prop := String.compare s t = Lt.

(** Ascending lexicographic order on keys: exchange, then symbol, then
    asset, then kind. *)
Definition key_before (a b : Key) : Prop :=
  match a, b with
  | (e1, VStr s1, VStr a1, t1), (e2, VStr s2, VStr a2, t2) =>
      str_lt e1 e2
      \/ (e1 = e2
          /\ (str_lt s1 s2
              \/ (s1 = s2
                  /\ (str_lt a1 a2 \/ (a1 = a2 /\ str_lt t1 t2)))))
  | _, _ => False
  end.

Definition item_before (x y : Key * Summary.t) : Prop := key_before (fst x) (fst y).

(** The keys of [items] are canonical and pairwise different. *)
Definition distinct_keys (items : ByKey) : Prop :=
  List.NoDup (map fst items)
  /\ Forall (fun x => canonical_key (fst x) = true) items.

(** *** Exact sums *)

(** The signed coefficient and the exponent of a finite decimal. *)
Definition signed_coef (d : Dec.Decimal) : Z :=
  match d with
  | Dec.Fin s c _ => if s then - Z.of_N c else Z.of_N c
  | _ => 0
  end.

Definition exponent (d : Dec.Decimal) : Z :=
  match d with
  | Dec.Fin _ _ e => e
  | _ => 0
  end.

(** The decimal with signed coefficient [v] and exponent [e]; zero comes
    out positive. *)
Definition repr (v e : Z) : Dec.Decimal := Dec.Fin (v <? 0) (Z.abs_N v) e.

(** The value of a finite decimal, as a rational number. *)
Definition to_Q (d : Dec.Decimal) : Q :=
  (inject_Z (signed_coef d) * (10 # 1) ^ exponent d)%Q.

Definition sum_Q (l : list Q) : Q := fold_right Qplus (0 # 1)%Q l.

(** The least of [e] and the exponents of [l]. *)
Definition min_exps (e : Z) (l : list Dec.Decimal) : Z :=
  fold_right (fun d m => Z.min (exponent d) m) e l.

(** A decimal counted in units of [10^m], for an [m] not above its
    exponent. *)
Definition units (m : Z) (d : Dec.Decimal) : Z :=
  signed_coef d * 10 ^ (exponent d - m).

Definition total_units (m : Z) (l : list Dec.Decimal) : Z :=
  fold_right (fun d acc => units m d + acc) 0 l.

Definition magnitude (m : Z) (l : list Dec.Decimal) : Z :=
  fold_right (fun d acc => Z.abs (units m d) + acc) 0 l.

(** The amounts [l] fit the context: they are finite, none has an
    exponent below [Etiny], and, counted in units of their finest decimal
    place (of one, if none has a fraction), their absolute values add up to
    fewer than 29 digits.  No sum of some of them, in any order, is then
    rounded or out of range. *)
Definition fits (l : list Dec.Decimal) : bool :=
  forallb Dec.is_finite l
  && (Dec.Etiny <=? min_exps 0 l)
  && (magnitude (min_exps 0 l) l <? 10 ^ 28).

(** The amounts of every group of [rows] fit the context. *)
Definition fits_precision (rows : list Event) : bool :=
  forallb (fun r => fits (map amount (group (aggregation_key r) rows))) rows.

(** The same of the buckets of [by_key]. *)
Definition fits_buckets (rows : list Event) : bool :=
  forallb (fun r => fits (map amount (bucket (key_of r) rows))) rows.

Definition summable_buckets (rows : list Event) : bool :=
  forallb (fun r =>
             match dec_sum (map amount (bucket (key_of r) rows)) with
             | Ok _ => true
             | Raise _ => false
             end) rows.

(** The exact sum of [l], written with the least exponent. *)
Definition exact_sum (l : list Dec.Decimal) : Dec.Decimal :=
  repr (total_units (min_exps 0 l) l) (min_exps 0 l).

(** A funding payment of 0.00000001, three of them, and the records they
    come from. *)
Definition tiny_payment (t : Z) : Event :=
  ledger_event "Binance" "BTCUSDT" "USDT" "funding" (Dec.Fin false 1 (-8)) t.

Definition three_tiny_payments : list Event :=
  [tiny_payment 1; tiny_payment 2; tiny_payment 3].

Definition three_tiny_incomes : list row :=
  [income "BTCUSDT" "0.00000001" 1; income "BTCUSDT" "0.00000001" 2;
   income "BTCUSDT" "0.00000001" 3].

(** An amount of 30 significant digits: 10000000000000000000.0000000001. *)
Definition long_amount : Dec.Decimal :=
  Dec.Fin false 100000000000000000000000000001 (-10).

Definition long_payment : Event :=
  ledger_event "Binance" "BTCUSDT" "USDT" "funding" long_amount 1.

(** Three amounts whose sum depends on the order: 1E+28, 5 and 5. *)
Definition large_first : list Event :=
  [ledger_event "A" "BTC" "USDT" "funding" (Dec.Fin false 1 28) 100;
   ledger_event "A" "BTC" "USDT" "funding" (Dec.Fin false 5 0) 200;
   ledger_event "A" "BTC" "USDT" "funding" (Dec.Fin false 5 0) 300].

Definition large_last : list Event :=
  [ledger_event "A" "BTC" "USDT" "funding" (Dec.Fin false 5 0) 200;
   ledger_event "A" "BTC" "USDT" "funding" (Dec.Fin false 5 0) 300;
   ledger_event "A" "BTC" "USDT" "funding" (Dec.Fin false 1 28) 100].

(** Funding payments of two instruments on two venues, out of order. *)
Definition mixed_payments : list Event :=
  [ledger_event "Bybit" "ETHUSDT" "ETH" "realized_pnl" (Dec.Fin false 125 (-1)) 7;
   ledger_event "Binance" "ETHUSDT" "USDT" "funding" (Dec.Fin true 37 (-2)) 5;
   ledger_event "Binance" "BTCUSDT" "USDT" "funding" (Dec.Fin false 12 (-2)) 9;
   ledger_event "Binance" "ETHUSDT" "USDT" "funding" (Dec.Fin false 1 (-8)) 3].

(** Two amounts whose sum has 29 digits: 9999999999999999999999999999
    and 0.5. *)
Definition nines_and_half : list Event :=
  [ledger_event "A" "BTC" "USDT" "funding"
     (Dec.Fin false 9999999999999999999999999999 0) 100;
   ledger_event "A" "BTC" "USDT" "funding" (Dec.Fin false 5 (-1)) 200].

(** Events of five keys, two of which differ in the kind alone and two in
    the asset alone; the key (A, BTC, USDT, funding) has the two events of
    the aggregation example. *)
Definition several_keys : list Event :=
  [ledger_event "A" "BTC" "USDT" "funding" (Dec.Fin false 15 (-1)) 100;
   ledger_event "A" "BTC" "USDT" "realized_pnl" (Dec.Fin false 7 0) 150;
   ledger_event "B" "BTC" "USDT" "funding" (Dec.Fin true 25 (-2)) 120;
   ledger_event "A" "BTC" "USDT" "funding" (Dec.Fin true 5 (-1)) 200;
   ledger_event "A" "BTC" "USDC" "funding" (Dec.Fin false 3 0) 130;
   ledger_event "A" "ETH" "USDT" "funding" (Dec.Fin false 1 (-8)) 90].

(** A payment of 1E+1000000, beyond the exponent range of the context. *)
Definition huge_payment : Event :=
  ledger_event "Binance" "BTCUSDT" "USDT" "funding" (Dec.Fin false 1 1000000) 1.

(** ** Vocabulary of the further properties *)

(** *** Binance records *)

(** [r.get("incomeType") == "FUNDING_FEE"]. *)
Definition is_funding_fee (r : row) : bool :=
  py_eqb (get r "incomeType") (VStr "FUNDING_FEE").

(** [Decimal(str(r.get("income", "0")))] and [int(r.get("time", 0))]. *)
Definition income_amount (r : row) : outcome Dec.Decimal :=
  Dec.of_value (VStr (str (get_or r "income" (VStr "0")))).

Definition income_time (r : row) : outcome Z :=
  Py.int (get_or r "time" (VInt 0)).

(** [ev] is the event of the funding record [r]. *)
Definition funding_event (r : row) (ev : Event) : Prop :=
  exchange ev = "Binance" /\ type ev = "funding"
  /\ symbol ev = get r "symbol"
  /\ asset ev = get_or r "asset" (VStr "USDT")
  /\ income_amount r = Ok (amount ev)
  /\ income_time r = Ok (time ev).

(** The amount and the time of [r] can be read. *)
Definition readable (r : row) : Prop :=
  (exists d, income_amount r = Ok d) /\ (exists t, income_time r = Ok t).

(** A commission record with a broken amount, between two funding
    payments. *)
Definition commission : row :=
  <["incomeType" := VStr "COMMISSION"]> (<["income" := VStr "n/a"]> ∅).

Definition mixed_incomes : list row :=
  [income "BTCUSDT" "-0.37" 1762732800000; commission;
   income "ETHUSDT" "0.12" 1762761600000].

(** *** Fetches that fail *)

(** The income query of [get_binance_funding]. *)
Definition income_query (start_ms : option Z) : IncomeParams :=
  {| incomeType := "FUNDING_FEE"; limit := 1000; startTime := start_ms |}.

(** What a source answers along a run of the fetch that ends in the
    exception [e] at its [k]-th request, counted from the [n]-th on: full
    pages with a readable last [time], and then either a request that
    raises [e] or a full page whose last [time] raises [e] when read. *)
Inductive fails (server : BinanceServer)
  : nat -> IncomeParams -> nat -> exn -> Prop :=
| fails_request (n : nat) (params : IncomeParams) (e : exn) :
    server n "/fapi/v1/income" params = Raise e ->
    fails server n params 1 e
| fails_cursor (n : nat) (params : IncomeParams) (page : list row) (e : exn) :
    server n "/fapi/v1/income" params = Ok page ->
    limit params <= Z.of_nat (length page) ->
    last_time page = Raise e ->
    fails server n params 1 e
| fails_next (n : nat) (params : IncomeParams) (page : list row) (t : Z)
    (k : nat) (e : exn) :
    server n "/fapi/v1/income" params = Ok page ->
    limit params <= Z.of_nat (length page) ->
    last_time page = Ok t ->
    fails server (S n)
      {| incomeType := incomeType params; limit := limit params;
         startTime := Some (t + 1) |} k e ->
    fails server n params (S k) e.

(** A source that serves one full page and is unreachable afterwards. *)
Definition down_after_one_page : BinanceServer :=
  fun n _ _ =>
    match n with
    | O => Ok full_page
    | S _ => Raise RequestException
    end.

(** A source that answers with nothing, and a Bybit source that does the
    same. *)
Definition no_payments : BinanceServer := fun _ _ _ => Ok [].

Definition no_positions : BybitServer :=
  fun _ _ => Ok {| retCode := VInt 0; retMsg := VStr "OK";
                   result := Some {| list_ := Some [] |} |}.

(** *** Bybit positions *)

(** The position passes both guards of [normalize_bybit]: its size is
    true and neither ["0"] nor ["0.0"], and its symbol is true. *)
Definition is_open (pos : row) : bool :=
  let size := get pos "size" in
  negb (negb (truthy size) || py_eqb size (VStr "0") || py_eqb size (VStr "0.0"))
  && truthy (get pos "symbol").

(** [Decimal(pos.get("curRealisedPnl") or "0")], zero when that raises. *)
Definition realised_pnl (pos : row) : Dec.Decimal :=
  match Dec.of_value (py_or (get pos "curRealisedPnl") (VStr "0")) with
  | Ok d => d
  | Raise _ => Dec.zero
  end.

(** [ev] is the event of the open position [pos]. *)
Definition position_event (pos : row) (ev : Event) : Prop :=
  exchange ev = "Bybit" /\ type ev = "realized_pnl"
  /\ symbol ev = get pos "symbol"
  /\ (exists a, asset_of_symbol (get pos "symbol") = Ok a /\ asset ev = VStr a)
  /\ amount ev = realised_pnl pos
  /\ updated_time pos = Ok (time ev).

(** The time of the position can be read once its symbol has given the
    asset. *)
Definition normalisable (pos : row) : Prop :=
  (exists s, get pos "symbol" = VStr s) /\ (exists t, updated_time pos = Ok t).

(** An open position whose [updatedTime] is not a number, and a Bybit
    source that reports it next to a sound one. *)
Definition undated : row := position "1" "BTCUSDT" "1.5" "yesterday".

Definition one_undated : BybitServer :=
  fun _ params =>
    Ok {| retCode := VInt 0; retMsg := VStr "OK";
          result := Some {| list_ :=
            Some (if String.eqb (settleCoin params) "USDT"
                  then [position "2" "ETHUSDT" "-3.25" "1762732800002"; undated]
                  else []) |} |}.

(** The line of the handler around the Bybit calls of [main]. *)
Definition is_not_configured (line : LogLine) : bool :=
  match line with
  | BybitNotConfigured _ => true
  | _ => false
  end.

(** *** Summaries of arbitrary events *)

(** The sum of the [periods] column of a summary. *)
Definition counts (by_key : ByKey) : Z :=
  fold_right Z.add 0 (map (fun item => Summary.count (snd item)) by_key).

(** Two keys that [sorted] cannot order: they differ, and the first
    components that differ are not of one type. *)
Definition unordered (a b : Key) : Prop :=
  key_eqb a b = false /\ key_lt a b = None.

(** A funding payment whose record had no symbol, as [normalize_binance]
    renders it. *)
Definition unnamed_payment : Event :=
  {| exchange := "Binance"; symbol := VNone; asset := VStr "USDT";
     amount := Dec.Fin false 12 (-2); time := 1762761600000; type := "funding" |}.

(** A signalling NaN, which [Decimal] reads from the string ["sNaN"]. *)
Definition is_signaling (d : Dec.Decimal) : bool :=
  match d with
  | Dec.NaN _ true _ => true
  | _ => false
  end.

Definition signaling_income : row := income "BTCUSDT" "sNaN" 1762732800000.

Definition named_and_unnamed : list Event :=
  [ledger_event "Binance" "BTCUSDT" "USDT" "funding" (Dec.Fin false 15 (-1)) 100;
   unnamed_payment;
   ledger_event "Bybit" "ETHUSDT" "ETH" "realized_pnl" (Dec.Fin true 5 (-1)) 200].

(** *** Ledgers in order of time *)

(** The records of a ledger that a query from [start] on asks for. *)
Definition since (start : option Z) (ledger : list row) : list row :=
  match start with
  | Some t => List.filter (fun r => t <=? time_of r) ledger
  | None => ledger
  end.

(** The record carries its time as an integer. *)
Definition stamped (r : row) : bool :=
  match r !! "time" with
  | Some (VInt _) => true
  | _ => false
  end.

Fixpoint ascending (ts : list Z) : bool :=
  match ts with
  | a :: (b :: _) as rest => (a <? b) && ascending rest
  | _ => true
  end.

(** Every record is stamped and no two records share a time: the times
    strictly increase along the ledger. *)
Definition chronological (ledger : list row) : bool :=
  forallb stamped ledger && ascending (map time_of ledger).

Definition earlier (a b : row) : Prop := time_of a < time_of b.

(** Records that all carry the time [t]. *)
Definition simultaneous (t : Z) (ledger : list row) : Prop :=
  Forall (fun r => r !! "time" = Some (VInt t)) ledger.

(** *** Warnings of the snapshot fetch *)

(** The line is a warning about the partition [settle]. *)
Definition warns (settle : string) (line : LogLine) : bool :=
  match line with
  | WarnSkippingBybit s _ => String.eqb s settle
  | WarnBybitRetCode s _ _ => String.eqb s settle
  | _ => false
  end.

(** A Bybit source that refuses the USDT partition with a [retCode]. *)
Definition usdt_refused : BybitServer :=
  fun _ params =>
    if String.eqb (settleCoin params) "USDT"
    then Ok {| retCode := VInt 10001; retMsg := VStr "params error";
               result := None |}
    else Ok {| retCode := VInt 0; retMsg := VStr "OK";
               result := Some {| list_ := Some three_positions |} |}.

(** *** Amounts below the tenth decimal *)

(** A non-zero decimal of magnitude at most [5E-11]: the coefficient [c]
    with the exponent [e] below [-10]. *)
Definition below_tenth_decimal (c : N) (e : Z) : Prop :=
  (c <> 0)%N /\ e < -10 /\ (2 * c <= Dec.pow10 (-10 - e))%N.

(** * Properties of the program *)

(** ** The Bybit snapshot fetch *)

Lemma bybit_partition_records (cfg : Config) (server : BybitServer) (settle : string) :
  snd (bybit_partition cfg server settle)
  = partition_records (partition_request cfg server settle).
Proof.
  unfold bybit_partition, partition_request, partition_records.
  destruct (bybit_signed_request _ _ _ _) as [data|e]; [|reflexivity].
  destruct (py_eqb (retCode data) (VInt 0)); reflexivity.
Qed.

Lemma get_bybit_realized_raw_records (cfg : Config) (server : BybitServer) :
  snd (get_bybit_realized_raw cfg server)
  = partition_records (partition_request cfg server "USDT")
    ++ partition_records (partition_request cfg server "USDC").
Proof.
  unfold get_bybit_realized_raw. simpl.
  rewrite <- !bybit_partition_records.
  destruct (bybit_partition cfg server "USDT") as [l1 p1].
  destruct (bybit_partition cfg server "USDC") as [l2 p2].
  reflexivity.
Qed.

Lemma partition_failed_records (o : outcome BybitData) :
  partition_failed o -> partition_records o = [].
Proof.
  destruct o as [data|e]; simpl; [|reflexivity].
  intros ->. reflexivity.
Qed.

Lemma partition_succeeded_records (o : outcome BybitData) (records : list row) :
  partition_succeeded o records -> partition_records o = records.
Proof.
  intros (data & -> & Hcode & Hres). simpl.
  rewrite Hcode, Hres. reflexivity.
Qed.

(** C4.  The snapshot fetch never aborts: it returns the records of the
    USDT partition followed by those of the USDC partition, a partition
    whose request raised or answered with a non-zero retCode contributing
    none.  So when one partition fails and the other succeeds with some
    records, the result is exactly those records. *)
Theorem partition_isolation (cfg : Config) (server : BybitServer) :
  snd (get_bybit_realized_raw cfg server)
  = partition_records (partition_request cfg server "USDT")
    ++ partition_records (partition_request cfg server "USDC")
  /\ forall (failed ok : string) (records : list row),
       (failed = "USDT" /\ ok = "USDC") \/ (failed = "USDC" /\ ok = "USDT") ->
       partition_failed (partition_request cfg server failed) ->
       partition_succeeded (partition_request cfg server ok) records ->
       snd (get_bybit_realized_raw cfg server) = records.
Proof.
  split; [apply get_bybit_realized_raw_records|].
  intros failed ok records Hwhich Hfail Hok.
  rewrite get_bybit_realized_raw_records.
  apply partition_failed_records in Hfail.
  apply partition_succeeded_records in Hok.
  destruct Hwhich as [[-> ->]|[-> ->]]; rewrite Hfail, Hok.
  - reflexivity.
  - apply app_nil_r.
Qed.

Lemma partition_isolation_witness :
  snd (get_bybit_realized_raw both_keys usdt_down) = three_positions
  /\ length (snd (get_bybit_realized_raw both_keys usdt_down)) = 3%nat.
Proof.
  assert (H : snd (get_bybit_realized_raw both_keys usdt_down) = three_positions).
  { apply (proj2 (partition_isolation both_keys usdt_down) "USDT" "USDC").
    - left. split; reflexivity.
    - exact I.
    - eexists. repeat split; reflexivity. }
  split; [exact H|]. rewrite H. reflexivity.
Defined.

(** ** Missing credentials *)

Lemma bybit_partition_not_configured (cfg : Config) (server : BybitServer) (settle : string) :
  missing (BYBIT_API_KEY cfg) || missing (BYBIT_API_SECRET cfg) = true ->
  bybit_partition cfg server settle = ([WarnSkippingBybit settle RuntimeError], []).
Proof.
  intros H. unfold bybit_partition, bybit_signed_request. rewrite H. reflexivity.
Qed.

Lemma get_bybit_realized_raw_not_configured (cfg : Config) (server : BybitServer) :
  missing (BYBIT_API_KEY cfg) || missing (BYBIT_API_SECRET cfg) = true ->
  get_bybit_realized_raw cfg server
  = ([WarnSkippingBybit "USDT" RuntimeError; WarnSkippingBybit "USDC" RuntimeError], []).
Proof.
  intros H. unfold get_bybit_realized_raw. simpl.
  rewrite !bybit_partition_not_configured by exact H. reflexivity.
Qed.

Lemma funding_loop_not_configured (fuel : nat) (cfg : Config) (server : BinanceServer)
    (n : nat) (params : IncomeParams) (sent : list IncomeParams) (all_rows : list row) :
  missing (BINANCE_API_KEY cfg) || missing (BINANCE_API_SECRET cfg) = true ->
  funding_loop (S fuel) cfg server n params sent all_rows
  = Some (sent, Raise RuntimeError).
Proof.
  intros H. simpl. unfold binance_signed_request. rewrite H.
  rewrite app_nil_r. reflexivity.
Qed.

Lemma write_csv_details (rows : list Event) (lines : list LogLine) (files : Files) :
  write_csv rows = (lines, files, Ok tt) ->
  details_csv files = Some (details_header :: map details_row rows).
Proof.
  unfold write_csv.
  destruct (aggregate rows) as [by_key|e]; [|discriminate].
  destruct (sorted_items by_key) as [items|e]; [|discriminate].
  intros H. injection H as _ <-. reflexivity.
Qed.

(** C7.  Without the Bybit credentials the run goes on: both partitions are
    skipped with a warning, Bybit contributes no event, and the files are
    those written from the Binance events alone.  Without the Binance
    credentials the first request raises RuntimeError, nothing catches it,
    and the run ends before any file exists. *)
Theorem missing_credentials (fuel : nat) (cfg : Config)
    (binance : BinanceServer) (bybit : BybitServer) :
  (missing (BYBIT_API_KEY cfg) || missing (BYBIT_API_SECRET cfg) = true ->
   forall sent raw norm lines files,
     get_binance_funding fuel cfg binance (Some start_ms) = Some (sent, Ok raw) ->
     normalize_binance raw = Ok norm ->
     write_csv norm = (lines, files, Ok tt) ->
     main fuel cfg binance bybit
     = Some ([BinanceRawRows (length raw);
              WarnSkippingBybit "USDT" RuntimeError;
              WarnSkippingBybit "USDC" RuntimeError;
              InfoBybitRows 0;
              TotalRows (length norm)] ++ lines, files, Ok tt)
     /\ details_csv files = Some (details_header :: map details_row norm))
  /\ (missing (BINANCE_API_KEY cfg) || missing (BINANCE_API_SECRET cfg) = true ->
      main (S fuel) cfg binance bybit = Some ([], no_files, Raise RuntimeError)).
Proof.
  split.
  - intros Hmiss sent raw norm lines files Hfetch Hnorm Hwrite.
    split; [|eapply write_csv_details; exact Hwrite].
    unfold main. rewrite Hfetch, Hnorm.
    rewrite get_bybit_realized_raw_not_configured by exact Hmiss.
    simpl. rewrite app_nil_r, Hwrite. reflexivity.
  - intros Hmiss. unfold main, get_binance_funding.
    rewrite funding_loop_not_configured by exact Hmiss. reflexivity.
Qed.

Lemma missing_credentials_witness :
  (exists files,
     main 1 no_bybit_keys two_payments usdt_down
     = Some ([BinanceRawRows 2;
              WarnSkippingBybit "USDT" RuntimeError;
              WarnSkippingBybit "USDC" RuntimeError;
              InfoBybitRows 0; TotalRows 2; Wrote], files, Ok tt)
     /\ option_map (@length csv_row) (details_csv files) = Some 3%nat)
  /\ main 1 no_binance_keys two_payments usdt_down
     = Some ([], no_files, Raise RuntimeError).
Proof.
  split.
  - destruct (write_csv
                [{| exchange := "Binance"; symbol := VStr "BTCUSDT";
                    asset := VStr "USDT"; amount := Dec.Fin true 37 (-2);
                    time := 1762732800000; type := "funding" |};
                 {| exchange := "Binance"; symbol := VStr "BTCUSDT";
                    asset := VStr "USDT"; amount := Dec.Fin false 12 (-2);
                    time := 1762761600000; type := "funding" |}])
      as [[lines files] r] eqn:Hwrite.
    pose proof Hwrite as Hshape. vm_compute in Hshape.
    injection Hshape as <- Hfiles <-.
    exists files.
    destruct (proj1 (missing_credentials 1 no_bybit_keys two_payments usdt_down)
                eq_refl _ _ _ _ _ eq_refl eq_refl Hwrite) as [Hmain Hdetails].
    split; [exact Hmain|]. rewrite Hdetails. reflexivity.
  - exact (proj2 (missing_credentials 0 no_binance_keys two_payments usdt_down) eq_refl).
Defined.

(** ** Malformed amounts *)

Lemma normalize_binance_unparseable_income (r : row) (rest : list row) (s : string) :
  get r "incomeType" = VStr "FUNDING_FEE" ->
  r !! "income" = Some (VStr s) ->
  Dec.of_str s = None ->
  normalize_binance (r :: rest) = Raise InvalidOperation.
Proof.
  intros Htype Hincome Hparse. simpl.
  unfold normalize_binance_row, get_or. rewrite Htype, Hincome. simpl.
  rewrite Hparse. reflexivity.
Qed.

Lemma normalize_bybit_unparseable_pnl (pos : row) (s : string) (ev : Event) :
  pos !! "curRealisedPnl" = Some (VStr s) ->
  Dec.of_str s = None ->
  normalize_bybit_position pos = Ok (Some ev) ->
  amount ev = Dec.zero.
Proof.
  intros Hpnl Hparse.
  assert (Hget : get pos "curRealisedPnl" = VStr s)
    by (unfold get; rewrite Hpnl; reflexivity).
  unfold normalize_bybit_position. rewrite Hget.
  destruct (_ || _); [discriminate|].
  destruct (negb _); [discriminate|].
  destruct (asset_of_symbol _); [|discriminate]. simpl.
  destruct (Py.int _); [|discriminate]. simpl.
  intros H. injection H as <-. simpl.
  unfold py_or. destruct (truthy (VStr s)); simpl; [rewrite Hparse|]; reflexivity.
Qed.

(** C5.  An amount that is not a number is swallowed by the Bybit
    normaliser only: its event gets the amount zero.  The same text in the
    [income] field of a Binance record makes [normalize_binance] raise
    InvalidOperation, and [main] ends with it before any file exists. *)
Theorem malformed_amount :
  Dec.of_str "abc" = None
  /\ normalize_binance [malformed_income] = Raise InvalidOperation
  /\ main 1 both_keys one_malformed_payment usdt_down
     = Some ([BinanceRawRows 2], no_files, Raise InvalidOperation)
  /\ snd (normalize_bybit [malformed_pnl])
     = Ok [{| exchange := "Bybit"; symbol := VStr "BTCUSDT";
              asset := VStr "BTC"; amount := Dec.zero;
              time := 1762732800001; type := "realized_pnl" |}].
Proof.
  repeat split; vm_compute; reflexivity.
Qed.

(** ** The Bybit normaliser *)

Lemma normalize_bybit_rows_app (l1 l2 : list row) :
  normalize_bybit_rows (l1 ++ l2)
  = (n1 <- normalize_bybit_rows l1 ;;
     n2 <- normalize_bybit_rows l2 ;;
     Ok (n1 ++ n2)).
Proof.
  induction l1 as [|pos l1 IH]; simpl.
  - destruct (normalize_bybit_rows l2); reflexivity.
  - destruct (normalize_bybit_position pos) as [e|x]; simpl; [|reflexivity].
    rewrite IH.
    destruct (normalize_bybit_rows l1) as [n1|x]; simpl; [|reflexivity].
    destruct (normalize_bybit_rows l2) as [n2|x]; simpl; [|reflexivity].
    destruct e; reflexivity.
Qed.

Lemma normalize_bybit_rows_length (positions : list row) (norm : list Event) :
  normalize_bybit_rows positions = Ok norm ->
  (length norm <= length positions)%nat.
Proof.
  revert norm. induction positions as [|pos positions IH]; simpl; intros norm H.
  - injection H as <-. simpl. lia.
  - destruct (normalize_bybit_position pos) as [e|x]; simpl in H; [|discriminate].
    destruct (normalize_bybit_rows positions) as [n|x]; simpl in H; [|discriminate].
    specialize (IH n eq_refl).
    injection H as <-. destruct e; simpl; lia.
Qed.

Lemma closed_size_skipped (pos : row) :
  closed_size (get pos "size") -> normalize_bybit_position pos = Ok None.
Proof.
  unfold normalize_bybit_position.
  intros [-> | [-> | ->]]; reflexivity.
Qed.

Lemma open_size_passes (size : value) :
  open_size size ->
  negb (truthy size) || py_eqb size (VStr "0") || py_eqb size (VStr "0.0") = false.
Proof.
  intros (Ht & H0 & H00). rewrite Ht. simpl.
  destruct size as [| b | z | s]; try reflexivity.
  simpl. apply orb_false_iff. split; apply String.eqb_neq; congruence.
Qed.

Lemma nonempty_truthy (s : string) : s <> "" -> truthy (VStr s) = true.
Proof.
  intros H. simpl. apply negb_true_iff, String.eqb_neq, H.
Qed.

(** The event of an open position with a symbol and a readable time. *)
Lemma normalize_bybit_position_open (pos : row) (s : string) (t : Z) :
  open_size (get pos "size") ->
  get pos "symbol" = VStr s -> s <> "" ->
  updated_time pos = Ok t ->
  exists amt,
    normalize_bybit_position pos
    = Ok (Some {| exchange := "Bybit"; symbol := VStr s;
                  asset := VStr (replace "USDC" "" (replace "USDT" "" s));
                  amount := amt; time := t; type := "realized_pnl" |}).
Proof.
  intros Hsize Hsym Hne Htime. unfold normalize_bybit_position.
  rewrite (open_size_passes _ Hsize), Hsym, (nonempty_truthy _ Hne). simpl.
  unfold updated_time in Htime. rewrite Htime. simpl.
  eexists. reflexivity.
Qed.

(** C6, as stated, fails on a position that has an open size and no symbol:
    the guard on the symbol drops it. *)
Lemma open_size_without_symbol_excluded :
  get sized_only "size" = VStr "0.5"
  /\ open_size (get sized_only "size")
  /\ normalize_bybit [sized_only] = ([InfoBybitRows 0], Ok []).
Proof.
  split; [reflexivity|]. split; [|reflexivity].
  unfold open_size. split; [reflexivity | split; discriminate].
Qed.

(** C6, amended.  A position whose size is zero, ["0"] or ["0.0"] leaves no
    event, wherever it stands in the input.  A position whose size is any
    other true value, whose symbol is a non-empty string and whose
    [updatedTime] is absent, empty or an integer, gives exactly one
    [realized_pnl] event, in its place.  The output never has more events
    than the input has positions. *)
Theorem closed_position_filtering (pos : row) :
  (closed_size (get pos "size") ->
   forall before after,
     normalize_bybit (before ++ pos :: after) = normalize_bybit (before ++ after))
  /\ (forall s t,
        open_size (get pos "size") ->
        get pos "symbol" = VStr s -> s <> "" ->
        updated_time pos = Ok t ->
        exists ev,
          exchange ev = "Bybit" /\ type ev = "realized_pnl"
          /\ symbol ev = VStr s /\ time ev = t
          /\ forall before after n1 n2,
               normalize_bybit_rows before = Ok n1 ->
               normalize_bybit_rows after = Ok n2 ->
               snd (normalize_bybit (before ++ pos :: after))
               = Ok (n1 ++ ev :: n2))
  /\ (forall positions norm,
        snd (normalize_bybit positions) = Ok norm ->
        (length norm <= length positions)%nat).
Proof.
  split; [|split].
  - intros Hclosed before after. unfold normalize_bybit.
    rewrite !normalize_bybit_rows_app. simpl.
    rewrite (closed_size_skipped _ Hclosed). simpl.
    destruct (normalize_bybit_rows before) as [n1|x]; simpl; [|reflexivity].
    destruct (normalize_bybit_rows after) as [n2|x]; reflexivity.
  - intros s t Hsize Hsym Hne Htime.
    destruct (normalize_bybit_position_open pos s t Hsize Hsym Hne Htime)
      as [amt Hpos].
    exists {| exchange := "Bybit"; symbol := VStr s;
              asset := VStr (replace "USDC" "" (replace "USDT" "" s));
              amount := amt; time := t; type := "realized_pnl" |}.
    do 4 (split; [reflexivity|]).
    intros before after n1 n2 H1 H2. unfold normalize_bybit.
    rewrite normalize_bybit_rows_app. simpl.
    rewrite H1, Hpos, H2. reflexivity.
  - intros positions norm. unfold normalize_bybit.
    destruct (normalize_bybit_rows positions) as [n|x] eqn:Hrows; simpl;
      [|discriminate].
    intros H. injection H as <-. eapply normalize_bybit_rows_length, Hrows.
Qed.

Lemma closed_position_filtering_witness :
  normalize_bybit (three_positions ++ position "0" "XRPUSDC" "7" "1" :: [])
  = normalize_bybit (three_positions ++ [])
  /\ (exists ev,
        symbol ev = VStr "BTCUSDC" /\ time ev = 1762732800001
        /\ snd (normalize_bybit [position "0.5" "BTCUSDC" "12.5" "1762732800001"])
           = Ok [ev])
  /\ (exists norm,
        snd (normalize_bybit three_positions) = Ok norm
        /\ (length norm <= length three_positions)%nat).
Proof.
  split; [|split].
  - apply (proj1 (closed_position_filtering (position "0" "XRPUSDC" "7" "1"))).
    right. left. reflexivity.
  - destruct (proj1 (proj2 (closed_position_filtering
                 (position "0.5" "BTCUSDC" "12.5" "1762732800001")))
               "BTCUSDC" 1762732800001) as (ev & _ & _ & Hsym & Htime & Hrows).
    + unfold open_size. split; [reflexivity | split; discriminate].
    + reflexivity.
    + discriminate.
    + reflexivity.
    + exists ev. split; [exact Hsym|]. split; [exact Htime|].
      exact (Hrows [] [] [] [] eq_refl eq_refl).
  - eexists. split; [reflexivity|].
    apply (proj2 (proj2 (closed_position_filtering sized_only)) three_positions).
    reflexivity.
Defined.

(** ** The asset of a Bybit symbol *)

Lemma starts_with_refl (p : string) : starts_with p p = true.
Proof.
  induction p as [|c p IH]; simpl; [reflexivity|].
  rewrite Ascii.eqb_refl. exact IH.
Qed.

Lemma replace_from_skip (old new : string) (s : string) (k : nat) :
  (String.length s <= k)%nat -> replace_from old new k s = "".
Proof.
  revert k. induction s as [|c s IH]; intros k Hk; simpl; [reflexivity|].
  destruct k as [|k]; simpl in Hk; [lia|].
  apply IH. lia.
Qed.

Lemma contains_tail (p : string) (c : ascii) (s : string) :
  contains p (String c s) = false ->
  starts_with p (String c s) = false /\ contains p s = false.
Proof.
  intros H. cbn [contains] in H. apply orb_false_iff in H. exact H.
Qed.

(** A text in which [old] does not occur is left as it is. *)
Lemma replace_absent (old new s : string) :
  contains old s = false -> replace old new s = s.
Proof.
  unfold replace. induction s as [|c s IH]; intros H; [reflexivity|].
  apply contains_tail in H as [Hhead Htail].
  cbn [replace_from]. rewrite Hhead, (IH Htail). reflexivity.
Qed.

(** The two settlement currencies do not overlap with themselves or with
    each other: a match that starts before a suffix does not reach into
    it. *)
Ltac crossing :=
  let c1 := fresh "c" in let c2 := fresh "c" in
  let c3 := fresh "c" in let c4 := fresh "c" in
  intros [|c1 [|c2 [|c3 [|c4 ?]]]] H; simpl in *;
  repeat match goal with
         | |- context [Ascii.eqb ?a ?b] =>
             destruct (Ascii.eqb a b); simpl in *
         end;
  solve [reflexivity | assumption | discriminate].

Lemma no_crossing_USDT_USDT (c : ascii) (t : string) :
  starts_with "USDT" (String c t) = false ->
  starts_with "USDT" (String c t +:+ "USDT") = false.
Proof. revert t. crossing. Qed.

Lemma no_crossing_USDT_USDC (c : ascii) (t : string) :
  starts_with "USDT" (String c t) = false ->
  starts_with "USDT" (String c t +:+ "USDC") = false.
Proof. revert t. crossing. Qed.

Lemma no_crossing_USDC_USDC (c : ascii) (t : string) :
  starts_with "USDC" (String c t) = false ->
  starts_with "USDC" (String c t +:+ "USDC") = false.
Proof. revert t. crossing. Qed.

(** [old] does not occur in [base ++ suffix] when it occurs in neither
    and no match reaches from [base] into [suffix]. *)
Lemma contains_append (old suffix base : string) :
  (forall c t, starts_with old (String c t) = false ->
               starts_with old (String c t +:+ suffix) = false) ->
  contains old suffix = false ->
  contains old base = false ->
  contains old (base +:+ suffix) = false.
Proof.
  intros Hcross Hsuffix. induction base as [|c base IH]; intros H.
  - exact Hsuffix.
  - apply contains_tail in H as [Hhead Htail].
    change (String c base +:+ suffix) with (String c (base +:+ suffix)).
    cbn [contains]. apply orb_false_iff. split.
    + exact (Hcross c base Hhead).
    + exact (IH Htail).
Qed.

(** A suffix [old] that occurs nowhere else is all that [replace] takes
    away. *)
Lemma replace_suffix (old base : string) :
  old <> "" ->
  (forall c t, starts_with old (String c t) = false ->
               starts_with old (String c t +:+ old) = false) ->
  contains old base = false ->
  replace old "" (base +:+ old) = base.
Proof.
  intros Hold Hcross. unfold replace. induction base as [|c base IH]; intros H.
  - destruct old as [|c old]; [congruence|].
    change ("" +:+ String c old) with (String c old).
    cbn [replace_from]. rewrite starts_with_refl.
    rewrite replace_from_skip; [reflexivity|]. simpl. lia.
  - apply contains_tail in H as [Hhead Htail].
    change (String c base +:+ old) with (String c (base +:+ old)).
    cbn [replace_from].
    change (String c (base +:+ old)) with (String c base +:+ old).
    rewrite (Hcross c base Hhead), (IH Htail). reflexivity.
Qed.

(** The asset of a symbol that is a base followed by one settlement
    currency, the base holding none, is the base. *)
Lemma asset_of_suffixed_symbol (base : string) :
  contains "USDT" base = false -> contains "USDC" base = false ->
  replace "USDC" "" (replace "USDT" "" (base +:+ "USDT")) = base
  /\ replace "USDC" "" (replace "USDT" "" (base +:+ "USDC")) = base.
Proof.
  intros HT HC. split.
  - rewrite (replace_suffix "USDT" base); [|discriminate| |exact HT].
    + apply replace_absent, HC.
    + apply no_crossing_USDT_USDT.
  - rewrite (replace_absent "USDT").
    + apply replace_suffix; [discriminate| |exact HC].
      apply no_crossing_USDC_USDC.
    + apply contains_append; [|reflexivity|exact HT].
      apply no_crossing_USDT_USDC.
Qed.

(** *** Stripping a suffix *)

Lemma length_append (a b : string) :
  String.length (a +:+ b) = (String.length a + String.length b)%nat.
Proof.
  induction a as [|c a IH]; simpl; [reflexivity|]. rewrite IH. reflexivity.
Qed.

Lemma append_nil (s : string) : "" +:+ s = s.
Proof. reflexivity. Qed.

Lemma append_cons (c : ascii) (a b : string) :
  String c a +:+ b = String c (a +:+ b).
Proof. reflexivity. Qed.

Lemma append_same_length (a b x y : string) :
  a +:+ x = b +:+ y -> String.length x = String.length y -> a = b /\ x = y.
Proof.
  revert b. induction a as [|c a IH]; intros [|d b] H Hlen;
    rewrite ?append_nil, ?append_cons in H.
  - split; [reflexivity|exact H].
  - apply (f_equal String.length) in H. simpl in H.
    rewrite (length_append b y) in H. lia.
  - apply (f_equal String.length) in H. simpl in H.
    rewrite (length_append a x) in H. lia.
  - injection H as -> H. destruct (IH b H Hlen) as [-> ->]. split; reflexivity.
Qed.

Lemma strip_suffix_append (suffix base : string) :
  strip_suffix suffix (base +:+ suffix) = Some base.
Proof.
  induction base as [|c base IH].
  - rewrite append_nil. destruct suffix; cbn [strip_suffix];
      rewrite String.eqb_refl; reflexivity.
  - rewrite append_cons. cbn [strip_suffix].
    destruct (String.eqb (String c (base +:+ suffix)) suffix) eqn:E.
    + apply String.eqb_eq in E. apply (f_equal String.length) in E.
      simpl in E. rewrite (length_append base suffix) in E. lia.
    + rewrite IH. reflexivity.
Qed.

Lemma strip_suffix_sound (suffix s base : string) :
  strip_suffix suffix s = Some base -> s = base +:+ suffix.
Proof.
  revert base. induction s as [|c s IH]; intros base H.
  - cbn [strip_suffix] in H. destruct (String.eqb "" suffix) eqn:E; [|discriminate].
    apply String.eqb_eq in E. injection H as <-. exact E.
  - cbn [strip_suffix] in H.
    destruct (String.eqb (String c s) suffix) eqn:E.
    + apply String.eqb_eq in E. injection H as <-. exact E.
    + destruct (strip_suffix suffix s) as [b|]; [|discriminate].
      injection H as <-. rewrite (IH b eq_refl). reflexivity.
Qed.

Lemma strip_settlement_suffix_append (base : string) :
  strip_settlement_suffix (base +:+ "USDT") = base
  /\ strip_settlement_suffix (base +:+ "USDC") = base.
Proof.
  unfold strip_settlement_suffix. split.
  - rewrite strip_suffix_append. reflexivity.
  - destruct (strip_suffix "USDT" (base +:+ "USDC")) as [b|] eqn:E.
    + apply strip_suffix_sound in E.
      apply append_same_length in E as [_ E]; [discriminate E|reflexivity].
    + rewrite strip_suffix_append. reflexivity.
Qed.

(** C8, as stated, fails on a symbol that holds a settlement currency
    elsewhere than at its end: the normaliser takes it out of the middle,
    where stripping a suffix leaves the symbol as it is. *)
Lemma asset_is_not_suffix_stripping :
  strip_settlement_suffix "BTCUSDT-26DEC25" = "BTCUSDT-26DEC25"
  /\ exists ev,
       snd (normalize_bybit [dated_contract]) = Ok [ev]
       /\ symbol ev = VStr "BTCUSDT-26DEC25"
       /\ asset ev = VStr "BTC-26DEC25"
       /\ asset ev <> VStr (strip_settlement_suffix "BTCUSDT-26DEC25").
Proof.
  split; [reflexivity|].
  eexists. split; [reflexivity|]. simpl.
  split; [reflexivity|]. split; [reflexivity|]. discriminate.
Qed.

(** C8, amended.  A position that passes the size filter and has a
    non-empty string as its symbol gives one event when its [updatedTime]
    is absent, empty or an integer, and makes the normaliser raise, with
    no event, when it is not.  The asset of the event is the symbol with
    every occurrence of ["USDT"] removed and then every occurrence of
    ["USDC"] removed.  For a symbol made of a base and one of the two
    currencies as its suffix, the base holding neither, that is the base:
    there the normaliser strips the suffix. *)
Theorem bybit_asset_from_symbol (pos : row) (s : string) :
  open_size (get pos "size") ->
  get pos "symbol" = VStr s -> s <> "" ->
  match updated_time pos with
  | Ok t =>
      exists ev,
        snd (normalize_bybit [pos]) = Ok [ev]
        /\ symbol ev = VStr s
        /\ time ev = t
        /\ asset ev = VStr (replace "USDC" "" (replace "USDT" "" s))
        /\ forall base,
             contains "USDT" base = false -> contains "USDC" base = false ->
             s = base +:+ "USDT" \/ s = base +:+ "USDC" ->
             asset ev = VStr base /\ strip_settlement_suffix s = base
  | Raise e => normalize_bybit [pos] = ([], Raise e)
  end.
Proof.
  intros Hsize Hsym Hne.
  destruct (updated_time pos) as [t|e] eqn:Htime.
  - destruct (normalize_bybit_position_open pos s t Hsize Hsym Hne Htime)
      as [amt Hpos].
    eexists. split.
    { unfold normalize_bybit. simpl. rewrite Hpos. reflexivity. }
    split; [reflexivity|]. split; [reflexivity|]. split; [reflexivity|].
    intros base HT HC Hs. cbn [asset].
    destruct (asset_of_suffixed_symbol base HT HC) as [H1 H2].
    destruct Hs as [-> | ->].
    + rewrite H1. split; [reflexivity|]. apply strip_settlement_suffix_append.
    + rewrite H2. split; [reflexivity|]. apply strip_settlement_suffix_append.
  - unfold normalize_bybit. cbn [normalize_bybit_rows].
    unfold normalize_bybit_position.
    rewrite (open_size_passes _ Hsize), Hsym, (nonempty_truthy _ Hne).
    cbn [negb asset_of_symbol bind].
    unfold updated_time in Htime. rewrite Htime. reflexivity.
Qed.

Lemma bybit_asset_from_symbol_witness :
  (exists ev,
     snd (normalize_bybit [position "0.5" "BTCUSDT" "12.5" "1762732800001"])
     = Ok [ev]
     /\ symbol ev = VStr "BTCUSDT" /\ asset ev = VStr "BTC"
     /\ time ev = 1762732800001)
  /\ normalize_bybit [position "0.5" "BTCUSDT" "12.5" "yesterday"]
     = ([], Raise ValueError).
Proof.
  assert (Hopen : open_size (VStr "0.5"))
    by (unfold open_size; split; [reflexivity | split; discriminate]).
  split.
  - pose proof (bybit_asset_from_symbol
                  (position "0.5" "BTCUSDT" "12.5" "1762732800001")
                  "BTCUSDT" Hopen eq_refl ltac:(discriminate)) as H.
    change (updated_time (position "0.5" "BTCUSDT" "12.5" "1762732800001"))
      with (@Ok Z 1762732800001) in H.
    destruct H as (ev & Hrun & Hsym & Htime & _ & Hbase).
    exists ev. split; [exact Hrun|]. split; [exact Hsym|].
    split; [|exact Htime].
    apply (Hbase "BTC"); [reflexivity | reflexivity | left; reflexivity].
  - exact (bybit_asset_from_symbol
             (position "0.5" "BTCUSDT" "12.5" "yesterday")
             "BTCUSDT" Hopen eq_refl ltac:(discriminate)).
Defined.

(** ** The paginated fetch *)

Lemma funding_loop_short (fuel : nat) (cfg : Config) (server : BinanceServer)
    (n : nat) (params : IncomeParams) (sent : list IncomeParams)
    (all_rows page : list row) :
  missing (BINANCE_API_KEY cfg) || missing (BINANCE_API_SECRET cfg) = false ->
  server n "/fapi/v1/income" params = Ok page ->
  Z.of_nat (length page) < limit params ->
  funding_loop (S fuel) cfg server n params sent all_rows
  = Some (sent ++ [params], Ok (all_rows ++ page)).
Proof.
  intros Hkeys Hpage Hshort. cbn [funding_loop].
  unfold binance_signed_request. rewrite Hkeys, Hpage.
  destruct page as [|r page].
  - rewrite app_nil_r. reflexivity.
  - apply Z.ltb_lt in Hshort. rewrite Hshort. reflexivity.
Qed.

Lemma funding_loop_full (fuel : nat) (cfg : Config) (server : BinanceServer)
    (n : nat) (params : IncomeParams) (sent : list IncomeParams)
    (all_rows page : list row) (t : Z) :
  missing (BINANCE_API_KEY cfg) || missing (BINANCE_API_SECRET cfg) = false ->
  0 < limit params ->
  server n "/fapi/v1/income" params = Ok page ->
  limit params <= Z.of_nat (length page) ->
  last_time page = Ok t ->
  funding_loop (S fuel) cfg server n params sent all_rows
  = funding_loop fuel cfg server (S n)
      {| incomeType := incomeType params; limit := limit params;
         startTime := Some (t + 1) |}
      (sent ++ [params]) (all_rows ++ page).
Proof.
  intros Hkeys Hlimit Hpage Hfull Hlast. cbn [funding_loop].
  unfold binance_signed_request. rewrite Hkeys, Hpage.
  destruct page as [|r page]; [simpl in Hfull; lia|].
  apply Z.ltb_ge in Hfull. rewrite Hfull, Hlast. reflexivity.
Qed.

Lemma funding_loop_serves (cfg : Config) (server : BinanceServer)
    (n : nat) (params : IncomeParams) (pages : list (list row)) :
  missing (BINANCE_API_KEY cfg) || missing (BINANCE_API_SECRET cfg) = false ->
  0 < limit params ->
  serves server n params pages ->
  forall fuel sent all_rows,
    (length pages <= fuel)%nat ->
    exists asked,
      funding_loop fuel cfg server n params sent all_rows
      = Some (sent ++ asked, Ok (all_rows ++ concat pages))
      /\ length asked = length pages
      /\ map startTime asked
         = startTime params :: map next_start (removelast pages).
Proof.
  intros Hkeys Hlimit Hserves.
  induction Hserves as [n params page Hpage Hshort
                       | n params page t pages Hpage Hfull Hlast Hrest IH];
    intros fuel sent all_rows Hfuel.
  - destruct fuel as [|fuel]; [simpl in Hfuel; lia|].
    exists [params]. simpl. rewrite app_nil_r.
    split; [|split; reflexivity].
    apply funding_loop_short; assumption.
  - destruct fuel as [|fuel]; [simpl in Hfuel; lia|].
    rewrite (funding_loop_full _ _ _ _ _ _ _ _ t Hkeys Hlimit Hpage Hfull Hlast).
    destruct (IH Hlimit fuel (sent ++ [params]) (all_rows ++ page))
      as (asked & Hrun & Hlen & Hstarts).
    { simpl in Hfuel. lia. }
    exists (params :: asked). split; [|split].
    + rewrite Hrun. rewrite <- !app_assoc. reflexivity.
    + simpl. rewrite Hlen. reflexivity.
    + cbn [map]. rewrite Hstarts. cbn [startTime].
      destruct pages as [|p pages]; [inversion Hrest|].
      cbn [removelast map]. unfold next_start at 2. rewrite Hlast. reflexivity.
Qed.

(** Conversely, a fetch that returns has been served this way: full pages
    and then a short one. *)
Lemma funding_loop_returns (fuel : nat) (cfg : Config) (server : BinanceServer)
    (n : nat) (params : IncomeParams) (sent sent' : list IncomeParams)
    (all_rows rows : list row) :
  missing (BINANCE_API_KEY cfg) || missing (BINANCE_API_SECRET cfg) = false ->
  0 < limit params ->
  funding_loop fuel cfg server n params sent all_rows = Some (sent', Ok rows) ->
  exists pages,
    serves server n params pages
    /\ rows = all_rows ++ concat pages
    /\ (length pages <= fuel)%nat.
Proof.
  intros Hkeys. revert n params sent all_rows.
  induction fuel as [|fuel IH]; intros n params sent all_rows Hlimit Hrun;
    [discriminate|].
  cbn [funding_loop] in Hrun. unfold binance_signed_request in Hrun.
  rewrite Hkeys in Hrun.
  destruct (server n "/fapi/v1/income" params) as [data|e] eqn:Hdata;
    [|discriminate].
  destruct data as [|r data].
  - injection Hrun as _ <-. exists [[]]. split; [|split].
    + apply serves_last; [exact Hdata|simpl; lia].
    + simpl. rewrite app_nil_r. reflexivity.
    + simpl. lia.
  - destruct (Z.ltb_spec (Z.of_nat (length (r :: data))) (limit params))
      as [Hshort|Hfull].
    + injection Hrun as _ <-. exists [r :: data]. split; [|split].
      * apply serves_last; assumption.
      * simpl. rewrite app_nil_r. reflexivity.
      * simpl. lia.
    + destruct (last_time (r :: data)) as [t|e] eqn:Hlast; [|discriminate].
      apply IH in Hrun as (pages & Hserves & -> & Hlen); [|exact Hlimit].
      exists ((r :: data) :: pages). split; [|split].
      * eapply serves_next; eassumption.
      * simpl. rewrite <- app_assoc. reflexivity.
      * simpl. lia.
Qed.

Lemma get_binance_funding_returns (fuel : nat) (cfg : Config)
    (server : BinanceServer) (start_ms : option Z) (sent : list IncomeParams)
    (rows : list row) :
  missing (BINANCE_API_KEY cfg) || missing (BINANCE_API_SECRET cfg) = false ->
  get_binance_funding fuel cfg server start_ms = Some (sent, Ok rows) ->
  exists pages,
    serves server 0
      {| incomeType := "FUNDING_FEE"; limit := 1000; startTime := start_ms |}
      pages
    /\ rows = concat pages.
Proof.
  intros Hkeys Hrun. unfold get_binance_funding in Hrun.
  apply funding_loop_returns in Hrun as (pages & Hserves & -> & _);
    [|exact Hkeys|reflexivity].
  exists pages. split; [exact Hserves|reflexivity].
Qed.

Lemma full_page_facts :
  Z.of_nat (length full_page) = 1000 /\ last_time full_page = Ok 999.
Proof. split; vm_compute; reflexivity. Qed.

Lemma funding_loop_endless (fuel : nat) (n : nat) (params : IncomeParams)
    (sent : list IncomeParams) (all_rows : list row) :
  limit params = 1000 ->
  funding_loop fuel both_keys endless_server n params sent all_rows = None.
Proof.
  revert n params sent all_rows.
  induction fuel as [|fuel IH]; intros n params sent all_rows Hlimit;
    [reflexivity|].
  destruct full_page_facts as [Hlen Hlast].
  rewrite (funding_loop_full fuel both_keys endless_server n params sent
             all_rows full_page 999); try reflexivity; try assumption; try lia.
  apply IH. exact Hlimit.
Qed.

(** C1, as stated, fails on a source that answers every request with a full
    page of 1000 records: no request exceeds the limit, and the loop never
    ends. *)
Lemma full_pages_never_end :
  (forall n endpoint params,
     exists page,
       endless_server n endpoint params = Ok page
       /\ (length page <= 1000)%nat)
  /\ ~ (exists fuel out,
          get_binance_funding fuel both_keys endless_server (Some 0) = Some out).
Proof.
  split.
  - intros n endpoint params. exists full_page. split; [reflexivity|].
    pose proof (proj1 full_page_facts). lia.
  - intros (fuel & out & H). unfold get_binance_funding in H.
    rewrite funding_loop_endless in H by reflexivity. discriminate H.
Qed.

(** C1, amended.  When the source answers the requests of the fetch with
    full pages and then with a page of fewer than 1000 records, the fetch
    ends: it has sent one request per page, the first with the caller's
    [startTime] and each further one with the time of the last record of
    the page before plus one, and it returns the pages one after the other
    (an empty last page adds nothing). *)
Theorem exhaustive_fetch (cfg : Config) (server : BinanceServer)
    (start_ms : option Z) (pages : list (list row)) (fuel : nat) :
  missing (BINANCE_API_KEY cfg) || missing (BINANCE_API_SECRET cfg) = false ->
  serves server 0
    {| incomeType := "FUNDING_FEE"; limit := 1000; startTime := start_ms |}
    pages ->
  (length pages <= fuel)%nat ->
  exists sent,
    get_binance_funding fuel cfg server start_ms = Some (sent, Ok (concat pages))
    /\ length sent = length pages
    /\ map startTime sent = start_ms :: map next_start (removelast pages).
Proof.
  intros Hkeys Hserves Hfuel. unfold get_binance_funding.
  destruct (funding_loop_serves cfg server 0
              {| incomeType := "FUNDING_FEE"; limit := 1000;
                 startTime := start_ms |}
              pages Hkeys eq_refl Hserves fuel [] [] Hfuel)
    as (asked & Hrun & Hlen & Hstarts).
  exists asked. split; [exact Hrun|]. split; assumption.
Qed.

Lemma exhaustive_fetch_witness :
  exists sent rows,
    get_binance_funding 3 both_keys (ledger_server (payments start_ms 2400))
      (Some start_ms) = Some (sent, Ok rows)
    /\ length rows = 2400%nat
    /\ length sent = 3%nat
    /\ map startTime sent
       = [Some start_ms; Some (start_ms + 1000); Some (start_ms + 2000)].
Proof.
  destruct (exhaustive_fetch both_keys (ledger_server (payments start_ms 2400))
              (Some start_ms)
              [payments start_ms 1000; payments (start_ms + 1000) 1000;
               payments (start_ms + 2000) 400] 3)
    as (sent & Hrun & Hlen & Hstarts).
  - reflexivity.
  - apply (serves_next _ _ _ _ (start_ms + 999));
      [vm_cast_no_check (@eq_refl (outcome (list row)) (Ok (payments start_ms 1000)))
      | vm_compute; discriminate
      | vm_compute; reflexivity |].
    apply (serves_next _ _ _ _ (start_ms + 1999));
      [vm_cast_no_check
         (@eq_refl (outcome (list row)) (Ok (payments (start_ms + 1000) 1000)))
      | vm_compute; discriminate
      | vm_compute; reflexivity |].
    apply serves_last;
      [vm_cast_no_check
         (@eq_refl (outcome (list row)) (Ok (payments (start_ms + 2000) 400)))
      | vm_compute; reflexivity].
  - simpl. lia.
  - exists sent, (concat [payments start_ms 1000; payments (start_ms + 1000) 1000;
                          payments (start_ms + 2000) 400]).
    split; [exact Hrun|]. split; [vm_compute; reflexivity|].
    split; [exact Hlen|]. rewrite Hstarts. vm_compute. reflexivity.
Defined.

(** ** The aggregation *)

Lemma canonical_key_of (r : Event) :
  canonical r = true -> canonical_key (key_of r) = true.
Proof.
  unfold canonical, canonical_key, key_of.
  destruct (symbol r); try discriminate.
  destruct (asset r); try discriminate. reflexivity.
Qed.

Lemma canonical_amount (r : Event) :
  canonical r = true -> Dec.is_finite (amount r) = true.
Proof.
  unfold canonical. destruct (symbol r); try discriminate.
  destruct (asset r); try discriminate. intros H. exact H.
Qed.

Lemma key_eqb_eq (k1 k2 : Key) :
  canonical_key k1 = true -> canonical_key k2 = true ->
  key_eqb k1 k2 = true <-> k1 = k2.
Proof.
  destruct k1 as [[[e1 s1] a1] t1], k2 as [[[e2 s2] a2] t2].
  destruct s1; try discriminate. destruct a1; try discriminate.
  destruct s2; try discriminate. destruct a2; try discriminate.
  intros _ _. simpl. rewrite !andb_true_iff, !String.eqb_eq.
  split.
  - intros [[[-> ->] ->] ->]. reflexivity.
  - intros H. injection H as -> -> -> ->. repeat split.
Qed.

Lemma key_eqb_refl (k : Key) : canonical_key k = true -> key_eqb k k = true.
Proof. intros H. apply key_eqb_eq; [exact H | exact H | reflexivity]. Qed.

Lemma key_eqb_neq (k1 k2 : Key) :
  canonical_key k1 = true -> canonical_key k2 = true ->
  k1 <> k2 -> key_eqb k1 k2 = false.
Proof.
  intros H1 H2 Hne. destruct (key_eqb k1 k2) eqn:E; [|reflexivity].
  apply key_eqb_eq in E; [contradiction | exact H1 | exact H2].
Qed.

(** *** The dict *)

Lemma dict_get_None (by_key : ByKey) (key : Key) :
  dict_get by_key key = None -> other_keys key by_key.
Proof.
  induction by_key as [|[k d] rest IH]; intros H; [constructor|].
  simpl in H. destruct (key_eqb k key) eqn:E; [discriminate|].
  constructor; [exact E | exact (IH H)].
Qed.

Lemma dict_get_Some (by_key : ByKey) (key : Key) (d : Summary.t) :
  dict_get by_key key = Some d ->
  exists l1 k l2,
    by_key = l1 ++ (k, d) :: l2 /\ key_eqb k key = true /\ other_keys key l1.
Proof.
  induction by_key as [|[k d0] rest IH]; intros H; [discriminate|].
  simpl in H. destruct (key_eqb k key) eqn:E.
  - injection H as ->. exists [], k, rest. repeat split; [exact E | constructor].
  - destruct (IH H) as (l1 & k' & l2 & -> & Hk & Hl1).
    exists ((k, d0) :: l1), k', l2. repeat split; [exact Hk|].
    constructor; [exact E | exact Hl1].
Qed.

Lemma dict_get_found (l1 l2 : ByKey) (k key : Key) (d : Summary.t) :
  other_keys key l1 -> key_eqb k key = true ->
  dict_get (l1 ++ (k, d) :: l2) key = Some d.
Proof.
  intros Hl1 Hk. induction Hl1 as [|[k0 d0] l1 E _ IH]; simpl.
  - rewrite Hk. reflexivity.
  - simpl in E. rewrite E. exact IH.
Qed.

Lemma dict_set_found (l1 l2 : ByKey) (k key : Key) (d d' : Summary.t) :
  other_keys key l1 -> key_eqb k key = true ->
  dict_set (l1 ++ (k, d) :: l2) key d' = l1 ++ (k, d') :: l2.
Proof.
  intros Hl1 Hk. induction Hl1 as [|[k0 d0] l1 E _ IH]; simpl.
  - rewrite Hk. reflexivity.
  - simpl in E. rewrite E, IH. reflexivity.
Qed.

Lemma dict_set_new (by_key : ByKey) (key : Key) (d : Summary.t) :
  other_keys key by_key -> dict_set by_key key d = by_key ++ [(key, d)].
Proof.
  intros H. induction H as [|[k0 d0] l1 E _ IH]; simpl; [reflexivity|].
  simpl in E. rewrite E, IH. reflexivity.
Qed.

(** *** Sums of finite decimals *)

Lemma fix_finite (s : bool) (c : N) (e : Z) (d : Dec.Decimal) :
  Dec.fix_ (Dec.Fin s c e) = Ok d -> Dec.is_finite d = true.
Proof.
  unfold Dec.fix_.
  repeat match goal with
         | |- context [if ?b then _ else _] => destruct b
         end;
    intros H; try discriminate H; injection H as <-; reflexivity.
Qed.

Lemma rescale_finite (d : Dec.Decimal) (e : Z) :
  Dec.is_finite d = true ->
  exists s c, Dec.rescale d e = Dec.Fin s c e.
Proof.
  destruct d as [s c e0| |]; try discriminate. intros _. unfold Dec.rescale.
  repeat match goal with
         | |- context [if ?b then _ else _] => destruct b
         end; eexists _, _; reflexivity.
Qed.

(** A sum of two finite decimals that does not overflow is finite. *)
Lemma add_finite (a b c : Dec.Decimal) :
  Dec.is_finite a = true -> Dec.is_finite b = true ->
  Dec.add a b = Ok c -> Dec.is_finite c = true.
Proof.
  destruct a as [s1 c1 e1| |]; try discriminate.
  destruct b as [s2 c2 e2| |]; try discriminate.
  intros _ _. unfold Dec.add.
  destruct ((c1 =? 0)%N && (c2 =? 0)%N); [apply fix_finite|].
  destruct (c1 =? 0)%N.
  { destruct (rescale_finite (Dec.Fin s2 c2 e2)
                (Z.max (Z.min e1 e2) (e2 - Dec.prec - 1)) eq_refl) as (s & c0 & ->).
    apply fix_finite. }
  destruct (c2 =? 0)%N.
  { destruct (rescale_finite (Dec.Fin s1 c1 e1)
                (Z.max (Z.min e1 e2) (e1 - Dec.prec - 1)) eq_refl) as (s & c0 & ->).
    apply fix_finite. }
  destruct (Dec.normalize c1 e1 c2 e2) as [[i1 i2] en].
  repeat match goal with
         | |- context [if ?b then _ else _] => destruct b
         end; apply fix_finite.
Qed.

Lemma dec_sum_from_app (acc : Dec.Decimal) (l1 l2 : list Dec.Decimal) :
  dec_sum_from acc (l1 ++ l2)
  = (a <- dec_sum_from acc l1 ;; dec_sum_from a l2).
Proof.
  revert acc. induction l1 as [|d l1 IH]; intros acc; simpl; [reflexivity|].
  destruct (Dec.add acc d) as [a|x]; simpl; [apply IH | reflexivity].
Qed.

Lemma dec_sum_prefix (l1 l2 : list Dec.Decimal) (t : Dec.Decimal) :
  dec_sum (l1 ++ l2) = Ok t -> exists t1, dec_sum l1 = Ok t1.
Proof.
  unfold dec_sum. rewrite dec_sum_from_app.
  destruct (dec_sum_from Dec.zero l1) as [t1|x]; [|discriminate].
  intros _. exists t1. reflexivity.
Qed.

Lemma dec_sum_snoc (l : list Dec.Decimal) (d total : Dec.Decimal) :
  dec_sum l = Ok total -> dec_sum (l ++ [d]) = Dec.add total d.
Proof.
  intros H. unfold dec_sum in *. rewrite dec_sum_from_app, H. simpl.
  destruct (Dec.add total d); reflexivity.
Qed.

(** *** Least and greatest time *)

Lemma is_min_single (t : Z) : is_min (Z.min t t) [t].
Proof.
  rewrite Z.min_id. split; [left; reflexivity|].
  intros t' [<-|[]]. lia.
Qed.

Lemma is_max_single (t : Z) : is_max (Z.max t t) [t].
Proof.
  rewrite Z.max_id. split; [left; reflexivity|].
  intros t' [<-|[]]. lia.
Qed.

Lemma is_min_snoc (m t : Z) (l : list Z) :
  is_min m l -> is_min (Z.min m t) (l ++ [t]).
Proof.
  intros [Hin Hle]. split.
  - apply in_or_app. destruct (Z.min_spec m t) as [[_ ->]|[_ ->]];
      [left; exact Hin | right; left; reflexivity].
  - intros t' Ht'. apply in_app_or in Ht' as [Ht'|[<-|[]]];
      [specialize (Hle t' Ht')|]; lia.
Qed.

Lemma is_max_snoc (m t : Z) (l : list Z) :
  is_max m l -> is_max (Z.max m t) (l ++ [t]).
Proof.
  intros [Hin Hle]. split.
  - apply in_or_app. destruct (Z.max_spec m t) as [[_ ->]|[_ ->]];
      [right; left; reflexivity | left; exact Hin].
  - intros t' Ht'. apply in_app_or in Ht' as [Ht'|[<-|[]]];
      [specialize (Hle t' Ht')|]; lia.
Qed.

(** *** Groups *)

Lemma bucket_app (k : Key) (l1 l2 : list Event) :
  bucket k (l1 ++ l2) = bucket k l1 ++ bucket k l2.
Proof. apply List.filter_app. Qed.

Lemma bucket_snoc_same (k : Key) (rows : list Event) (r : Event) :
  key_eqb k (key_of r) = true -> bucket k (rows ++ [r]) = bucket k rows ++ [r].
Proof. intros H. rewrite bucket_app. unfold bucket at 2. simpl. rewrite H. reflexivity. Qed.

Lemma bucket_snoc_other (k : Key) (rows : list Event) (r : Event) :
  key_eqb k (key_of r) = false -> bucket k (rows ++ [r]) = bucket k rows.
Proof.
  intros H. rewrite bucket_app. unfold bucket at 2. simpl. rewrite H.
  apply app_nil_r.
Qed.

Lemma summarises_snoc (g : list Event) (r : Event) (d : Summary.t) (total : Dec.Decimal) :
  summarises g d ->
  Dec.add (Summary.total d) (amount r) = Ok total ->
  summarises (g ++ [r])
    {| Summary.total := total;
       Summary.first := Z.min (Summary.first d) (time r);
       Summary.last := Z.max (Summary.last d) (time r);
       Summary.count := Summary.count d + 1 |}.
Proof.
  intros (Hne & Hsum & Hcount & Hmin & Hmax) Hadd.
  unfold summarises. cbn [Summary.total Summary.first Summary.last Summary.count].
  rewrite !map_app. cbn [map]. split; [|split; [|split; [|split]]].
  - intros H. apply app_eq_nil in H as [_ H]. discriminate H.
  - rewrite (dec_sum_snoc _ _ _ Hsum). exact Hadd.
  - rewrite length_app, Hcount. simpl. lia.
  - apply is_min_snoc, Hmin.
  - apply is_max_snoc, Hmax.
Qed.

Lemma summarises_single (r : Event) (total : Dec.Decimal) :
  Dec.add Dec.zero (amount r) = Ok total ->
  summarises [r]
    {| Summary.total := total;
       Summary.first := Z.min (time r) (time r);
       Summary.last := Z.max (time r) (time r);
       Summary.count := 0 + 1 |}.
Proof.
  intros Hadd. unfold summarises.
  cbn [Summary.total Summary.first Summary.last Summary.count map].
  split; [discriminate|]. split; [|split; [reflexivity|split]].
  - unfold dec_sum. cbn [dec_sum_from]. rewrite Hadd. reflexivity.
  - apply is_min_single.
  - apply is_max_single.
Qed.

(** *** The loop over the rows *)

Lemma in_map_fst (by_key : ByKey) (k : Key) :
  In k (map fst by_key) -> exists d, In (k, d) by_key.
Proof.
  intros H. apply in_map_iff in H as ([k' d] & <- & H). exists d. exact H.
Qed.

Lemma other_keys_not_in (by_key : ByKey) (key : Key) :
  canonical_key key = true -> other_keys key by_key ->
  ~ In key (map fst by_key).
Proof.
  intros Hkey Hother Hin. apply in_map_fst in Hin as [d Hin].
  unfold other_keys in Hother. rewrite List.Forall_forall in Hother.
  specialize (Hother _ Hin). simpl in Hother.
  rewrite (key_eqb_refl _ Hkey) in Hother. discriminate.
Qed.

Lemma accumulate_existing (rows : list Event) (by_key : ByKey) (r : Event)
    (d : Summary.t) :
  aggregated rows by_key -> canonical r = true ->
  dict_get by_key (key_of r) = Some d ->
  (exists t, dec_sum (map amount (bucket (key_of r) (rows ++ [r]))) = Ok t) ->
  exists by_key', accumulate by_key r = Ok by_key' /\ aggregated (rows ++ [r]) by_key'.
Proof.
  intros (Hnodup & Hcover & Hentries) Hr Hget [total Hadd].
  pose proof (canonical_key_of r Hr) as Hkey.
  destruct (dict_get_Some _ _ _ Hget) as (l1 & k & l2 & -> & Hk & Hl1).
  destruct (Hentries k d) as (Hck & Hfin & Hsum);
    [apply in_or_app; right; left; reflexivity|].
  apply key_eqb_eq in Hk; [|exact Hck|exact Hkey]. subst k.
  rewrite (bucket_snoc_same _ _ _ (key_eqb_refl _ Hkey)), map_app in Hadd.
  cbn [map] in Hadd.
  rewrite (dec_sum_snoc _ _ _ (proj1 (proj2 Hsum))) in Hadd.
  pose proof (add_finite _ _ _ Hfin (canonical_amount r Hr) Hadd) as Htotal.
  unfold accumulate. rewrite Hget. cbv beta iota zeta.
  rewrite Hget, Hadd. cbn [bind].
  rewrite (dict_set_found l1 l2 _ _ d _ Hl1 (key_eqb_refl _ Hkey)).
  eexists. split; [reflexivity|].
  assert (Hkeys : forall d', map fst (l1 ++ (key_of r, d') :: l2)
                             = map fst (l1 ++ (key_of r, d) :: l2)).
  { intros d'. rewrite !map_app. reflexivity. }
  split; [|split].
  - rewrite Hkeys. exact Hnodup.
  - intros r0 Hr0. rewrite Hkeys. apply in_app_or in Hr0 as [Hr0|[<-|[]]].
    + apply Hcover, Hr0.
    + rewrite map_app. apply in_or_app. right. left. reflexivity.
  - intros k0 d0 Hin.
    assert (Hcases : (k0 = key_of r /\ d0 = {|
                         Summary.total := total;
                         Summary.first := Z.min (Summary.first d) (time r);
                         Summary.last := Z.max (Summary.last d) (time r);
                         Summary.count := Summary.count d + 1 |})
                     \/ (k0 <> key_of r /\ In (k0, d0) (l1 ++ (key_of r, d) :: l2))).
    { apply in_app_or in Hin as [Hin|[Hin|Hin]].
      - right. split; [|apply in_or_app; left; exact Hin].
        intros ->. rewrite map_app in Hnodup. cbn [map fst] in Hnodup.
        apply List.NoDup_remove_2 in Hnodup.
        apply Hnodup, in_or_app. left.
        apply (in_map fst) in Hin. exact Hin.
      - left. injection Hin as <- <-. split; reflexivity.
      - right. split; [|apply in_or_app; right; right; exact Hin].
        intros ->. rewrite map_app in Hnodup. cbn [map fst] in Hnodup.
        apply List.NoDup_remove_2 in Hnodup.
        apply Hnodup, in_or_app. right.
        apply (in_map fst) in Hin. exact Hin. }
    destruct Hcases as [[-> ->]|[Hne Hold]].
    + split; [exact Hkey|]. split; [exact Htotal|].
      rewrite (bucket_snoc_same _ _ _ (key_eqb_refl _ Hkey)).
      apply summarises_snoc; assumption.
    + destruct (Hentries k0 d0 Hold) as (Hck0 & Hfin0 & Hsum0).
      split; [exact Hck0|]. split; [exact Hfin0|].
      rewrite (bucket_snoc_other _ _ _ (key_eqb_neq _ _ Hck0 Hkey Hne)).
      exact Hsum0.
Qed.

Lemma accumulate_new (rows : list Event) (by_key : ByKey) (r : Event) :
  aggregated rows by_key -> canonical r = true ->
  dict_get by_key (key_of r) = None ->
  (exists t, dec_sum (map amount (bucket (key_of r) (rows ++ [r]))) = Ok t) ->
  exists by_key', accumulate by_key r = Ok by_key' /\ aggregated (rows ++ [r]) by_key'.
Proof.
  intros (Hnodup & Hcover & Hentries) Hr Hget [total Hadd].
  pose proof (canonical_key_of r Hr) as Hkey.
  pose proof (dict_get_None _ _ Hget) as Hother.
  pose proof (other_keys_not_in _ _ Hkey Hother) as Hfresh.
  assert (Hempty : bucket (key_of r) rows = []).
  { destruct (bucket (key_of r) rows) as [|r0 g] eqn:Hg; [reflexivity|].
    exfalso. apply Hfresh.
    assert (Hin : In r0 (bucket (key_of r) rows)) by (rewrite Hg; left; reflexivity).
    unfold bucket in Hin. apply List.filter_In in Hin as [Hin Heq].
    pose proof (Hcover r0 Hin) as Hcov.
    destruct (in_map_fst _ _ Hcov) as [d0 Hd0].
    destruct (Hentries _ _ Hd0) as (Hck0 & _ & _).
    apply key_eqb_eq in Heq; [|exact Hkey|exact Hck0].
    rewrite Heq. exact Hcov. }
  rewrite (bucket_snoc_same _ _ _ (key_eqb_refl _ Hkey)), Hempty in Hadd.
  unfold dec_sum in Hadd. cbn [app map dec_sum_from] in Hadd.
  destruct (Dec.add Dec.zero (amount r)) as [total'|x] eqn:Hadd';
    cbn [bind] in Hadd; [|discriminate Hadd].
  injection Hadd as ->. rename Hadd' into Hadd.
  pose proof (add_finite Dec.zero _ _ eq_refl (canonical_amount r Hr) Hadd) as Htotal.
  unfold accumulate. rewrite Hget. cbv beta iota zeta.
  rewrite (dict_set_new _ _ _ Hother).
  rewrite (dict_get_found by_key [] _ _ _ Hother (key_eqb_refl _ Hkey)).
  cbn [Summary.total]. rewrite Hadd. cbn [bind].
  rewrite (dict_set_found by_key [] _ _ _ _ Hother (key_eqb_refl _ Hkey)).
  eexists. split; [reflexivity|].
  split; [|split].
  - rewrite map_app. cbn [map fst]. apply List.NoDup_app.
    + exact Hnodup.
    + constructor; [intros []|constructor].
    + intros k Hk [<-|[]]. exact (Hfresh Hk).
  - intros r0 Hr0. rewrite map_app. apply in_or_app.
    apply in_app_or in Hr0 as [Hr0|[<-|[]]].
    + left. apply Hcover, Hr0.
    + right. left. reflexivity.
  - intros k0 d0 Hin. apply in_app_or in Hin as [Hin|[Hin|[]]].
    + destruct (Hentries k0 d0 Hin) as (Hck0 & Hfin0 & Hsum0).
      split; [exact Hck0|]. split; [exact Hfin0|].
      rewrite bucket_snoc_other; [exact Hsum0|].
      apply key_eqb_neq; [exact Hck0|exact Hkey|].
      intros ->. apply Hfresh. apply (in_map fst) in Hin. exact Hin.
    + injection Hin as <- <-. split; [exact Hkey|]. split; [exact Htotal|].
      rewrite (bucket_snoc_same _ _ _ (key_eqb_refl _ Hkey)), Hempty.
      apply summarises_single, Hadd.
Qed.

Lemma accumulate_spec (rows : list Event) (by_key : ByKey) (r : Event) :
  aggregated rows by_key -> canonical r = true ->
  (exists t, dec_sum (map amount (bucket (key_of r) (rows ++ [r]))) = Ok t) ->
  exists by_key', accumulate by_key r = Ok by_key' /\ aggregated (rows ++ [r]) by_key'.
Proof.
  intros Hagg Hr Hsum. destruct (dict_get by_key (key_of r)) as [d|] eqn:Hget.
  - eapply accumulate_existing; eassumption.
  - apply accumulate_new; assumption.
Qed.

Lemma summable_buckets_at (rows : list Event) (r : Event) :
  summable_buckets rows = true -> In r rows ->
  exists t, dec_sum (map amount (bucket (key_of r) rows)) = Ok t.
Proof.
  unfold summable_buckets. rewrite forallb_forall. intros H Hr.
  specialize (H r Hr).
  destruct (dec_sum (map amount (bucket (key_of r) rows))) as [t|x];
    [exists t; reflexivity|discriminate H].
Qed.

Lemma summable_buckets_prefix (rows : list Event) (r : Event) :
  summable_buckets (rows ++ [r]) = true -> summable_buckets rows = true.
Proof.
  intros H. unfold summable_buckets. apply forallb_forall. intros r0 Hr0.
  destruct (summable_buckets_at _ r0 H (in_or_app _ _ _ (or_introl Hr0)))
    as [t Ht].
  rewrite bucket_app, map_app in Ht.
  destruct (dec_sum_prefix _ _ _ Ht) as [t1 ->]. reflexivity.
Qed.

Lemma aggregate_from_app (by_key : ByKey) (l1 l2 : list Event) :
  aggregate_from by_key (l1 ++ l2)
  = (by_key' <- aggregate_from by_key l1 ;; aggregate_from by_key' l2).
Proof.
  revert by_key. induction l1 as [|r l1 IH]; intros by_key; simpl; [reflexivity|].
  destruct (accumulate by_key r) as [b|x]; simpl; [apply IH | reflexivity].
Qed.

Lemma aggregate_spec (rows : list Event) :
  forallb canonical rows = true -> summable_buckets rows = true ->
  exists by_key, aggregate rows = Ok by_key /\ aggregated rows by_key.
Proof.
  induction rows as [|r rows IH] using rev_ind; intros Hrows Hsums.
  - exists []. split; [reflexivity|]. split; [constructor|].
    split; [intros r []|intros k d []].
  - rewrite forallb_app in Hrows. apply andb_true_iff in Hrows as [Hrows Hr].
    simpl in Hr. rewrite andb_true_r in Hr.
    destruct (IH Hrows (summable_buckets_prefix _ _ Hsums)) as (by_key & Hrun & Hagg).
    destruct (accumulate_spec rows by_key r Hagg Hr)
      as (by_key' & Hstep & Hagg').
    { apply summable_buckets_at; [exact Hsums|].
      apply in_or_app. right. left. reflexivity. }
    exists by_key'. split; [|exact Hagg'].
    unfold aggregate in *. rewrite aggregate_from_app, Hrun. simpl.
    rewrite Hstep. reflexivity.
Qed.


(** ** The order of the summary *)

Lemma str_lt_irrefl (s : string) : ~ str_lt s s.
Proof. exact (StrictOrder_Irreflexive (R := String_as_OT.lt) s). Qed.

Lemma str_lt_trans (s t u : string) : str_lt s t -> str_lt t u -> str_lt s u.
Proof. exact (StrictOrder_Transitive (R := String_as_OT.lt) s t u). Qed.

Lemma str_lt_total (s t : string) : s <> t -> str_lt s t \/ str_lt t s.
Proof.
  intros Hne. destruct (String_as_OT.compare_spec s t) as [H|H|H].
  - contradiction.
  - left. exact H.
  - right. exact H.
Qed.

Lemma ltb_str_lt (s t : string) : String.ltb s t = true <-> str_lt s t.
Proof.
  unfold String.ltb, str_lt. destruct (String.compare s t); split;
    intros H; try reflexivity; discriminate H.
Qed.

Lemma key_before_irrefl (k : Key) : ~ key_before k k.
Proof.
  destruct k as [[[e s] a] t]. unfold key_before.
  destruct s as [| | |s]; try tauto. destruct a as [| | |a]; try tauto.
  pose proof (str_lt_irrefl e). pose proof (str_lt_irrefl s).
  pose proof (str_lt_irrefl a). pose proof (str_lt_irrefl t). tauto.
Qed.

Lemma key_before_trans (a b c : Key) :
  key_before a b -> key_before b c -> key_before a c.
Proof.
  destruct a as [[[e1 s1] a1] t1], b as [[[e2 s2] a2] t2], c as [[[e3 s3] a3] t3].
  unfold key_before.
  destruct s1 as [| | |s1]; try tauto. destruct a1 as [| | |a1]; try tauto.
  destruct s2 as [| | |s2]; try tauto. destruct a2 as [| | |a2]; try tauto.
  destruct s3 as [| | |s3]; try tauto. destruct a3 as [| | |a3]; try tauto.
  pose proof str_lt_trans.
  intuition (subst; eauto 10).
Qed.

Lemma key_before_total (a b : Key) :
  canonical_key a = true -> canonical_key b = true ->
  a <> b -> key_before a b \/ key_before b a.
Proof.
  destruct a as [[[e1 s1] a1] t1], b as [[[e2 s2] a2] t2].
  destruct s1 as [| | |s1]; try discriminate.
  destruct a1 as [| | |a1]; try discriminate.
  destruct s2 as [| | |s2]; try discriminate.
  destruct a2 as [| | |a2]; try discriminate.
  intros _ _ Hne. simpl.
  destruct (String.eqb_spec e1 e2) as [->|He];
    [|destruct (str_lt_total _ _ He); tauto].
  destruct (String.eqb_spec s1 s2) as [->|Hs];
    [|destruct (str_lt_total _ _ Hs); tauto].
  destruct (String.eqb_spec a1 a2) as [->|Ha];
    [|destruct (str_lt_total _ _ Ha); tauto].
  destruct (String.eqb_spec t1 t2) as [->|Ht];
    [congruence|destruct (str_lt_total _ _ Ht); tauto].
Qed.

(** On canonical keys the comparison of the sort is the lexicographic
    order. *)
Lemma key_lt_before (a b : Key) :
  canonical_key a = true -> canonical_key b = true -> a <> b ->
  exists c, key_lt a b = Some c /\ (c = true <-> key_before a b).
Proof.
  destruct a as [[[e1 s1] a1] t1], b as [[[e2 s2] a2] t2].
  destruct s1 as [| | |s1]; try discriminate.
  destruct a1 as [| | |a1]; try discriminate.
  destruct s2 as [| | |s2]; try discriminate.
  destruct a2 as [| | |a2]; try discriminate.
  intros _ _ Hne. unfold key_lt, key_before, py_eqb, py_ltb.
  pose proof str_lt_irrefl as Hirr.
  destruct (String.eqb_spec e1 e2) as [->|He]; cbn [negb].
  2:{ eexists. split; [reflexivity|]. rewrite ltb_str_lt. tauto. }
  destruct (String.eqb_spec s1 s2) as [->|Hs]; cbn [negb].
  2:{ eexists. split; [reflexivity|]. rewrite ltb_str_lt.
      specialize (Hirr e2). tauto. }
  destruct (String.eqb_spec a1 a2) as [->|Ha]; cbn [negb].
  2:{ eexists. split; [reflexivity|]. rewrite ltb_str_lt.
      pose proof (Hirr e2). pose proof (Hirr s2). tauto. }
  destruct (String.eqb_spec t1 t2) as [->|Ht]; cbn [negb]; [congruence|].
  eexists. split; [reflexivity|]. rewrite ltb_str_lt.
  pose proof (Hirr e2). pose proof (Hirr s2). pose proof (Hirr a2). tauto.
Qed.

Lemma key_ltb_before (a b : Key) :
  canonical_key a = true -> canonical_key b = true -> a <> b ->
  key_ltb a b = true <-> key_before a b.
Proof.
  intros Ha Hb Hne. unfold key_ltb.
  destruct (key_lt_before a b Ha Hb Hne) as (c & -> & Hc).
  destruct c; [tauto|]. split; [discriminate|]. intros H. apply Hc, H.
Qed.

(** *** The sort *)

Lemma insert_sorted_perm (x : Key * Summary.t) (items : ByKey) :
  Permutation (insert_sorted x items) (x :: items).
Proof.
  induction items as [|y items IH]; simpl; [reflexivity|].
  destruct (key_ltb (fst y) (fst x)); [|reflexivity].
  rewrite IH. apply perm_swap.
Qed.

Lemma sort_items_perm (items : ByKey) : Permutation (sort_items items) items.
Proof.
  induction items as [|x items IH]; simpl; [reflexivity|].
  rewrite insert_sorted_perm. apply perm_skip, IH.
Qed.

Lemma distinct_keys_perm (l1 l2 : ByKey) :
  Permutation l1 l2 -> distinct_keys l1 -> distinct_keys l2.
Proof.
  intros Hperm [Hnodup Hcanon]. split.
  - eapply Permutation_NoDup; [|exact Hnodup].
    apply Permutation_map, Hperm.
  - eapply Permutation_Forall; eassumption.
Qed.

Lemma distinct_keys_cons (x : Key * Summary.t) (items : ByKey) :
  distinct_keys (x :: items) ->
  canonical_key (fst x) = true
  /\ Forall (fun y => canonical_key (fst y) = true /\ fst y <> fst x) items
  /\ distinct_keys items.
Proof.
  intros [Hnodup Hcanon]. simpl in Hnodup.
  apply List.NoDup_cons_iff in Hnodup as [Hfresh Hnodup].
  apply Forall_cons_iff in Hcanon as [Hx Hcanon].
  split; [exact Hx|]. split; [|split; assumption].
  rewrite List.Forall_forall in *. intros y Hy. split; [apply Hcanon, Hy|].
  intros Heq. apply Hfresh. rewrite <- Heq. apply in_map, Hy.
Qed.

Lemma comparable_with_ok (k : Key) (items : ByKey) :
  canonical_key k = true ->
  Forall (fun y => canonical_key (fst y) = true /\ fst y <> k) items ->
  comparable_with k items = true.
Proof.
  intros Hk H. induction H as [|[k' d] items [Hk' Hne] _ IH]; simpl; [reflexivity|].
  simpl in Hk', Hne.
  destruct (key_lt_before k k' Hk Hk' ltac:(congruence)) as (c & -> & _).
  exact IH.
Qed.

Lemma all_comparable_ok (items : ByKey) :
  distinct_keys items -> all_comparable items = true.
Proof.
  induction items as [|[k d] items IH]; intros H; simpl; [reflexivity|].
  apply distinct_keys_cons in H as (Hk & Hrest & Hitems).
  rewrite (comparable_with_ok k items Hk Hrest). apply IH, Hitems.
Qed.

Lemma insert_sorted_sorted (x : Key * Summary.t) (items : ByKey) :
  distinct_keys (x :: items) ->
  StronglySorted item_before items ->
  StronglySorted item_before (insert_sorted x items).
Proof.
  intros Hdist Hsorted. apply distinct_keys_cons in Hdist as (Hx & Hrest & _).
  induction Hsorted as [|y items Hsorted IH Hall]; simpl.
  - constructor; constructor.
  - apply Forall_cons_iff in Hrest as [[Hy Hne] Hrest].
    destruct (key_ltb (fst y) (fst x)) eqn:E.
    + constructor; [apply IH, Hrest|].
      eapply Permutation_Forall;
        [apply Permutation_sym, insert_sorted_perm|].
      constructor; [|exact Hall].
      apply (key_ltb_before _ _ Hy Hx Hne), E.
    + assert (Hxy : item_before x y).
      { destruct (key_before_total (fst x) (fst y) Hx Hy ltac:(congruence))
          as [H|H]; [exact H|].
        apply (key_ltb_before _ _ Hy Hx Hne) in H. congruence. }
      constructor; [constructor; assumption|].
      constructor; [exact Hxy|].
      eapply List.Forall_impl; [|exact Hall].
      intros z Hz. exact (key_before_trans _ _ _ Hxy Hz).
Qed.

Lemma sort_items_sorted (items : ByKey) :
  distinct_keys items -> StronglySorted item_before (sort_items items).
Proof.
  induction items as [|x items IH]; intros Hdist; simpl; [constructor|].
  apply insert_sorted_sorted.
  - eapply distinct_keys_perm; [|exact Hdist].
    apply perm_skip, Permutation_sym, sort_items_perm.
  - apply IH. apply distinct_keys_cons in Hdist. tauto.
Qed.

(** Two sorted lists with the same entries are the same list. *)
Lemma sorted_perm_eq (l1 l2 : ByKey) :
  StronglySorted item_before l1 -> StronglySorted item_before l2 ->
  Permutation l1 l2 -> l1 = l2.
Proof.
  intros H1. revert l2. induction H1 as [|x l1 Hs1 IH Hall1]; intros l2 H2 Hperm.
  - apply Permutation_nil in Hperm. congruence.
  - destruct H2 as [|y l2 Hs2 Hall2].
    + apply Permutation_sym, Permutation_nil in Hperm. discriminate.
    + assert (Hxy : x = y).
      { assert (Hx : In x (y :: l2))
          by (eapply Permutation_in; [exact Hperm|left; reflexivity]).
        assert (Hy : In y (x :: l1))
          by (eapply Permutation_in;
              [apply Permutation_sym, Hperm|left; reflexivity]).
        destruct Hx as [Hx|Hx]; [congruence|].
        destruct Hy as [Hy|Hy]; [congruence|].
        rewrite List.Forall_forall in Hall1, Hall2.
        exfalso. apply (key_before_irrefl (fst x)).
        exact (key_before_trans _ _ _ (Hall1 _ Hy) (Hall2 _ Hx)). }
      subst y. f_equal. apply IH; [exact Hs2|].
      eapply Permutation_cons_inv, Hperm.
Qed.

Lemma aggregated_distinct_keys (rows : list Event) (by_key : ByKey) :
  aggregated rows by_key -> distinct_keys by_key.
Proof.
  intros (Hnodup & _ & Hentries). split; [exact Hnodup|].
  apply List.Forall_forall. intros [k d] Hin. apply (Hentries k d Hin).
Qed.

(** *** The key and the groups of the specification *)

Lemma value_same_eq (a b : value) : value_same a b = true <-> a = b.
Proof.
  destruct a as [| x | x | x], b as [| y | y | y]; simpl;
    try (split; [discriminate|intros H; discriminate H]).
  - split; reflexivity.
  - rewrite Bool.eqb_true_iff. split; [intros ->; reflexivity|congruence].
  - rewrite Z.eqb_eq. split; [intros ->; reflexivity|congruence].
  - rewrite String.eqb_eq. split; [intros ->; reflexivity|congruence].
Qed.

Lemma key_same_eq (a b : Key) : key_same a b = true <-> a = b.
Proof.
  destruct a as [[[e1 s1] a1] t1], b as [[[e2 s2] a2] t2]. simpl.
  rewrite !andb_true_iff, !String.eqb_eq, !value_same_eq. split.
  - intros [[[-> ->] ->] ->]. reflexivity.
  - intros H. injection H as -> -> -> ->. repeat split.
Qed.

Lemma group_member (k : Key) (rows : list Event) (r : Event) :
  In r (group k rows) <-> In r rows /\ aggregation_key r = k.
Proof.
  unfold group. rewrite List.filter_In, key_same_eq.
  split; intros [H1 H2]; split; congruence.
Qed.

Lemma py_eqb_str (v : value) (s : string) :
  py_eqb v (VStr s) = value_same v (VStr s).
Proof. destruct v; reflexivity. Qed.

(** The key tuple [write_csv] builds is the aggregation key, and on
    canonical events [==] on key tuples is exact equality. *)
Lemma key_eqb_same (k : Key) (r : Event) :
  canonical r = true -> key_eqb k (key_of r) = key_same k (aggregation_key r).
Proof.
  destruct k as [[[e s] a] t]. unfold canonical, key_of, aggregation_key.
  destruct (symbol r) as [| | |sr]; try discriminate.
  destruct (asset r) as [| | |ar]; try discriminate.
  intros _. cbn [key_eqb key_same]. rewrite !py_eqb_str. reflexivity.
Qed.

Lemma group_bucket (k : Key) (rows : list Event) :
  forallb canonical rows = true -> group k rows = bucket k rows.
Proof.
  unfold group, bucket. induction rows as [|r rows IH]; simpl; [reflexivity|].
  intros H. apply andb_true_iff in H as [Hr Hrows].
  rewrite (key_eqb_same k r Hr), (IH Hrows). reflexivity.
Qed.

Lemma summable_buckets_intro (rows : list Event) :
  forallb canonical rows = true -> summable rows = true ->
  summable_buckets rows = true.
Proof.
  unfold summable, summable_buckets. intros Hrows H.
  rewrite forallb_forall in H. apply forallb_forall. intros r Hr.
  specialize (H r Hr). rewrite (group_bucket _ _ Hrows) in H. exact H.
Qed.

Lemma fits_buckets_intro (rows : list Event) :
  forallb canonical rows = true -> fits_precision rows = true ->
  fits_buckets rows = true.
Proof.
  unfold fits_precision, fits_buckets. intros Hrows H.
  rewrite forallb_forall in H. apply forallb_forall. intros r Hr.
  specialize (H r Hr). rewrite (group_bucket _ _ Hrows) in H. exact H.
Qed.

(** What [summary_items] returns for canonical events whose totals can be
    added up. *)
Lemma summary_items_spec (rows : list Event) :
  forallb canonical rows = true -> summable_buckets rows = true ->
  exists by_key,
    aggregate rows = Ok by_key
    /\ aggregated rows by_key
    /\ summary_items rows = Ok (sort_items by_key)
    /\ Permutation (sort_items by_key) by_key
    /\ StronglySorted item_before (sort_items by_key).
Proof.
  intros Hrows Hsums.
  destruct (aggregate_spec rows Hrows Hsums) as (by_key & Hrun & Hagg).
  pose proof (aggregated_distinct_keys _ _ Hagg) as Hdist.
  exists by_key. split; [exact Hrun|]. split; [exact Hagg|].
  split; [|split].
  - unfold summary_items, sorted_items. rewrite Hrun. cbn [bind].
    rewrite (all_comparable_ok _ Hdist). reflexivity.
  - apply sort_items_perm.
  - apply sort_items_sorted, Hdist.
Qed.

(** ** The summary table *)

(** C10, as stated, fails on a total that leaves the exponent range of
    the decimal context: the addition raises Overflow, which is trapped,
    and no summary is made of the event.  A payment of 1E+1000000 is
    enough. *)
Lemma overflow_leaves_no_summary :
  normalize_binance [income "BTCUSDT" "1E+1000000" 1] = Ok [huge_payment]
  /\ forallb canonical [huge_payment] = true
  /\ aggregation_key huge_payment
     = ("Binance", VStr "BTCUSDT", VStr "USDT", "funding")
  /\ summary_items [huge_payment] = Raise Overflow
  /\ write_csv [huge_payment] = ([], no_files, Raise Overflow).
Proof.
  split; [vm_compute; reflexivity|]. split; [reflexivity|].
  split; [reflexivity|]. split; vm_compute; reflexivity.
Qed.

(** C10, amended.  For canonical events whose totals can be added up, a
    key has a row in the summary exactly when some event has that key, and
    every row has a count of at least one, a first time no later than its
    last time, and first and last times that are the times of events of
    its group. *)
Theorem summary_invariants (rows : list Event) :
  forallb canonical rows = true ->
  summable rows = true ->
  exists items,
    summary_items rows = Ok items
    /\ (forall k, In k (map fst items)
                  <-> exists r, In r rows /\ aggregation_key r = k)
    /\ forall k d, In (k, d) items ->
         1 <= Summary.count d
         /\ Summary.first d <= Summary.last d
         /\ (exists r, In r (group k rows) /\ time r = Summary.first d)
         /\ (exists r, In r (group k rows) /\ time r = Summary.last d).
Proof.
  intros Hrows Hsums.
  destruct (summary_items_spec rows Hrows (summable_buckets_intro _ Hrows Hsums))
    as (by_key & _ & (Hnodup & Hcover & Hentries) & Hrun & Hperm & _).
  exists (sort_items by_key). split; [exact Hrun|].
  assert (Hin : forall k d, In (k, d) (sort_items by_key) ->
                  summarises (group k rows) d).
  { intros k d H. apply (Permutation_in _ Hperm) in H.
    rewrite (group_bucket k rows Hrows). apply (Hentries k d H). }
  split.
  - intros k. split.
    + intros Hk. destruct (in_map_fst _ _ Hk) as [d Hd].
      destruct (Hin k d Hd) as (Hne & _).
      destruct (group k rows) as [|r g] eqn:Hg; [congruence|].
      exists r. apply (group_member k rows r).
      rewrite Hg. left. reflexivity.
    + intros (r & Hr & <-).
      eapply Permutation_in;
        [apply Permutation_map, Permutation_sym, Hperm|].
      apply (Hcover r Hr).
  - intros k d Hd.
    destruct (Hin k d Hd)
      as (Hne & _ & Hcount & [Hfirst Hleast] & [Hlast Hgreatest]).
    split; [|split; [|split]].
    + rewrite Hcount. destruct (group k rows); [congruence|]. simpl. lia.
    + apply Hleast, Hlast.
    + apply in_map_iff in Hfirst as (r & Ht & Hr). exists r. tauto.
    + apply in_map_iff in Hlast as (r & Ht & Hr). exists r. tauto.
Qed.

Lemma summary_invariants_witness :
  exists items,
    summary_items several_keys = Ok items
    /\ map fst items
       = [("A", VStr "BTC", VStr "USDC", "funding");
          ("A", VStr "BTC", VStr "USDT", "funding");
          ("A", VStr "BTC", VStr "USDT", "realized_pnl");
          ("A", VStr "ETH", VStr "USDT", "funding");
          ("B", VStr "BTC", VStr "USDT", "funding")]
    /\ In ("A", VStr "BTC", VStr "USDT", "realized_pnl") (map fst items)
    /\ ~ In ("B", VStr "BTC", VStr "USDT", "realized_pnl") (map fst items)
    /\ map (fun item => Summary.count (snd item)) items = [1; 2; 1; 1; 1].
Proof.
  destruct (summary_invariants several_keys eq_refl eq_refl)
    as (items & Hrun & Hkeys & _).
  exists items. split; [exact Hrun|].
  split; [vm_compute in Hrun; injection Hrun as <-; reflexivity|].
  split; [|split].
  - apply Hkeys. eexists. split; [right; left; reflexivity|reflexivity].
  - intros H. apply Hkeys in H as (r & Hr & Hk). simpl in Hr.
    repeat (destruct Hr as [<-|Hr]; [discriminate Hk|]). destruct Hr.
  - vm_compute in Hrun. injection Hrun as <-. reflexivity.
Defined.

(** ** Decimal arithmetic within the precision *)

Lemma pow10_Z (k : Z) : 0 <= k -> Z.of_N (Dec.pow10 k) = 10 ^ k.
Proof.
  intros Hk. unfold Dec.pow10. rewrite N2Z.inj_pow, Z2N.id by exact Hk.
  reflexivity.
Qed.

Lemma len_fuel_bounds (fuel : nat) (c : N) :
  (c < 2 ^ N.of_nat fuel)%N ->
  1 <= Dec.len_fuel fuel c
  /\ Z.of_N c < 10 ^ Dec.len_fuel fuel c
  /\ (c <> 0%N -> 10 ^ (Dec.len_fuel fuel c - 1) <= Z.of_N c).
Proof.
  revert c. induction fuel as [|fuel IH]; intros c Hc.
  - simpl in Hc. assert (c = 0%N) by lia. subst c. simpl.
    split; [lia|]. split; [reflexivity|]. congruence.
  - cbn [Dec.len_fuel]. destruct (N.ltb_spec c 10) as [Hlt|Hge].
    + split; [lia|]. split; [change (10 ^ 1) with 10; lia|].
      intros Hne. change (10 ^ (1 - 1)) with 1. lia.
    + assert (Hdiv : (c / 10 < 2 ^ N.of_nat fuel)%N).
      { apply N.Div0.div_lt_upper_bound.
        rewrite Nat2N.inj_succ, N.pow_succ_r' in Hc. lia. }
      destruct (IH _ Hdiv) as (H1 & Hup & Hlow).
      assert (Hq : (c / 10 <> 0)%N).
      { intros H0. pose proof (N.Div0.div_mod c 10) as Hdm. rewrite H0 in Hdm.
        pose proof (N.mod_upper_bound c 10 ltac:(lia)). lia. }
      specialize (Hlow Hq).
      set (l := Dec.len_fuel fuel (c / 10)) in *.
      pose proof (N.Div0.div_mod c 10) as Hdm.
      pose proof (N.mod_upper_bound c 10 ltac:(lia)) as Hmod.
      assert (Hc10 : Z.of_N c = 10 * Z.of_N (c / 10) + Z.of_N (c mod 10)) by lia.
      replace (1 + l - 1) with (Z.succ (l - 1)) by lia.
      replace (1 + l) with (Z.succ l) by lia.
      rewrite !Z.pow_succ_r by lia.
      assert (Hr : 0 <= Z.of_N (c mod 10) < 10)
        by (split; [apply N2Z.is_nonneg|apply (N2Z.inj_lt _ 10), Hmod]).
      clearbody l. clear IH Hc Hdiv Hdm Hq Hmod Hge.
      generalize dependent (Z.of_N (c mod 10)).
      generalize dependent (Z.of_N (c / 10)).
      intros q Hup Hlow r Hc10 Hr.
      split; [lia|]. split; [|intros _]; lia.
Qed.

Lemma len_int_bounds (c : N) :
  1 <= Dec.len_int c
  /\ Z.of_N c < 10 ^ Dec.len_int c
  /\ (c <> 0%N -> 10 ^ (Dec.len_int c - 1) <= Z.of_N c).
Proof.
  unfold Dec.len_int. apply len_fuel_bounds.
  rewrite N2Nat.id. destruct c as [|p]; [reflexivity|]. apply N.size_gt.
Qed.

(** A coefficient below [10^k] has at most [k] digits. *)
Lemma len_int_le (c : N) (k : Z) :
  1 <= k -> Z.of_N c < 10 ^ k -> Dec.len_int c <= k.
Proof.
  intros Hk Hc. destruct (len_int_bounds c) as (H1 & _ & Hlow).
  destruct (N.eq_dec c 0%N) as [->|Hne]; [change (Dec.len_int 0) with 1; lia|].
  specialize (Hlow Hne).
  destruct (Z.le_gt_cases (Dec.len_int c) k) as [H|H]; [exact H|].
  exfalso. assert (10 ^ k <= 10 ^ (Dec.len_int c - 1))
    by (apply Z.pow_le_mono_r; lia).
  lia.
Qed.

Lemma fix_small (s : bool) (c : N) (e : Z) :
  Z.of_N c < 10 ^ 28 -> Dec.Etiny <= e <= Dec.Etop ->
  Dec.fix_ (Dec.Fin s c e) = Ok (Dec.Fin s c e).
Proof.
  intros Hc He. unfold Dec.fix_.
  unfold Dec.Etiny, Dec.Etop, Dec.Emax, Dec.Emin, Dec.prec in *.
  destruct (N.eqb_spec c 0) as [->|Hne].
  { f_equal. f_equal. lia. }
  pose proof (len_int_le c 28 ltac:(lia) Hc) as Hlen.
  destruct (Z.ltb_spec (999999 - 28 + 1) (Dec.len_int c + e - 28)); [lia|].
  destruct (Z.ltb_spec e (Z.max (Dec.len_int c + e - 28) (-999999 - 28 + 1)));
    [lia|reflexivity].
Qed.

Lemma pow10_pos (k : Z) : 0 < 10 ^ k \/ k < 0.
Proof.
  destruct (Z.le_gt_cases 0 k) as [H|H]; [left|right; lia].
  apply Z.pow_pos_nonneg; lia.
Qed.

Lemma pow10_ge_1 (k : Z) : 0 <= k -> 1 <= 10 ^ k.
Proof. intros H. pose proof (Z.pow_pos_nonneg 10 k). lia. Qed.

(** A product [c * 10^k] below [10^28] leaves room for [k] more digits. *)
Lemma digits_room (c : N) (k : Z) :
  c <> 0%N -> 0 <= k -> Z.of_N c * 10 ^ k < 10 ^ 28 ->
  Dec.len_int c + k <= 28.
Proof.
  intros Hc Hk Hlt. destruct (len_int_bounds c) as (H1 & _ & Hlow).
  specialize (Hlow Hc).
  assert (H : 10 ^ (Dec.len_int c - 1 + k) < 10 ^ 28).
  { rewrite Z.pow_add_r by lia. pose proof (pow10_ge_1 k Hk). nia. }
  apply Z.pow_lt_mono_r_iff in H; lia.
Qed.

Lemma rescale_pad (s : bool) (c : N) (e e' : Z) :
  c <> 0%N -> e' <= e ->
  Dec.rescale (Dec.Fin s c e) e' = Dec.Fin s (c * Dec.pow10 (e - e')) e'.
Proof.
  intros Hc He. unfold Dec.rescale.
  destruct (N.eqb_spec c 0); [contradiction|].
  destruct (Z.leb_spec e' e); [reflexivity|lia].
Qed.

Lemma normalize_pair_within (ti : N) (te : Z) (oi : N) (oe : Z) :
  ti <> 0%N -> oe <= te ->
  Z.of_N ti * 10 ^ (te - oe) < 10 ^ 28 ->
  Dec.normalize_pair ti te oi oe = ((ti * Dec.pow10 (te - oe))%N, oi, oe).
Proof.
  intros Hti Hle Hlt. unfold Dec.normalize_pair, Dec.prec.
  pose proof (digits_room ti (te - oe) Hti ltac:(lia) Hlt) as Hroom.
  destruct (len_int_bounds oi) as (Hoi & _ & _).
  destruct (Z.ltb_spec (Dec.len_int oi + oe - 1)
              (te + Z.min (-1) (Dec.len_int ti - 28 - 2))); [lia|].
  reflexivity.
Qed.

Lemma pow10_0 : Dec.pow10 0 = 1%N.
Proof. reflexivity. Qed.

Lemma normalize_within (c1 : N) (e1 : Z) (c2 : N) (e2 : Z) :
  c1 <> 0%N -> c2 <> 0%N ->
  Z.of_N c1 * 10 ^ (e1 - Z.min e1 e2) + Z.of_N c2 * 10 ^ (e2 - Z.min e1 e2)
  < 10 ^ 28 ->
  Dec.normalize c1 e1 c2 e2
  = ((c1 * Dec.pow10 (e1 - Z.min e1 e2))%N,
     (c2 * Dec.pow10 (e2 - Z.min e1 e2))%N, Z.min e1 e2).
Proof.
  intros H1 H2 Hlt. unfold Dec.normalize.
  pose proof (pow10_ge_1 (e1 - Z.min e1 e2) ltac:(lia)) as Hp1.
  pose proof (pow10_ge_1 (e2 - Z.min e1 e2) ltac:(lia)) as Hp2.
  destruct (Z.ltb_spec e1 e2) as [Hlt12|Hge12].
  - rewrite Z.min_l in * by lia.
    rewrite normalize_pair_within; [|exact H2|lia|nia].
    rewrite Z.sub_diag, pow10_0, N.mul_1_r. reflexivity.
  - rewrite Z.min_r in * by lia.
    rewrite normalize_pair_within; [|exact H1|lia|nia].
    rewrite Z.sub_diag, pow10_0, N.mul_1_r. reflexivity.
Qed.

Lemma repr_intro (s : bool) (c : N) (e v : Z) :
  s = (v <? 0) -> Z.of_N c = Z.abs v -> Dec.Fin s c e = repr v e.
Proof.
  intros -> Hc. unfold repr. f_equal. lia.
Qed.

(** One [+=] is exact when the two operands, written with the smaller of
    their exponents, add up to fewer than 29 digits. *)
Lemma add_within (v e1 : Z) (s2 : bool) (c2 : N) (e2 : Z) :
  Z.abs v * 10 ^ (e1 - Z.min e1 e2) + Z.of_N c2 * 10 ^ (e2 - Z.min e1 e2)
  < 10 ^ 28 ->
  Dec.Etiny <= Z.min e1 e2 <= Dec.Etop ->
  Dec.add (repr v e1) (Dec.Fin s2 c2 e2)
  = Ok (repr (v * 10 ^ (e1 - Z.min e1 e2)
              + signed_coef (Dec.Fin s2 c2 e2) * 10 ^ (e2 - Z.min e1 e2))
             (Z.min e1 e2)).
Proof.
  intros Hlt Hr. set (e := Z.min e1 e2) in *.
  assert (He1 : 0 <= e1 - e) by (unfold e; lia).
  assert (He2 : 0 <= e2 - e) by (unfold e; lia).
  pose proof (pow10_ge_1 _ He1) as Hp1. pose proof (pow10_ge_1 _ He2) as Hp2.
  pose proof (N2Z.is_nonneg c2) as Hc2.
  unfold repr at 1. unfold Dec.add. fold e. cbn [signed_coef].
  destruct (N.eqb_spec (Z.abs_N v) 0) as [Hv|Hv];
    destruct (N.eqb_spec c2 0) as [Hc|Hc]; cbn [andb].
  - (* both zero *)
    assert (v = 0) by lia. subst v c2.
    rewrite fix_small; [|simpl; lia|exact Hr]. f_equal.
    apply repr_intro; [|destruct s2; simpl; lia].
    destruct s2; simpl; reflexivity.
  - (* the total is zero *)
    assert (v = 0) by lia. subst v.
    pose proof (digits_room c2 (e2 - e) Hc He2 ltac:(lia)) as Hroom.
    destruct (len_int_bounds c2) as (Hl & _ & _).
    unfold Dec.prec. rewrite Z.max_l by lia.
    rewrite rescale_pad by (assumption || lia).
    rewrite fix_small; [|rewrite N2Z.inj_mul, pow10_Z by lia; lia|exact Hr].
    f_equal. apply repr_intro; rewrite ?N2Z.inj_mul, ?pow10_Z by lia.
    + destruct s2; symmetry; [apply Z.ltb_lt|apply Z.ltb_ge]; nia.
    + destruct s2; nia.
  - (* the amount is zero *)
    subst c2.
    assert (Hnz : Z.abs_N v <> 0%N) by exact Hv.
    pose proof (digits_room (Z.abs_N v) (e1 - e) Hnz He1 ltac:(lia)) as Hroom.
    destruct (len_int_bounds (Z.abs_N v)) as (Hl & _ & _).
    unfold Dec.prec. rewrite Z.max_l by lia.
    rewrite rescale_pad by (assumption || lia).
    rewrite fix_small; [|rewrite N2Z.inj_mul, pow10_Z by lia; lia|exact Hr].
    f_equal. apply repr_intro; rewrite ?N2Z.inj_mul, ?pow10_Z by lia.
    + destruct s2; destruct (Z.ltb_spec v 0); symmetry;
        [apply Z.ltb_lt|apply Z.ltb_ge|apply Z.ltb_lt|apply Z.ltb_ge]; nia.
    + destruct s2; nia.
  - (* neither is zero *)
    rewrite normalize_within by (assumption || (fold e; lia)). fold e.
    assert (Hi1 : Z.of_N (Z.abs_N v * Dec.pow10 (e1 - e)) = Z.abs v * 10 ^ (e1 - e))
      by (rewrite N2Z.inj_mul, pow10_Z by lia; lia).
    assert (Hi2 : Z.of_N (c2 * Dec.pow10 (e2 - e)) = Z.of_N c2 * 10 ^ (e2 - e))
      by (rewrite N2Z.inj_mul, pow10_Z by lia; lia).
    set (i1 := (Z.abs_N v * Dec.pow10 (e1 - e))%N) in *.
    set (i2 := (c2 * Dec.pow10 (e2 - e))%N) in *.
    assert (Hvnz : v <> 0) by lia.
    assert (Hc2nz : 0 < Z.of_N c2) by lia.
    destruct (Z.ltb_spec v 0) as [Hneg|Hpos]; destruct s2; cbn [Bool.eqb].
    + rewrite fix_small; [|lia|exact Hr]. f_equal.
      apply repr_intro; [symmetry; apply Z.ltb_lt|]; nia.
    + destruct (N.eqb_spec i1 i2) as [Heq|Hne];
        [|destruct (N.ltb_spec i1 i2) as [Hlt12|Hge12]].
      * rewrite fix_small; [|simpl; lia|exact Hr]. f_equal.
        apply repr_intro; [symmetry; apply Z.ltb_ge|]; simpl; nia.
      * rewrite fix_small; [|lia|exact Hr]. f_equal.
        apply repr_intro; [symmetry; apply Z.ltb_ge|]; nia.
      * rewrite fix_small; [|lia|exact Hr]. f_equal.
        apply repr_intro; [symmetry; apply Z.ltb_lt|]; nia.
    + destruct (N.eqb_spec i1 i2) as [Heq|Hne];
        [|destruct (N.ltb_spec i1 i2) as [Hlt12|Hge12]].
      * rewrite fix_small; [|simpl; lia|exact Hr]. f_equal.
        apply repr_intro; [symmetry; apply Z.ltb_ge|]; simpl; nia.
      * rewrite fix_small; [|lia|exact Hr]. f_equal.
        apply repr_intro; [symmetry; apply Z.ltb_lt|]; nia.
      * rewrite fix_small; [|lia|exact Hr]. f_equal.
        apply repr_intro; [symmetry; apply Z.ltb_ge|]; nia.
    + rewrite fix_small; [|lia|exact Hr]. f_equal.
      apply repr_intro; [symmetry; apply Z.ltb_ge|]; nia.
Qed.

(** *** Sums within the precision *)

Lemma min_exps_le (e : Z) (l : list Dec.Decimal) :
  min_exps e l <= e /\ Forall (fun d => min_exps e l <= exponent d) l.
Proof.
  induction l as [|d l [IH1 IH2]]; simpl; [split; [lia|constructor]|].
  split; [lia|]. constructor; [lia|].
  eapply List.Forall_impl; [|exact IH2]. simpl. intros; lia.
Qed.

Lemma min_exps_min (a b : Z) (l : list Dec.Decimal) :
  min_exps (Z.min a b) l = Z.min b (min_exps a l).
Proof. induction l as [|d l IH]; simpl; [lia|]. rewrite IH. lia. Qed.

Lemma signed_coef_abs (d : Dec.Decimal) :
  Dec.is_finite d = true ->
  exists s c e, d = Dec.Fin s c e /\ Z.abs (signed_coef d) = Z.of_N c.
Proof.
  destruct d as [s c e| |]; try discriminate. intros _.
  exists s, c, e. split; [reflexivity|]. destruct s; simpl; lia.
Qed.

Lemma magnitude_nonneg (m : Z) (l : list Dec.Decimal) : 0 <= magnitude m l.
Proof.
  induction l as [|d l IH]; [reflexivity|].
  cbn [magnitude fold_right]. fold (magnitude m l). lia.
Qed.

Lemma dec_sum_from_within (l : list Dec.Decimal) (v ea : Z) :
  forallb Dec.is_finite l = true ->
  Z.abs v * 10 ^ (ea - min_exps ea l) + magnitude (min_exps ea l) l < 10 ^ 28 ->
  Dec.Etiny <= min_exps ea l -> ea <= Dec.Etop ->
  dec_sum_from (repr v ea) l
  = Ok (repr (v * 10 ^ (ea - min_exps ea l) + total_units (min_exps ea l) l)
             (min_exps ea l)).
Proof.
  revert v ea. induction l as [|d l IH]; intros v ea Hfin Hlt Hlow Hhigh.
  - simpl. rewrite Z.sub_diag, Z.mul_1_r, Z.add_0_r. reflexivity.
  - cbn [forallb] in Hfin. apply andb_true_iff in Hfin as [Hd Hfin].
    destruct (signed_coef_abs d Hd) as (s & c & e2 & -> & Habs).
    cbn [dec_sum_from min_exps fold_right exponent magnitude total_units] in *.
    fold (min_exps ea l) in *. fold (magnitude (Z.min e2 (min_exps ea l)) l) in *.
    fold (total_units (Z.min e2 (min_exps ea l)) l).
    set (m := Z.min e2 (min_exps ea l)) in *.
    set (e' := Z.min ea e2).
    destruct (min_exps_le ea l) as [Hmle _].
    assert (Hm : min_exps e' l = m)
      by (unfold e', m; rewrite min_exps_min; reflexivity).
    assert (Hme : m <= e') by (unfold m, e'; lia).
    unfold units in *. cbn [exponent] in *.
    assert (HP : 10 ^ (ea - m) = 10 ^ (ea - e') * 10 ^ (e' - m)).
    { rewrite <- Z.pow_add_r by (unfold e'; lia). f_equal. lia. }
    assert (HQ : 10 ^ (e2 - m) = 10 ^ (e2 - e') * 10 ^ (e' - m)).
    { rewrite <- Z.pow_add_r by (unfold e'; lia). f_equal. lia. }
    pose proof (pow10_ge_1 (ea - e') ltac:(unfold e'; lia)) as HP1.
    pose proof (pow10_ge_1 (e2 - e') ltac:(unfold e'; lia)) as HQ1.
    pose proof (pow10_ge_1 (e' - m) ltac:(lia)) as HR1.
    pose proof (magnitude_nonneg m l) as Hmag.
    rewrite HP, HQ in Hlt.
    set (P := 10 ^ (ea - e')) in *. set (Q := 10 ^ (e2 - e')) in *.
    set (R := 10 ^ (e' - m)) in *.
    set (sc := signed_coef (Dec.Fin s c e2)) in *.
    rewrite add_within; fold e'; fold P; fold Q; fold sc.
    2:{ rewrite <- Habs. nia. }
    2:{ unfold e'. lia. }
    cbn [bind]. rewrite IH; [|exact Hfin| |rewrite Hm; exact Hlow|unfold e'; lia].
    + rewrite Hm. fold R. f_equal. f_equal. rewrite HP, HQ. fold P Q R. ring.
    + rewrite Hm. fold R.
      assert (Z.abs (v * P + sc * Q) * R
              <= Z.abs v * (P * R) + Z.abs (sc * (Q * R))) by nia.
      lia.
Qed.

(** The sum the loop computes for amounts that fit the precision is their
    exact sum. *)
Lemma dec_sum_within (l : list Dec.Decimal) :
  fits l = true -> dec_sum l = Ok (exact_sum l).
Proof.
  unfold fits. intros H. apply andb_true_iff in H as [H Hlt].
  apply andb_true_iff in H as [Hfin Hlow].
  apply Z.ltb_lt in Hlt. apply Z.leb_le in Hlow. unfold dec_sum, exact_sum.
  change Dec.zero with (repr 0 0).
  rewrite dec_sum_from_within;
    [|exact Hfin|simpl; exact Hlt|exact Hlow|unfold Dec.Etop, Dec.Emax, Dec.prec; lia].
  reflexivity.
Qed.

(** Amounts that fit the context can be added up. *)
Lemma fits_summable_buckets (rows : list Event) :
  fits_buckets rows = true -> summable_buckets rows = true.
Proof.
  unfold fits_buckets, summable_buckets. intros H.
  rewrite forallb_forall in H. apply forallb_forall. intros r Hr.
  rewrite (dec_sum_within _ (H r Hr)). reflexivity.
Qed.

(** *** Sums do not depend on the order *)

Lemma min_exps_perm (e : Z) (l l' : list Dec.Decimal) :
  Permutation l l' -> min_exps e l = min_exps e l'.
Proof.
  intros H. induction H as [|d l l' _ IH|d d' l|l l' l'' _ IH1 _ IH2]; simpl.
  - reflexivity.
  - fold (min_exps e l) (min_exps e l'). rewrite IH. reflexivity.
  - lia.
  - congruence.
Qed.

Lemma total_units_perm (m : Z) (l l' : list Dec.Decimal) :
  Permutation l l' -> total_units m l = total_units m l'.
Proof.
  intros H. induction H as [|d l l' _ IH|d d' l|l l' l'' _ IH1 _ IH2]; simpl.
  - reflexivity.
  - fold (total_units m l) (total_units m l'). rewrite IH. reflexivity.
  - lia.
  - congruence.
Qed.

Lemma magnitude_perm (m : Z) (l l' : list Dec.Decimal) :
  Permutation l l' -> magnitude m l = magnitude m l'.
Proof.
  intros H. induction H as [|d l l' _ IH|d d' l|l l' l'' _ IH1 _ IH2]; simpl.
  - reflexivity.
  - fold (magnitude m l) (magnitude m l'). rewrite IH. reflexivity.
  - lia.
  - congruence.
Qed.

Lemma forallb_perm {A : Type} (f : A -> bool) (l l' : list A) :
  Permutation l l' -> forallb f l = forallb f l'.
Proof.
  intros H. induction H as [|d l l' _ IH|d d' l|l l' l'' _ IH1 _ IH2]; simpl.
  - reflexivity.
  - rewrite IH. reflexivity.
  - destruct (f d), (f d'); reflexivity.
  - congruence.
Qed.

Lemma fits_perm (l l' : list Dec.Decimal) :
  Permutation l l' -> fits l = fits l'.
Proof.
  intros H. unfold fits.
  rewrite (forallb_perm _ _ _ H), (min_exps_perm _ _ _ H),
    (magnitude_perm _ _ _ H). reflexivity.
Qed.

Lemma exact_sum_perm (l l' : list Dec.Decimal) :
  Permutation l l' -> exact_sum l = exact_sum l'.
Proof.
  intros H. unfold exact_sum.
  rewrite (min_exps_perm _ _ _ H), (total_units_perm _ _ _ H). reflexivity.
Qed.

Lemma bucket_perm (k : Key) (rows rows' : list Event) :
  Permutation rows rows' -> Permutation (bucket k rows) (bucket k rows').
Proof.
  intros H. unfold bucket.
  induction H as [|r l l' _ IH|r r' l|l l' l'' _ IH1 _ IH2]; simpl.
  - constructor.
  - destruct (key_eqb k (key_of r)); [apply perm_skip|]; exact IH.
  - destruct (key_eqb k (key_of r)), (key_eqb k (key_of r'));
      try reflexivity. apply perm_swap.
  - etransitivity; eassumption.
Qed.

Lemma is_min_unique (m m' : Z) (l l' : list Z) :
  Permutation l l' -> is_min m l -> is_min m' l' -> m = m'.
Proof.
  intros Hperm [Hin Hle] [Hin' Hle'].
  pose proof (Hle m' (Permutation_in _ (Permutation_sym Hperm) Hin')).
  pose proof (Hle' m (Permutation_in _ Hperm Hin)). lia.
Qed.

Lemma is_max_unique (m m' : Z) (l l' : list Z) :
  Permutation l l' -> is_max m l -> is_max m' l' -> m = m'.
Proof.
  intros Hperm [Hin Hle] [Hin' Hle'].
  pose proof (Hle m' (Permutation_in _ (Permutation_sym Hperm) Hin')).
  pose proof (Hle' m (Permutation_in _ Hperm Hin)). lia.
Qed.

(** Within the precision, the summary of a bucket does not depend on the
    order of its events. *)
Lemma summarises_unique (g g' : list Event) (d d' : Summary.t) :
  Permutation g g' -> fits (map amount g) = true ->
  summarises g d -> summarises g' d' -> d = d'.
Proof.
  intros Hperm Hfits (_ & Hsum & Hcount & Hmin & Hmax)
    (_ & Hsum' & Hcount' & Hmin' & Hmax').
  pose proof (Permutation_map amount Hperm) as Hamounts.
  pose proof (Permutation_map time Hperm) as Htimes.
  rewrite (dec_sum_within _ Hfits) in Hsum.
  rewrite dec_sum_within in Hsum' by (rewrite <- (fits_perm _ _ Hamounts); exact Hfits).
  rewrite <- (exact_sum_perm _ _ Hamounts) in Hsum'.
  rewrite <- (Permutation_length Hperm) in Hcount'.
  pose proof (is_min_unique _ _ _ _ Htimes Hmin Hmin').
  pose proof (is_max_unique _ _ _ _ Htimes Hmax Hmax').
  destruct d, d'. simpl in *. congruence.
Qed.

(** *** The summary of a permuted input *)

Lemma aggregated_key_event (rows : list Event) (by_key : ByKey) (k : Key)
    (d : Summary.t) :
  aggregated rows by_key -> In (k, d) by_key ->
  exists r, In r rows /\ key_of r = k.
Proof.
  intros (_ & Hcover & Hentries) Hin.
  destruct (Hentries k d Hin) as (Hk & _ & Hne & _).
  destruct (bucket k rows) as [|r g] eqn:Hg; [congruence|].
  assert (Hr : In r (bucket k rows)) by (rewrite Hg; left; reflexivity).
  unfold bucket in Hr. apply List.filter_In in Hr as [Hr Heq].
  exists r. split; [exact Hr|].
  destruct (in_map_fst _ _ (Hcover r Hr)) as [d0 Hd0].
  destruct (Hentries _ _ Hd0) as (Hkr & _).
  symmetry. apply (key_eqb_eq _ _ Hk Hkr), Heq.
Qed.

Lemma aggregated_incl (rows rows' : list Event) (by_key by_key' : ByKey) :
  aggregated rows by_key -> aggregated rows' by_key' ->
  Permutation rows rows' ->
  (forall r, In r rows -> fits (map amount (bucket (key_of r) rows)) = true) ->
  forall x, In x by_key -> In x by_key'.
Proof.
  intros Hagg Hagg' Hperm Hfits [k d] Hin.
  destruct (aggregated_key_event _ _ _ _ Hagg Hin) as (r & Hr & <-).
  destruct Hagg as (_ & _ & Hentries). destruct Hagg' as (_ & Hcover' & Hentries').
  destruct (Hentries _ _ Hin) as (_ & _ & Hsum).
  destruct (in_map_fst _ _ (Hcover' r (Permutation_in _ Hperm Hr))) as [d' Hd'].
  destruct (Hentries' _ _ Hd') as (_ & _ & Hsum').
  rewrite (summarises_unique _ _ d d' (bucket_perm (key_of r) _ _ Hperm)
             (Hfits r Hr) Hsum Hsum').
  exact Hd'.
Qed.

Lemma fits_buckets_perm (rows rows' : list Event) :
  Permutation rows rows' -> fits_buckets rows = true -> fits_buckets rows' = true.
Proof.
  unfold fits_buckets. intros Hperm H.
  rewrite forallb_forall in H. apply forallb_forall. intros r Hr.
  rewrite (fits_perm _ (map amount (bucket (key_of r) rows))).
  - apply H. apply (Permutation_in _ (Permutation_sym Hperm) Hr).
  - apply Permutation_map, bucket_perm, Permutation_sym, Hperm.
Qed.

Lemma aggregated_perm (rows rows' : list Event) (by_key by_key' : ByKey) :
  aggregated rows by_key -> aggregated rows' by_key' ->
  Permutation rows rows' -> fits_buckets rows = true ->
  Permutation by_key by_key'.
Proof.
  intros Hagg Hagg' Hperm Hfits.
  unfold fits_buckets in Hfits. rewrite forallb_forall in Hfits.
  apply Permutation.NoDup_Permutation.
  - apply (List.NoDup_map_inv fst), Hagg.
  - apply (List.NoDup_map_inv fst), Hagg'.
  - intros x. split.
    + apply (aggregated_incl rows rows'); assumption.
    + apply (aggregated_incl rows' rows);
        [assumption|assumption|apply Permutation_sym, Hperm|].
      intros r Hr.
      rewrite (fits_perm _ (map amount (bucket (key_of r) rows))).
      * apply Hfits. apply (Permutation_in _ (Permutation_sym Hperm) Hr).
      * apply Permutation_map, bucket_perm, Permutation_sym, Hperm.
Qed.

(** C3, as stated, fails on amounts whose sum needs more than 28 digits:
    a [+=] rounds to 28 significant digits, half to even, so the total of
    1E+28, 5 and 5 is 1E+28 when the large amount comes first and
    1E+28 + 10 when it comes last. *)
Lemma summary_depends_on_order :
  Permutation large_first large_last
  /\ forallb canonical large_first = true
  /\ summary_rows large_first
     = Ok [[VStr "A"; VStr "BTC"; VStr "USDT"; VStr "funding";
            VStr "10000000000000000000000000000.0000000000";
            VInt 3; VInt 100; VInt 300]]
  /\ summary_rows large_last
     = Ok [[VStr "A"; VStr "BTC"; VStr "USDT"; VStr "funding";
            VStr "10000000000000000000000000010.0000000000";
            VInt 3; VInt 100; VInt 300]]
  /\ summary_rows large_last <> summary_rows large_first.
Proof.
  split.
  { unfold large_first, large_last.
    etransitivity; [apply perm_swap|]. apply perm_skip, perm_swap. }
  split; [reflexivity|]. split; [vm_compute; reflexivity|].
  split; [vm_compute; reflexivity|].
  vm_compute. intros H. discriminate H.
Qed.

(** C3, amended.  For canonical events whose totals can be added up, the
    rows of the summary come in ascending lexicographic order of their
    keys (exchange, then symbol, then asset, then kind), whatever the
    order of the input; and when the amounts of every group fit the
    decimal context (28 digits, no exponent below Etiny), every
    permutation of the input gives the same rows. *)
Theorem deterministic_summary (rows rows' : list Event) :
  forallb canonical rows = true ->
  summable rows = true ->
  Permutation rows rows' ->
  exists items,
    summary_items rows = Ok items
    /\ summary_rows rows = Ok (map summary_row items)
    /\ StronglySorted item_before items
    /\ (fits_precision rows = true -> summary_rows rows' = summary_rows rows).
Proof.
  intros Hrows Hsums Hperm.
  destruct (summary_items_spec rows Hrows (summable_buckets_intro _ Hrows Hsums))
    as (by_key & _ & Hagg & Hrun & Hsort & Hsorted).
  exists (sort_items by_key). split; [exact Hrun|].
  split; [unfold summary_rows; rewrite Hrun; reflexivity|].
  split; [exact Hsorted|].
  intros Hfits. apply (fits_buckets_intro _ Hrows) in Hfits.
  assert (Hrows' : forallb canonical rows' = true)
    by (rewrite <- (forallb_perm _ _ _ Hperm); exact Hrows).
  destruct (summary_items_spec rows' Hrows'
              (fits_summable_buckets _ (fits_buckets_perm _ _ Hperm Hfits)))
    as (by_key' & _ & Hagg' & Hrun' & Hsort' & Hsorted').
  unfold summary_rows. rewrite Hrun, Hrun'.
  rewrite (sorted_perm_eq (sort_items by_key') (sort_items by_key) Hsorted' Hsorted);
    [reflexivity|].
  rewrite Hsort', Hsort. apply Permutation_sym.
  apply (aggregated_perm rows rows'); assumption.
Qed.

Lemma deterministic_summary_witness :
  exists items,
    summary_items several_keys = Ok items
    /\ map fst items
       = [("A", VStr "BTC", VStr "USDC", "funding");
          ("A", VStr "BTC", VStr "USDT", "funding");
          ("A", VStr "BTC", VStr "USDT", "realized_pnl");
          ("A", VStr "ETH", VStr "USDT", "funding");
          ("B", VStr "BTC", VStr "USDT", "funding")]
    /\ StronglySorted item_before items
    /\ summary_rows (rev several_keys) = summary_rows several_keys.
Proof.
  destruct (deterministic_summary several_keys (rev several_keys) eq_refl
              eq_refl (Permutation_rev _)) as (items & Hrun & _ & Hsorted & Hperm).
  exists items. split; [exact Hrun|].
  split; [vm_compute in Hrun; injection Hrun as <-; reflexivity|].
  split; [exact Hsorted|]. apply Hperm. vm_compute. reflexivity.
Defined.

(** ** The value of a total *)

Lemma signed_coef_repr (v e : Z) : signed_coef (repr v e) = v.
Proof.
  unfold repr, signed_coef. destruct (Z.ltb_spec v 0); lia.
Qed.

Lemma ten_power (a b : Z) :
  0 <= a -> Qeq (inject_Z (10 ^ a) * (10 # 1) ^ b) ((10 # 1) ^ (a + b)).
Proof.
  intros Ha. rewrite Zpower_Qpower by exact Ha.
  rewrite Qpower_plus by discriminate. reflexivity.
Qed.

Lemma to_Q_units (m : Z) (d : Dec.Decimal) :
  m <= exponent d ->
  Qeq (to_Q d) (inject_Z (units m d) * (10 # 1) ^ m).
Proof.
  intros Hm. unfold to_Q, units. rewrite inject_Z_mult.
  rewrite <- Qmult_assoc, ten_power by lia.
  replace (exponent d - m + m) with (exponent d) by lia. reflexivity.
Qed.

Lemma sum_Q_units (m : Z) (l : list Dec.Decimal) :
  Forall (fun d => m <= exponent d) l ->
  Qeq (sum_Q (map to_Q l)) (inject_Z (total_units m l) * (10 # 1) ^ m).
Proof.
  intros H. induction H as [|d l Hd _ IH]; simpl.
  - rewrite Qmult_0_l. reflexivity.
  - fold (sum_Q (map to_Q l)) (total_units m l).
    rewrite IH, (to_Q_units m d Hd), inject_Z_plus. ring.
Qed.

(** The exact sum has the value of the sum. *)
Lemma exact_sum_value (l : list Dec.Decimal) :
  Qeq (to_Q (exact_sum l)) (sum_Q (map to_Q l)).
Proof.
  unfold exact_sum. rewrite (sum_Q_units (min_exps 0 l) l).
  - unfold to_Q. rewrite signed_coef_repr. reflexivity.
  - apply min_exps_le.
Qed.

(** C9, as stated, fails on an amount of more than 28 significant digits:
    already [Decimal("0") + amount] is rounded.  One event of
    10000000000000000000.0000000001 has the total 10000000000000000000. *)
Lemma long_amount_is_rounded :
  canonical long_payment = true
  /\ Dec.of_str "10000000000000000000.0000000001" = Some long_amount
  /\ exists d,
       summary_items [long_payment] = Ok [(aggregation_key long_payment, d)]
       /\ Summary.total d = Dec.Fin false 1000000000000000000000000000 (-8)
       /\ ~ Qeq (to_Q (Summary.total d)) (sum_Q (map to_Q [long_amount]))
       /\ Dec.format_10f (Summary.total d) = "10000000000000000000.0000000000"
       /\ Dec.format_10f long_amount = "10000000000000000000.0000000001".
Proof.
  split; [reflexivity|]. split; [vm_compute; reflexivity|].
  eexists. split; [vm_compute; reflexivity|]. cbn [Summary.total].
  split; [reflexivity|]. split; [|split; vm_compute; reflexivity].
  intros H. vm_compute in H. discriminate H.
Qed.

Lemma fits_buckets_bucket (rows : list Event) (by_key : ByKey) (k : Key)
    (d : Summary.t) :
  aggregated rows by_key -> fits_buckets rows = true -> In (k, d) by_key ->
  fits (map amount (bucket k rows)) = true.
Proof.
  intros Hagg Hfits Hin.
  destruct (aggregated_key_event _ _ _ _ Hagg Hin) as (r & Hr & <-).
  unfold fits_buckets in Hfits. rewrite forallb_forall in Hfits.
  apply Hfits, Hr.
Qed.

(** C9, amended.  The amounts of canonical events are decimals, and a
    total is computed with the decimal arithmetic of the default context.
    When the amounts of every group fit the context (counted in units of
    their finest decimal place they add up to fewer than 29 digits, and
    none has an exponent below Etiny), the summary is produced and every
    total is the exact sum of the amounts of its group: no digit is lost,
    whatever the number of events. *)
Theorem exact_decimal_totals (rows : list Event) :
  forallb canonical rows = true ->
  fits_precision rows = true ->
  exists items,
    summary_items rows = Ok items
    /\ forall k d, In (k, d) items ->
         Summary.total d = exact_sum (map amount (group k rows))
         /\ Qeq (to_Q (Summary.total d))
                (sum_Q (map to_Q (map amount (group k rows)))).
Proof.
  intros Hrows Hfits. apply (fits_buckets_intro _ Hrows) in Hfits.
  destruct (summary_items_spec rows Hrows (fits_summable_buckets _ Hfits))
    as (by_key & _ & Hagg & Hrun & Hperm & _).
  exists (sort_items by_key). split; [exact Hrun|].
  intros k d Hin. apply (Permutation_in _ Hperm) in Hin.
  rewrite (group_bucket k rows Hrows).
  pose proof (fits_buckets_bucket _ _ _ _ Hagg Hfits Hin) as Hfit.
  destruct Hagg as (_ & _ & Hentries).
  destruct (Hentries k d Hin) as (_ & _ & _ & Hsum & _).
  rewrite (dec_sum_within _ Hfit) in Hsum. injection Hsum as Hsum.
  rewrite <- Hsum. split; [reflexivity|apply exact_sum_value].
Qed.

Lemma exact_decimal_totals_witness :
  normalize_binance three_tiny_incomes = Ok three_tiny_payments
  /\ (exists d,
        summary_items three_tiny_payments
        = Ok [(("Binance", VStr "BTCUSDT", VStr "USDT", "funding"), d)]
        /\ Summary.total d = Dec.Fin false 3 (-8)
        /\ Qeq (to_Q (Summary.total d)) (3 # 100000000)
        /\ Dec.format_10f (Summary.total d) = "0.0000000300")
  /\ exists items,
       summary_items several_keys = Ok items
       /\ map (fun item => Summary.total (snd item)) items
          = [Dec.Fin false 3 0; Dec.Fin false 10 (-1); Dec.Fin false 7 0;
             Dec.Fin false 1 (-8); Dec.Fin true 25 (-2)].
Proof.
  split; [vm_compute; reflexivity|]. split.
  - destruct (exact_decimal_totals three_tiny_payments eq_refl eq_refl)
      as (items & Hrun & Hexact).
    assert (Hitems : exists d,
               items = [(("Binance", VStr "BTCUSDT", VStr "USDT", "funding"), d)]).
    { vm_compute in Hrun. injection Hrun as <-. eexists. reflexivity. }
    destruct Hitems as [d ->]. exists d. split; [exact Hrun|].
    destruct (Hexact _ d (or_introl eq_refl)) as [Htotal Hvalue].
    assert (Hd : Summary.total d = Dec.Fin false 3 (-8))
      by (rewrite Htotal; vm_compute; reflexivity).
    split; [exact Hd|]. split; [|rewrite Hd; vm_compute; reflexivity].
    rewrite Hvalue. vm_compute. reflexivity.
  - destruct (exact_decimal_totals several_keys eq_refl eq_refl)
      as (items & Hrun & _).
    exists items. split; [exact Hrun|].
    vm_compute in Hrun. injection Hrun as <-. reflexivity.
Defined.

(** ** Aggregation by key *)

(** C2, as stated, fails on a bucket whose sum needs more than 28 digits:
    the total of 9999999999999999999999999999 and 0.5 is rounded, half to
    even, to 1E+28. *)
Lemma total_is_rounded :
  forallb canonical nines_and_half = true
  /\ exists d,
       summary_items nines_and_half
       = Ok [(("A", VStr "BTC", VStr "USDT", "funding"), d)]
       /\ Summary.total d = Dec.Fin false 1000000000000000000000000000 1
       /\ ~ Qeq (to_Q (Summary.total d))
              (sum_Q (map to_Q (map amount nines_and_half)))
       /\ Dec.format_10f (Summary.total d)
          = "10000000000000000000000000000.0000000000"
       /\ Summary.count d = 2 /\ Summary.first d = 100 /\ Summary.last d = 200.
Proof.
  split; [reflexivity|].
  eexists. split; [vm_compute; reflexivity|]. cbn [Summary.total].
  split; [reflexivity|]. split; [|repeat split].
  intros H. vm_compute in H. discriminate H.
Qed.

(** C2, amended.  For canonical events whose totals can be added up, the
    summary has exactly one row per key that occurs, and the row of a key
    summarises the key's group, the events whose key is exactly that key:
    [total] is the decimal sum of the amounts, taken in input order from
    [Decimal("0")] in the default context, and so their exact sum when
    they fit the context; [count] is the number of events; [first] and
    [last] are the least and the greatest time of the group. *)
Theorem aggregation_by_key (rows : list Event) :
  forallb canonical rows = true ->
  summable rows = true ->
  exists items,
    summary_items rows = Ok items
    /\ List.NoDup (map fst items)
    /\ (forall r, In r rows -> exists d, In (aggregation_key r, d) items)
    /\ forall k d, In (k, d) items ->
         group k rows <> []
         /\ dec_sum (map amount (group k rows)) = Ok (Summary.total d)
         /\ (fits (map amount (group k rows)) = true ->
             Summary.total d = exact_sum (map amount (group k rows))
             /\ Qeq (to_Q (Summary.total d))
                    (sum_Q (map to_Q (map amount (group k rows)))))
         /\ Summary.count d = Z.of_nat (length (group k rows))
         /\ is_min (Summary.first d) (map time (group k rows))
         /\ is_max (Summary.last d) (map time (group k rows)).
Proof.
  intros Hrows Hsums.
  destruct (summary_items_spec rows Hrows (summable_buckets_intro _ Hrows Hsums))
    as (by_key & _ & (Hnodup & Hcover & Hentries) & Hrun & Hperm & _).
  exists (sort_items by_key). split; [exact Hrun|]. split; [|split].
  - eapply Permutation_NoDup; [|exact Hnodup].
    apply Permutation_map, Permutation_sym, Hperm.
  - intros r Hr. destruct (in_map_fst _ _ (Hcover r Hr)) as [d Hd].
    exists d. eapply Permutation_in; [apply Permutation_sym, Hperm|exact Hd].
  - intros k d Hin.
    apply (Permutation_in _ Hperm) in Hin.
    rewrite (group_bucket k rows Hrows).
    destruct (Hentries k d Hin) as (_ & _ & Hne & Hsum & Hcount & Hmin & Hmax).
    split; [exact Hne|]. split; [exact Hsum|].
    split; [|split; [exact Hcount|split; assumption]].
    intros Hfit. rewrite (dec_sum_within _ Hfit) in Hsum.
    injection Hsum as <-. split; [reflexivity|apply exact_sum_value].
Qed.

Lemma aggregation_by_key_witness :
  exists items d,
    summary_items several_keys = Ok items
    /\ map fst items
       = [("A", VStr "BTC", VStr "USDC", "funding");
          ("A", VStr "BTC", VStr "USDT", "funding");
          ("A", VStr "BTC", VStr "USDT", "realized_pnl");
          ("A", VStr "ETH", VStr "USDT", "funding");
          ("B", VStr "BTC", VStr "USDT", "funding")]
    /\ In (("A", VStr "BTC", VStr "USDT", "funding"), d) items
    /\ group ("A", VStr "BTC", VStr "USDT", "funding") several_keys = two_fundings
    /\ Summary.total d = Dec.Fin false 10 (-1)
    /\ Qeq (to_Q (Summary.total d)) (1 # 1)
    /\ Dec.format_10f (Summary.total d) = "1.0000000000"
    /\ Summary.count d = 2
    /\ Summary.first d = 100
    /\ Summary.last d = 200.
Proof.
  destruct (aggregation_by_key several_keys eq_refl eq_refl)
    as (items & Hrun & _ & Hcover & Hentries).
  destruct (Hcover (ledger_event "A" "BTC" "USDT" "funding" (Dec.Fin false 15 (-1)) 100)
              (or_introl eq_refl)) as [d Hd].
  change (aggregation_key _) with ("A", VStr "BTC", VStr "USDT", "funding") in Hd.
  exists items, d. split; [exact Hrun|].
  split; [vm_compute in Hrun; injection Hrun as <-; reflexivity|].
  split; [exact Hd|]. split; [reflexivity|].
  destruct (Hentries _ d Hd)
    as (_ & Hsum & Hexact & Hcount & [Hfirst Hleast] & [Hlast Hgreatest]).
  change (group ("A", VStr "BTC", VStr "USDT", "funding") several_keys)
    with two_fundings in *.
  assert (Htotal : Summary.total d = Dec.Fin false 10 (-1)).
  { vm_compute in Hsum. injection Hsum as Hsum. symmetry. exact Hsum. }
  split; [exact Htotal|].
  split; [rewrite (proj2 (Hexact eq_refl)); vm_compute; reflexivity|].
  split; [rewrite Htotal; reflexivity|].
  split; [exact Hcount|].
  change (In (Summary.first d) [100; 200]) in Hfirst.
  change (In (Summary.last d) [100; 200]) in Hlast.
  pose proof (Hleast 100 (or_introl eq_refl)).
  pose proof (Hgreatest 200 (or_intror (or_introl eq_refl))).
  simpl in Hfirst, Hlast. split; lia.
Defined.


(** * Further properties *)

(** ** The Binance normaliser *)

Lemma normalize_binance_row_skip (r : row) :
  is_funding_fee r = false -> normalize_binance_row r = Ok None.
Proof.
  unfold is_funding_fee, normalize_binance_row. intros ->. reflexivity.
Qed.

Lemma normalize_binance_row_keep (r : row) :
  is_funding_fee r = true ->
  normalize_binance_row r
  = (amt <- income_amount r ;;
     t <- income_time r ;;
     Ok (Some {| exchange := "Binance"; symbol := get r "symbol";
                 asset := get_or r "asset" (VStr "USDT");
                 amount := amt; time := t; type := "funding" |})).
Proof.
  unfold is_funding_fee, normalize_binance_row. intros ->. reflexivity.
Qed.

Lemma normalize_binance_concat (l1 l2 : list row) :
  normalize_binance (l1 ++ l2)
  = (n1 <- normalize_binance l1 ;;
     n2 <- normalize_binance l2 ;;
     Ok (n1 ++ n2)).
Proof.
  induction l1 as [|r l1 IH]; simpl.
  - destruct (normalize_binance l2); reflexivity.
  - destruct (normalize_binance_row r) as [e|x]; simpl; [|reflexivity].
    rewrite IH.
    destruct (normalize_binance l1) as [n1|x]; simpl; [|reflexivity].
    destruct (normalize_binance l2) as [n2|x]; simpl; [|reflexivity].
    destruct e; reflexivity.
Qed.

(** X1.  Normalising pages one after the other is normalising each page:
    the events of the first page are followed by those of the second, and
    an exception is that of the first page that raises. *)
Theorem normalize_binance_app (l1 l2 : list row) :
  normalize_binance (l1 ++ l2)
  = match normalize_binance l1 with
    | Raise e => Raise e
    | Ok n1 =>
        match normalize_binance l2 with
        | Raise e => Raise e
        | Ok n2 => Ok (n1 ++ n2)
        end
    end.
Proof.
  rewrite normalize_binance_concat.
  destruct (normalize_binance l1) as [n1|e]; [|reflexivity]. simpl.
  destruct (normalize_binance l2); reflexivity.
Qed.

(** X2.  A record whose income type is not FUNDING_FEE is dropped before
    any other field of it is read: wherever it stands and whatever its
    amount and time hold, the result is the same as without it. *)
Theorem normalize_binance_other_type (r : row) (before after : list row) :
  is_funding_fee r = false ->
  normalize_binance (before ++ r :: after) = normalize_binance (before ++ after).
Proof.
  intros Hr. rewrite !normalize_binance_concat. simpl.
  rewrite (normalize_binance_row_skip r Hr). simpl.
  destruct (normalize_binance before) as [n1|x]; simpl; [|reflexivity].
  destruct (normalize_binance after) as [n2|x]; reflexivity.
Qed.

Lemma normalize_binance_other_type_witness :
  income_amount commission = Raise InvalidOperation
  /\ normalize_binance mixed_incomes
     = normalize_binance [income "BTCUSDT" "-0.37" 1762732800000;
                          income "ETHUSDT" "0.12" 1762761600000]
  /\ exists norm, normalize_binance mixed_incomes = Ok norm /\ length norm = 2%nat.
Proof.
  split; [reflexivity|]. split.
  - apply (normalize_binance_other_type commission
             [income "BTCUSDT" "-0.37" 1762732800000]
             [income "ETHUSDT" "0.12" 1762761600000]).
    reflexivity.
  - eexists. split; [vm_compute; reflexivity|reflexivity].
Defined.

(** X3.  When [normalize_binance] returns, its events are those of the
    FUNDING_FEE records, one each and in their order: exchange "Binance",
    kind "funding", the record's symbol ([None] if it has none), its asset
    or "USDT", its income as a decimal (zero if absent) and its time as an
    integer (zero if absent). *)
Theorem normalize_binance_events (rows : list row) (norm : list Event) :
  normalize_binance rows = Ok norm ->
  Forall2 funding_event (List.filter is_funding_fee rows) norm.
Proof.
  revert norm. induction rows as [|r rows IH]; intros norm H; simpl in H.
  - injection H as <-. constructor.
  - destruct (normalize_binance_row r) as [e|x] eqn:Hr; simpl in H; [|discriminate].
    destruct (normalize_binance rows) as [n|x]; simpl in H; [|discriminate].
    specialize (IH n eq_refl). injection H as <-.
    cbn [List.filter]. destruct (is_funding_fee r) eqn:Hf.
    + rewrite (normalize_binance_row_keep r Hf) in Hr.
      destruct (income_amount r) as [amt|x] eqn:Hamt; simpl in Hr; [|discriminate].
      destruct (income_time r) as [t|x] eqn:Ht; simpl in Hr; [|discriminate].
      injection Hr as <-. constructor; [|exact IH].
      repeat split; assumption.
    + rewrite (normalize_binance_row_skip r Hf) in Hr. injection Hr as <-.
      exact IH.
Qed.

Lemma normalize_binance_events_witness :
  exists e1 e2,
    normalize_binance mixed_incomes = Ok [e1; e2]
    /\ symbol e1 = VStr "BTCUSDT" /\ symbol e2 = VStr "ETHUSDT"
    /\ exchange e1 = "Binance" /\ type e2 = "funding".
Proof.
  destruct (normalize_binance mixed_incomes) as [norm|x] eqn:Hrun;
    [|vm_compute in Hrun; discriminate Hrun].
  pose proof (normalize_binance_events mixed_incomes norm Hrun) as H.
  change (List.filter is_funding_fee mixed_incomes)
    with [income "BTCUSDT" "-0.37" 1762732800000;
          income "ETHUSDT" "0.12" 1762761600000] in H.
  inversion H as [|r1 e1 l1 n1 H1 Hrest]; subst.
  inversion Hrest as [|r2 e2 l2 n2 H2 Hnil]; subst.
  inversion Hnil; subst.
  exists e1, e2. split; [reflexivity|].
  destruct H1 as (Hex & _ & Hs1 & _). destruct H2 as (_ & Hty & Hs2 & _).
  repeat split; assumption.
Defined.

(** X4.  [normalize_binance] returns exactly when the amount and the time
    of every FUNDING_FEE record can be read; otherwise it raises, and no
    event of any record is returned. *)
Theorem normalize_binance_returns_iff (rows : list row) :
  (exists norm, normalize_binance rows = Ok norm)
  <-> Forall (fun r => is_funding_fee r = true -> readable r) rows.
Proof.
  induction rows as [|r rows IH]; simpl.
  - split; [constructor|]. intros _. eexists. reflexivity.
  - split.
    + intros [norm H].
      destruct (normalize_binance_row r) as [e|x] eqn:Hr; simpl in H; [|discriminate].
      destruct (normalize_binance rows) as [n|x]; simpl in H; [|discriminate].
      constructor; [|apply IH; eexists; reflexivity].
      intros Hf. rewrite (normalize_binance_row_keep r Hf) in Hr.
      destruct (income_amount r) as [amt|x] eqn:Hamt; simpl in Hr; [|discriminate].
      destruct (income_time r) as [t|x] eqn:Ht; simpl in Hr; [|discriminate].
      split; eexists; eassumption.
    + intros H. apply Forall_cons_iff in H as [Hr Hrows].
      apply IH in Hrows as [n ->].
      destruct (is_funding_fee r) eqn:Hf.
      * destruct (Hr eq_refl) as [[d Hd] [t Ht]].
        rewrite (normalize_binance_row_keep r Hf), Hd, Ht. simpl.
        eexists. reflexivity.
      * rewrite (normalize_binance_row_skip r Hf). simpl. eexists. reflexivity.
Qed.

(** ** Fetches that fail, and fetches that return *)

Lemma funding_loop_request_raises (fuel : nat) (cfg : Config)
    (server : BinanceServer) (n : nat) (params : IncomeParams)
    (sent : list IncomeParams) (all_rows : list row) (e : exn) :
  missing (BINANCE_API_KEY cfg) || missing (BINANCE_API_SECRET cfg) = false ->
  server n "/fapi/v1/income" params = Raise e ->
  funding_loop (S fuel) cfg server n params sent all_rows
  = Some (sent ++ [params], Raise e).
Proof.
  intros Hkeys Hpage. cbn [funding_loop].
  unfold binance_signed_request. rewrite Hkeys, Hpage. reflexivity.
Qed.

Lemma funding_loop_cursor_raises (fuel : nat) (cfg : Config)
    (server : BinanceServer) (n : nat) (params : IncomeParams)
    (sent : list IncomeParams) (all_rows page : list row) (e : exn) :
  missing (BINANCE_API_KEY cfg) || missing (BINANCE_API_SECRET cfg) = false ->
  0 < limit params ->
  server n "/fapi/v1/income" params = Ok page ->
  limit params <= Z.of_nat (length page) ->
  last_time page = Raise e ->
  funding_loop (S fuel) cfg server n params sent all_rows
  = Some (sent ++ [params], Raise e).
Proof.
  intros Hkeys Hlimit Hpage Hfull Hlast. cbn [funding_loop].
  unfold binance_signed_request. rewrite Hkeys, Hpage.
  destruct page as [|r page]; [simpl in Hfull; lia|].
  apply Z.ltb_ge in Hfull. rewrite Hfull, Hlast. reflexivity.
Qed.

Lemma funding_loop_fails (cfg : Config) (server : BinanceServer)
    (n : nat) (params : IncomeParams) (k : nat) (e : exn) :
  missing (BINANCE_API_KEY cfg) || missing (BINANCE_API_SECRET cfg) = false ->
  0 < limit params ->
  fails server n params k e ->
  forall fuel sent all_rows,
    (k <= fuel)%nat ->
    exists asked,
      funding_loop fuel cfg server n params sent all_rows
      = Some (sent ++ asked, Raise e)
      /\ length asked = k.
Proof.
  intros Hkeys Hlimit Hfails.
  induction Hfails as [n params e Hpage
                      | n params page e Hpage Hfull Hlast
                      | n params page t k e Hpage Hfull Hlast Hrest IH];
    intros fuel sent all_rows Hfuel.
  - destruct fuel as [|fuel]; [lia|]. exists [params].
    split; [|reflexivity]. apply funding_loop_request_raises; assumption.
  - destruct fuel as [|fuel]; [lia|]. exists [params].
    split; [|reflexivity]. eapply funding_loop_cursor_raises; eassumption.
  - destruct fuel as [|fuel]; [lia|].
    rewrite (funding_loop_full _ _ _ _ _ _ _ _ t Hkeys Hlimit Hpage Hfull Hlast).
    destruct (IH Hlimit fuel (sent ++ [params]) (all_rows ++ page))
      as (asked & Hrun & Hlen); [lia|].
    exists (params :: asked). split.
    + rewrite Hrun, <- app_assoc. reflexivity.
    + simpl. rewrite Hlen. reflexivity.
Qed.

Lemma funding_loop_raises (fuel : nat) (cfg : Config) (server : BinanceServer)
    (n : nat) (params : IncomeParams) (sent sent' : list IncomeParams)
    (all_rows : list row) (e : exn) :
  missing (BINANCE_API_KEY cfg) || missing (BINANCE_API_SECRET cfg) = false ->
  0 < limit params ->
  funding_loop fuel cfg server n params sent all_rows = Some (sent', Raise e) ->
  exists k, (k <= fuel)%nat /\ fails server n params k e.
Proof.
  intros Hkeys. revert n params sent all_rows.
  induction fuel as [|fuel IH]; intros n params sent all_rows Hlimit Hrun;
    [discriminate|].
  cbn [funding_loop] in Hrun. unfold binance_signed_request in Hrun.
  rewrite Hkeys in Hrun.
  destruct (server n "/fapi/v1/income" params) as [data|e'] eqn:Hdata.
  - destruct data as [|r data]; [discriminate|].
    destruct (Z.ltb_spec (Z.of_nat (length (r :: data))) (limit params))
      as [Hshort|Hfull]; [discriminate|].
    destruct (last_time (r :: data)) as [t|e'] eqn:Hlast.
    + apply IH in Hrun as (k & Hk & Hfails); [|exact Hlimit].
      exists (S k). split; [lia|]. eapply fails_next; eassumption.
    + injection Hrun as _ ->. exists 1%nat. split; [lia|].
      eapply fails_cursor; eassumption.
  - injection Hrun as _ ->. exists 1%nat. split; [lia|].
    apply fails_request. exact Hdata.
Qed.

(** X5.  With the Binance credentials set, the fetch ends in an exception
    exactly when, after full pages whose cursor could be read, a request
    raises or the last record of a full page has no readable [time]; the
    exception is that one, it is raised at that request, and none of the
    records fetched before it is returned. *)
Theorem failed_request_ends_fetch (fuel : nat) (cfg : Config)
    (server : BinanceServer) (start : option Z) (e : exn) :
  missing (BINANCE_API_KEY cfg) || missing (BINANCE_API_SECRET cfg) = false ->
  (exists sent, get_binance_funding fuel cfg server start = Some (sent, Raise e))
  <-> (exists k, (k <= fuel)%nat /\ fails server 0 (income_query start) k e).
Proof.
  intros Hkeys. split.
  - intros [sent Hrun]. unfold get_binance_funding in Hrun.
    eapply funding_loop_raises in Hrun; [exact Hrun|exact Hkeys|reflexivity].
  - intros (k & Hk & Hfails).
    destruct (funding_loop_fails cfg server 0 (income_query start) k e Hkeys
                eq_refl Hfails fuel [] [] Hk) as (asked & Hrun & _).
    exists asked. exact Hrun.
Qed.

Lemma down_after_one_page_fails (start : option Z) :
  fails down_after_one_page 0 (income_query start) 2 RequestException.
Proof.
  destruct full_page_facts as [Hlen Hlast].
  eapply fails_next; [reflexivity| |exact Hlast|].
  - rewrite Hlen. simpl. lia.
  - apply fails_request. reflexivity.
Qed.

Lemma failed_request_ends_fetch_witness :
  exists sent,
    get_binance_funding 2 both_keys down_after_one_page (Some start_ms)
    = Some (sent, Raise RequestException).
Proof.
  apply (failed_request_ends_fetch 2 both_keys down_after_one_page
           (Some start_ms) RequestException eq_refl).
  exists 2%nat. split; [lia|]. apply down_after_one_page_fails.
Defined.

(** X6.  A fetch that fails is fatal to the run: [main] ends in the same
    exception before it prints a line, asks Bybit anything or creates a
    file, whatever Bybit would have answered. *)
Theorem fetch_failure_aborts_main (fuel : nat) (cfg : Config)
    (binance : BinanceServer) (bybit : BybitServer) (k : nat) (e : exn) :
  missing (BINANCE_API_KEY cfg) || missing (BINANCE_API_SECRET cfg) = false ->
  fails binance 0 (income_query (Some start_ms)) k e ->
  (k <= fuel)%nat ->
  main fuel cfg binance bybit = Some ([], no_files, Raise e).
Proof.
  intros Hkeys Hfails Hk.
  destruct (funding_loop_fails cfg binance 0 (income_query (Some start_ms)) k e
              Hkeys eq_refl Hfails fuel [] [] Hk) as (asked & Hrun & _).
  unfold main, get_binance_funding.
  change {| incomeType := "FUNDING_FEE"; limit := 1000;
            startTime := Some start_ms |} with (income_query (Some start_ms)).
  rewrite Hrun. reflexivity.
Qed.

Lemma fetch_failure_aborts_main_witness :
  main 2 both_keys down_after_one_page usdt_down
  = Some ([], no_files, Raise RequestException).
Proof.
  apply (fetch_failure_aborts_main 2 both_keys down_after_one_page usdt_down 2
           RequestException eq_refl (down_after_one_page_fails (Some start_ms))).
  lia.
Defined.

(** X7.  A fetch that returns has been served full pages, each followed by
    a request one millisecond after its last record, and then one page
    shorter than the limit; it returns the records of these pages, all of
    them and in their order, after as many requests as there are pages. *)
Theorem returned_fetch_was_served (fuel : nat) (cfg : Config)
    (server : BinanceServer) (start : option Z) (sent : list IncomeParams)
    (rows : list row) :
  missing (BINANCE_API_KEY cfg) || missing (BINANCE_API_SECRET cfg) = false ->
  get_binance_funding fuel cfg server start = Some (sent, Ok rows) ->
  exists pages,
    serves server 0 (income_query start) pages
    /\ rows = concat pages
    /\ length sent = length pages
    /\ map startTime sent = start :: map next_start (removelast pages).
Proof.
  intros Hkeys Hrun. unfold get_binance_funding in Hrun.
  pose proof Hrun as Hback.
  apply funding_loop_returns in Hback as (pages & Hserves & Hrows & Hlen);
    [|exact Hkeys|reflexivity].
  exists pages. split; [exact Hserves|]. split; [exact Hrows|].
  destruct (funding_loop_serves cfg server 0 (income_query start) pages
              Hkeys eq_refl Hserves
              fuel [] [] Hlen) as (asked & Hrun' & Hasked & Hstarts).
  unfold income_query in Hrun'. rewrite Hrun' in Hrun. injection Hrun as <- _.
  split; assumption.
Qed.

Lemma returned_fetch_was_served_witness :
  exists pages,
    serves two_payments 0 (income_query (Some start_ms)) pages
    /\ [income "BTCUSDT" "-0.37" 1762732800000;
        income "BTCUSDT" "0.12" 1762761600000] = concat pages
    /\ 1%nat = length pages
    /\ [Some start_ms] = Some start_ms :: map next_start (removelast pages).
Proof.
  exact (returned_fetch_was_served 1 both_keys two_payments (Some start_ms)
           [income_query (Some start_ms)] _ eq_refl eq_refl).
Defined.

(** ** The Bybit normaliser *)

Lemma normalize_bybit_position_skip (pos : row) :
  is_open pos = false -> normalize_bybit_position pos = Ok None.
Proof.
  unfold is_open, normalize_bybit_position. intros H.
  destruct (negb (truthy (get pos "size")) || py_eqb (get pos "size") (VStr "0")
            || py_eqb (get pos "size") (VStr "0.0")); [reflexivity|].
  simpl in H. rewrite H. reflexivity.
Qed.

Lemma normalize_bybit_position_keep (pos : row) :
  is_open pos = true ->
  normalize_bybit_position pos
  = (a <- asset_of_symbol (get pos "symbol") ;;
     t <- updated_time pos ;;
     Ok (Some {| exchange := "Bybit"; symbol := get pos "symbol";
                 asset := VStr a; amount := realised_pnl pos; time := t;
                 type := "realized_pnl" |})).
Proof.
  unfold is_open, normalize_bybit_position. intros H.
  apply andb_true_iff in H as [Hsize Hsym].
  apply negb_true_iff in Hsize. rewrite Hsize, Hsym. reflexivity.
Qed.

(** X8.  When [normalize_bybit] returns, its events are those of the
    positions that pass both guards (a true size other than "0" and "0.0",
    and a true symbol), one each and in their order: exchange "Bybit", kind
    "realized_pnl", the position's symbol, the symbol without "USDT" and
    "USDC" as the asset, the realised P&L as a decimal (zero when absent or
    unreadable) and the [updatedTime] as an integer (zero when absent or
    empty); the line it prints counts these events. *)
Theorem normalize_bybit_events (positions : list row) (lines : list LogLine)
    (norm : list Event) :
  normalize_bybit positions = (lines, Ok norm) ->
  Forall2 position_event (List.filter is_open positions) norm
  /\ lines = [InfoBybitRows (length (List.filter is_open positions))].
Proof.
  unfold normalize_bybit.
  destruct (normalize_bybit_rows positions) as [n|x] eqn:Hrows; [|discriminate].
  intros H. injection H as <- <-.
  assert (Hall : Forall2 position_event (List.filter is_open positions) n).
  { revert n Hrows.
    induction positions as [|pos positions IH]; intros n H; simpl in H.
    - injection H as <-. constructor.
    - destruct (normalize_bybit_position pos) as [e|x] eqn:Hpos; simpl in H;
        [|discriminate].
      destruct (normalize_bybit_rows positions) as [m|x]; simpl in H;
        [|discriminate].
      specialize (IH m eq_refl). injection H as <-.
      cbn [List.filter]. destruct (is_open pos) eqn:Hopen.
      + rewrite (normalize_bybit_position_keep pos Hopen) in Hpos.
        destruct (asset_of_symbol (get pos "symbol")) as [a|x] eqn:Ha;
          simpl in Hpos; [|discriminate].
        destruct (updated_time pos) as [t|x] eqn:Ht; simpl in Hpos;
          [|discriminate].
        injection Hpos as <-. constructor; [|exact IH].
        unfold position_event. cbn [exchange type symbol asset amount time].
        split; [reflexivity|]. split; [reflexivity|]. split; [reflexivity|].
        split; [exists a; split; [exact Ha|reflexivity]|].
        split; [reflexivity|exact Ht].
      + rewrite (normalize_bybit_position_skip pos Hopen) in Hpos.
        injection Hpos as <-. exact IH. }
  split; [exact Hall|].
  pose proof Hall as Hlen. apply Forall2_length in Hlen.
  rewrite Hlen. reflexivity.
Qed.

Lemma normalize_bybit_events_witness :
  exists e1 e2 e3,
    normalize_bybit (sized_only :: three_positions)
    = ([InfoBybitRows 3], Ok [e1; e2; e3])
    /\ position_event (position "0.5" "BTCUSDC" "12.5" "1762732800001") e1
    /\ asset e1 = VStr "BTC" /\ time e3 = 1762732800003.
Proof.
  destruct (normalize_bybit (sized_only :: three_positions)) as [lines [norm|x]] eqn:Hrun;
    [|vm_compute in Hrun; discriminate Hrun].
  destruct (normalize_bybit_events _ lines norm Hrun) as [Hall ->].
  change (List.filter is_open (sized_only :: three_positions))
    with three_positions in *.
  unfold three_positions in Hall.
  inversion Hall as [|p1 e1 l1 n1 H1 Hrest1]; subst.
  inversion Hrest1 as [|p2 e2 l2 n2 H2 Hrest2]; subst.
  inversion Hrest2 as [|p3 e3 l3 n3 H3 Hnil]; subst.
  inversion Hnil; subst.
  exists e1, e2, e3. split; [reflexivity|]. split; [exact H1|].
  destruct H1 as (_ & _ & _ & (a & Ha & Hasset) & _).
  destruct H3 as (_ & _ & _ & _ & _ & Ht).
  split.
  - rewrite Hasset. vm_compute in Ha. injection Ha as <-. reflexivity.
  - vm_compute in Ht. injection Ht as Ht. symmetry. exact Ht.
Defined.

(** X9.  [normalize_bybit] returns exactly when every position that passes
    both guards has a string as its symbol and an [updatedTime] that is
    absent, empty or an integer; an unreadable realised P&L never makes it
    raise. *)
Theorem normalize_bybit_returns_iff (positions : list row) :
  (exists norm, snd (normalize_bybit positions) = Ok norm)
  <-> Forall (fun pos => is_open pos = true -> normalisable pos) positions.
Proof.
  unfold normalize_bybit.
  assert (Hrows : (exists norm, normalize_bybit_rows positions = Ok norm)
                  <-> Forall (fun pos => is_open pos = true -> normalisable pos)
                        positions).
  { induction positions as [|pos positions IH]; simpl.
    - split; [constructor|]. intros _. eexists. reflexivity.
    - split.
      + intros [norm H].
        destruct (normalize_bybit_position pos) as [e|x] eqn:Hpos; simpl in H;
          [|discriminate].
        destruct (normalize_bybit_rows positions) as [n|x]; simpl in H;
          [|discriminate].
        constructor; [|apply IH; eexists; reflexivity].
        intros Hopen. rewrite (normalize_bybit_position_keep pos Hopen) in Hpos.
        destruct (get pos "symbol") as [| b | z | s] eqn:Hsym;
          try discriminate Hpos.
        simpl in Hpos.
        destruct (updated_time pos) as [t|x] eqn:Ht; simpl in Hpos;
          [|discriminate].
        split; eexists; [exact Hsym|exact Ht].
      + intros H. apply Forall_cons_iff in H as [Hpos Hrest].
        apply IH in Hrest as [n ->].
        destruct (is_open pos) eqn:Hopen.
        * destruct (Hpos eq_refl) as [[s Hs] [t Ht]].
          rewrite (normalize_bybit_position_keep pos Hopen), Hs, Ht. simpl.
          eexists. reflexivity.
        * rewrite (normalize_bybit_position_skip pos Hopen). simpl.
          eexists. reflexivity. }
  rewrite <- Hrows.
  destruct (normalize_bybit_rows positions) as [n|x]; simpl.
  - split; intros _; eexists; reflexivity.
  - split; intros [norm H]; discriminate H.
Qed.

Lemma normalize_bybit_position_exn (pos : row) (e : exn) :
  normalize_bybit_position pos = Raise e -> e = AttributeError \/ e = ValueError.
Proof.
  destruct (is_open pos) eqn:Hopen.
  - rewrite (normalize_bybit_position_keep pos Hopen).
    destruct (get pos "symbol") as [| b | z | s]; simpl;
      try (intros H; injection H as <-; left; reflexivity).
    unfold updated_time, Py.int.
    destruct (py_or (get_or pos "updatedTime" (VInt 0)) (VInt 0))
      as [| b | z | u] eqn:Hor; simpl; try discriminate.
    + unfold py_or in Hor.
      destruct (truthy (get_or pos "updatedTime" (VInt 0))) eqn:Ht;
        [|discriminate].
      rewrite Hor in Ht. discriminate Ht.
    + destruct (int_of_str u); simpl; [discriminate|].
      intros H. injection H as <-. right. reflexivity.
  - rewrite (normalize_bybit_position_skip pos Hopen). discriminate.
Qed.

Lemma normalize_bybit_rows_exn (positions : list row) (e : exn) :
  normalize_bybit_rows positions = Raise e ->
  e = AttributeError \/ e = ValueError.
Proof.
  induction positions as [|pos positions IH]; simpl; [discriminate|].
  destruct (normalize_bybit_position pos) as [ev|x] eqn:Hpos; simpl.
  - destruct (normalize_bybit_rows positions) as [n|x]; simpl; [discriminate|].
    intros H. injection H as <-. apply IH. reflexivity.
  - intros H. injection H as <-. eapply normalize_bybit_position_exn, Hpos.
Qed.

(** X10.  An exception of [normalize_bybit] is an AttributeError (a true
    symbol that is not a string) or a ValueError (an [updatedTime] that is
    not an integer), never a RuntimeError: the handler of [main] does not
    catch it, and the run ends in it after the lines of the Binance fetch
    and the Bybit partitions, with no file written. *)
Theorem bybit_normaliser_error_aborts_main (fuel : nat) (cfg : Config)
    (binance : BinanceServer) (bybit : BybitServer) (sent : list IncomeParams)
    (raw : list row) (norm : list Event) (e : exn) :
  get_binance_funding fuel cfg binance (Some start_ms) = Some (sent, Ok raw) ->
  normalize_binance raw = Ok norm ->
  snd (normalize_bybit (snd (get_bybit_realized_raw cfg bybit))) = Raise e ->
  (e = AttributeError \/ e = ValueError)
  /\ main fuel cfg binance bybit
     = Some (BinanceRawRows (length raw) :: fst (get_bybit_realized_raw cfg bybit),
             no_files, Raise e).
Proof.
  intros Hfetch Hnorm Hbybit. unfold main. rewrite Hfetch, Hnorm.
  destruct (get_bybit_realized_raw cfg bybit) as [lines raw_bybit].
  cbn [fst snd] in *. unfold normalize_bybit in *.
  destruct (normalize_bybit_rows raw_bybit) as [n|x] eqn:Hrows;
    cbn [snd] in Hbybit; [discriminate|].
  injection Hbybit as ->.
  pose proof (normalize_bybit_rows_exn _ _ Hrows) as He.
  split; [exact He|].
  destruct He as [-> | ->]; simpl; rewrite app_nil_r; reflexivity.
Qed.

Lemma bybit_normaliser_error_aborts_main_witness :
  is_open undated = true
  /\ updated_time undated = Raise ValueError
  /\ main 1 both_keys two_payments one_undated
     = Some ([BinanceRawRows 2], no_files, Raise ValueError).
Proof.
  split; [reflexivity|]. split; [reflexivity|].
  refine (proj2 (bybit_normaliser_error_aborts_main 1 both_keys two_payments
                   one_undated _ _ _ ValueError eq_refl _ _)).
  - vm_compute. reflexivity.
  - reflexivity.
Defined.

(** ** The run as a whole *)

Lemma bybit_partition_lines (cfg : Config) (server : BybitServer)
    (settle : string) :
  forallb (fun l => negb (is_not_configured l))
    (fst (bybit_partition cfg server settle)) = true.
Proof.
  unfold bybit_partition.
  destruct (bybit_signed_request _ _ _ _) as [data|e]; [|reflexivity].
  destruct (negb (py_eqb (retCode data) (VInt 0))); reflexivity.
Qed.

Lemma get_bybit_realized_raw_lines (cfg : Config) (server : BybitServer) :
  forallb (fun l => negb (is_not_configured l))
    (fst (get_bybit_realized_raw cfg server)) = true.
Proof.
  unfold get_bybit_realized_raw. simpl.
  pose proof (bybit_partition_lines cfg server "USDT") as H1.
  pose proof (bybit_partition_lines cfg server "USDC") as H2.
  destruct (bybit_partition cfg server "USDT") as [l1 p1].
  destruct (bybit_partition cfg server "USDC") as [l2 p2].
  cbn [fst] in *. rewrite forallb_app, H1, H2. reflexivity.
Qed.

Lemma write_csv_lines (rows : list Event) :
  forallb (fun l => negb (is_not_configured l)) (fst (fst (write_csv rows))) = true.
Proof.
  unfold write_csv.
  destruct (aggregate rows) as [by_key|e]; [|reflexivity].
  destruct (sorted_items by_key); reflexivity.
Qed.

(** X11.  The handler around the Bybit calls of [main] never runs: a
    missing Bybit credential is caught inside the snapshot fetch, partition
    by partition, and the normaliser raises no RuntimeError.  So no run,
    whatever the credentials and the two sources, prints the line
    "Bybit not configured". *)
Theorem bybit_handler_never_runs (fuel : nat) (cfg : Config)
    (binance : BinanceServer) (bybit : BybitServer) (log : list LogLine)
    (files : Files) (r : outcome unit) :
  main fuel cfg binance bybit = Some (log, files, r) ->
  existsb is_not_configured log = false.
Proof.
  assert (Hno : forall l, forallb (fun x => negb (is_not_configured x)) l = true ->
                  existsb is_not_configured l = false).
  { induction l as [|x l IH]; simpl; [reflexivity|].
    intros H. apply andb_true_iff in H as [Hx Hl].
    apply negb_true_iff in Hx. rewrite Hx, (IH Hl). reflexivity. }
  unfold main.
  destruct (get_binance_funding fuel cfg binance (Some start_ms))
    as [[sent [raw|e]]|]; [| |discriminate].
  2:{ intros H. injection H as <- _ _. reflexivity. }
  destruct (normalize_binance raw) as [norm|e].
  2:{ intros H. injection H as <- _ _. reflexivity. }
  pose proof (get_bybit_realized_raw_lines cfg bybit) as Hraw.
  destruct (get_bybit_realized_raw cfg bybit) as [lines raw_bybit].
  cbn [fst] in Hraw. unfold normalize_bybit.
  destruct (normalize_bybit_rows raw_bybit) as [n|x] eqn:Hrows.
  - pose proof (write_csv_lines (norm ++ n)) as Hw.
    destruct (write_csv (norm ++ n)) as [[wl wf] wr]. cbn [fst] in Hw.
    intros H. injection H as <- _ _. apply Hno.
    cbn [forallb is_not_configured negb andb].
    rewrite !forallb_app, Hraw, Hw. reflexivity.
  - destruct (normalize_bybit_rows_exn _ _ Hrows) as [-> | ->]; simpl;
      intros H; injection H as <- _ _; apply Hno;
      cbn [forallb is_not_configured negb andb];
      rewrite ?forallb_app, Hraw; reflexivity.
Qed.

Lemma bybit_handler_never_runs_witness :
  existsb is_not_configured
    [BinanceRawRows 0; WarnSkippingBybit "USDT" RuntimeError;
     WarnSkippingBybit "USDC" RuntimeError; InfoBybitRows 0; TotalRows 0; Wrote]
  = false.
Proof.
  apply (bybit_handler_never_runs 1 no_bybit_keys no_payments no_positions _
           {| summary_csv := Some [summary_header];
              details_csv := Some [details_header] |} (Ok tt)).
  reflexivity.
Defined.

(** ** The CSV writer on arbitrary events *)

Lemma py_eqb_refl (v : value) : py_eqb v v = true.
Proof.
  destruct v as [| b | z | s]; simpl;
    [reflexivity | apply Z.eqb_refl | apply Z.eqb_refl | apply String.eqb_refl].
Qed.

Lemma key_eqb_reflexive (k : Key) : key_eqb k k = true.
Proof.
  destruct k as [[[e s] a] t]. simpl.
  rewrite !String.eqb_refl, !py_eqb_refl. reflexivity.
Qed.

(** The entry [accumulate] adds the event to, and the dict it leaves:
    the entry of an equal key where there is one, a new last entry of
    total zero otherwise. *)
Lemma accumulate_shape (by_key : ByKey) (r : Event) :
  exists l1 k d l2,
    ((by_key = l1 ++ (k, d) :: l2)
     \/ (by_key = l1 /\ l2 = [] /\ k = key_of r
         /\ d = {| Summary.total := Dec.zero; Summary.first := time r;
                   Summary.last := time r; Summary.count := 0 |}))
    /\ key_eqb k (key_of r) = true
    /\ other_keys (key_of r) l1
    /\ accumulate by_key r
       = (total <- Dec.add (Summary.total d) (amount r) ;;
          Ok (l1 ++ (k, {| Summary.total := total;
                           Summary.first := Z.min (Summary.first d) (time r);
                           Summary.last := Z.max (Summary.last d) (time r);
                           Summary.count := Summary.count d + 1 |}) :: l2)).
Proof.
  destruct (dict_get by_key (key_of r)) as [d|] eqn:Hget.
  - destruct (dict_get_Some _ _ _ Hget) as (l1 & k & l2 & -> & Hk & Hl1).
    exists l1, k, d, l2. split; [left; reflexivity|].
    split; [exact Hk|]. split; [exact Hl1|].
    unfold accumulate. rewrite Hget. cbv beta iota zeta. rewrite Hget.
    destruct (Dec.add (Summary.total d) (amount r)) as [total|x]; simpl;
      [|reflexivity].
    rewrite (dict_set_found _ _ _ _ _ _ Hl1 Hk). reflexivity.
  - pose proof (dict_get_None _ _ Hget) as Hother.
    eexists by_key, (key_of r), _, []. split; [right; repeat split|].
    split; [apply key_eqb_reflexive|]. split; [exact Hother|].
    unfold accumulate. rewrite Hget. cbv beta iota zeta.
    rewrite (dict_set_new _ _ _ Hother).
    rewrite (dict_get_found _ _ _ _ _ Hother (key_eqb_reflexive (key_of r))).
    destruct (Dec.add _ (amount r)) as [total|x]; simpl; [|reflexivity].
    rewrite (dict_set_found _ _ _ _ _ _ Hother (key_eqb_reflexive (key_of r))).
    reflexivity.
Qed.

Lemma counts_app (l1 l2 : ByKey) : counts (l1 ++ l2) = counts l1 + counts l2.
Proof.
  unfold counts. induction l1 as [|x l1 IH]; simpl; [reflexivity|].
  rewrite IH. lia.
Qed.

Lemma accumulate_counts (by_key by_key' : ByKey) (r : Event) :
  accumulate by_key r = Ok by_key' -> counts by_key' = counts by_key + 1.
Proof.
  destruct (accumulate_shape by_key r) as (l1 & k & d & l2 & Hshape & _ & _ & ->).
  destruct (Dec.add (Summary.total d) (amount r)) as [total|x]; simpl;
    [|discriminate].
  intros H. injection H as <-.
  destruct Hshape as [-> | (-> & -> & _ & ->)];
    rewrite !counts_app; unfold counts; simpl; lia.
Qed.

Lemma aggregate_from_counts (rows : list Event) (by_key by_key' : ByKey) :
  aggregate_from by_key rows = Ok by_key' ->
  counts by_key' = counts by_key + Z.of_nat (length rows).
Proof.
  revert by_key. induction rows as [|r rows IH]; intros by_key; simpl.
  - intros H. injection H as <-. lia.
  - destruct (accumulate by_key r) as [b|x] eqn:Hacc; simpl; [|discriminate].
    intros H. rewrite (IH _ H), (accumulate_counts _ _ _ Hacc). lia.
Qed.

Lemma counts_perm (l1 l2 : ByKey) : Permutation l1 l2 -> counts l1 = counts l2.
Proof.
  unfold counts. induction 1; simpl; lia.
Qed.

(** X14.  Every event is counted once: whatever the events (their symbols
    and assets need not be strings, nor their amounts finite), the counts
    of the summary rows add up to the number of events, which is the number
    of rows of the details table. *)
Theorem counts_add_up (rows : list Event) (items : ByKey) :
  summary_items rows = Ok items ->
  counts items = Z.of_nat (length rows)
  /\ counts items = Z.of_nat (length (map details_row rows)).
Proof.
  unfold summary_items, aggregate.
  destruct (aggregate_from [] rows) as [by_key|e] eqn:Hagg; simpl;
    [|discriminate].
  unfold sorted_items. destruct (all_comparable by_key); [|discriminate].
  intros H. injection H as <-.
  rewrite (counts_perm _ _ (sort_items_perm by_key)).
  rewrite (aggregate_from_counts _ _ _ Hagg), length_map.
  unfold counts. simpl. lia.
Qed.

Lemma counts_add_up_witness :
  exists items,
    summary_items mixed_payments = Ok items
    /\ counts items = Z.of_nat (length mixed_payments).
Proof.
  destruct (summary_items mixed_payments) as [items|e] eqn:Hrun;
    [|vm_compute in Hrun; discriminate Hrun].
  exists items. split; [reflexivity|].
  exact (proj1 (counts_add_up mixed_payments items Hrun)).
Defined.

(** *** Keys that cannot be ordered *)

Lemma py_eqb_sym (a b : value) : py_eqb a b = py_eqb b a.
Proof.
  destruct a as [| x | x | x], b as [| y | y | y]; simpl;
    try reflexivity; try apply Z.eqb_sym; apply String.eqb_sym.
Qed.

Lemma py_ltb_None_sym (a b : value) : py_ltb a b = None -> py_ltb b a = None.
Proof.
  destruct a as [| x | x | x], b as [| y | y | y]; simpl;
    try reflexivity; discriminate.
Qed.

Lemma py_eqb_cong (a a' x : value) :
  py_eqb a a' = true ->
  py_eqb a x = py_eqb a' x /\ py_ltb a x = py_ltb a' x.
Proof.
  destruct a as [| b | z | s], a' as [| b' | z' | s']; simpl; intros H;
    try discriminate H;
    try (apply String.eqb_eq in H; subst; split; reflexivity);
    try (apply Z.eqb_eq in H);
    destruct x as [| bx | zx | sx]; simpl; try rewrite H;
    split; reflexivity.
Qed.

Lemma key_eqb_sym (a b : Key) : key_eqb a b = key_eqb b a.
Proof.
  destruct a as [[[e1 s1] a1] t1], b as [[[e2 s2] a2] t2]. simpl.
  rewrite (String.eqb_sym e1 e2), (String.eqb_sym t1 t2),
    (py_eqb_sym s1 s2), (py_eqb_sym a1 a2).
  reflexivity.
Qed.

Lemma key_lt_None_sym (a b : Key) : key_lt a b = None -> key_lt b a = None.
Proof.
  destruct a as [[[e1 s1] a1] t1], b as [[[e2 s2] a2] t2]. simpl.
  rewrite (String.eqb_sym e2 e1), (String.eqb_sym t2 t1),
    (py_eqb_sym s2 s1), (py_eqb_sym a2 a1).
  destruct (String.eqb e1 e2); simpl; [|discriminate].
  destruct (py_eqb s1 s2); simpl; [|apply py_ltb_None_sym].
  destruct (py_eqb a1 a2); simpl; [|apply py_ltb_None_sym].
  destruct (String.eqb t1 t2); simpl; [reflexivity|discriminate].
Qed.

Lemma key_eqb_cong (k k' x : Key) :
  key_eqb k k' = true -> key_eqb k x = key_eqb k' x /\ key_lt k x = key_lt k' x.
Proof.
  destruct k as [[[e1 s1] a1] t1], k' as [[[e2 s2] a2] t2],
    x as [[[e3 s3] a3] t3].
  simpl. rewrite !andb_true_iff, !String.eqb_eq.
  intros [[[-> Hs] Ha] ->].
  destruct (py_eqb_cong s1 s2 s3 Hs) as [-> ->].
  destruct (py_eqb_cong a1 a2 a3 Ha) as [-> ->].
  split; reflexivity.
Qed.

Lemma unordered_sym (a b : Key) : unordered a b -> unordered b a.
Proof.
  intros [Hne Hlt]. split; [rewrite key_eqb_sym; exact Hne|].
  apply key_lt_None_sym, Hlt.
Qed.

Lemma unordered_cong (k k' x : Key) :
  key_eqb k k' = true -> unordered k' x -> unordered k x.
Proof.
  intros Hk [Hne Hlt]. destruct (key_eqb_cong k k' x Hk) as [He Hl].
  split; congruence.
Qed.

Lemma comparable_with_unordered (k k' : Key) (items : ByKey) :
  In k' (map fst items) -> key_lt k k' = None -> comparable_with k items = false.
Proof.
  induction items as [|[k0 d0] items IH]; simpl; [intros []|].
  intros [-> | Hin] Hlt.
  - rewrite Hlt. reflexivity.
  - destruct (key_lt k k0); [apply IH; assumption|reflexivity].
Qed.

Lemma all_comparable_unordered (k1 k2 : Key) (items : ByKey) :
  In k1 (map fst items) -> In k2 (map fst items) -> unordered k1 k2 ->
  all_comparable items = false.
Proof.
  intros H1 H2 Hun.
  assert (Hne : k1 <> k2).
  { intros ->. destruct Hun as [Hne _]. rewrite key_eqb_reflexive in Hne.
    discriminate Hne. }
  induction items as [|[k d] items IH]; simpl in *; [contradiction|].
  destruct H1 as [E1 | H1], H2 as [E2 | H2].
  - congruence.
  - subst k.
    rewrite (comparable_with_unordered k1 k2 items H2 (proj2 Hun)). reflexivity.
  - subst k.
    rewrite (comparable_with_unordered k2 k1 items H1
               (proj2 (unordered_sym _ _ Hun))). reflexivity.
  - rewrite (IH H1 H2). apply andb_false_r.
Qed.

Lemma accumulate_keys (by_key by_key' : ByKey) (r : Event) :
  accumulate by_key r = Ok by_key' ->
  (forall k, In k (map fst by_key) -> In k (map fst by_key'))
  /\ exists k, In k (map fst by_key') /\ key_eqb k (key_of r) = true.
Proof.
  destruct (accumulate_shape by_key r) as (l1 & k & d & l2 & Hshape & Hk & _ & ->).
  destruct (Dec.add (Summary.total d) (amount r)) as [total|x]; simpl;
    [|discriminate].
  intros H. injection H as <-. split.
  - intros k0. rewrite map_app. cbn [map fst].
    destruct Hshape as [-> | (-> & -> & _ & _)].
    + rewrite map_app. cbn [map fst]. tauto.
    + intros Hin. apply in_or_app. left. exact Hin.
  - exists k. split; [|exact Hk].
    rewrite map_app. apply in_or_app. right. left. reflexivity.
Qed.

Lemma aggregate_from_keys (rows : list Event) (by_key by_key' : ByKey) :
  aggregate_from by_key rows = Ok by_key' ->
  (forall k, In k (map fst by_key) -> In k (map fst by_key'))
  /\ forall r, In r rows ->
       exists k, In k (map fst by_key') /\ key_eqb k (key_of r) = true.
Proof.
  revert by_key. induction rows as [|r rows IH]; intros by_key; simpl.
  - intros H. injection H as <-. split; [tauto|intros r []].
  - destruct (accumulate by_key r) as [b|x] eqn:Hacc; simpl; [|discriminate].
    intros H. destruct (IH _ H) as [Hkeep Hcover].
    destruct (accumulate_keys _ _ _ Hacc) as [Hkeep0 (k & Hk & Heq)].
    split; [intros k0 Hin; apply Hkeep, Hkeep0, Hin|].
    intros r0 [<- | Hin]; [|apply Hcover, Hin].
    exists k. split; [apply Hkeep, Hk|exact Heq].
Qed.

(** X15.  Two events whose keys cannot be ordered (they differ, and the
    first components that differ are not of one type: a symbol that is
    [None] next to one that is a string, say) make the sort of the summary
    raise TypeError, wherever they stand among the events.  By then the
    summary file has been created and its header written; it is left with
    the header alone, and the details file is never created. *)
Theorem unordered_keys_leave_header (rows : list Event) (r1 r2 : Event)
    (by_key : ByKey) :
  aggregate rows = Ok by_key ->
  In r1 rows -> In r2 rows ->
  unordered (key_of r1) (key_of r2) ->
  write_csv rows
  = ([], {| summary_csv := Some [summary_header]; details_csv := None |},
     Raise TypeError).
Proof.
  intros Hagg H1 H2 Hun. unfold write_csv. rewrite Hagg.
  destruct (aggregate_from_keys _ _ _ Hagg) as [_ Hcover].
  destruct (Hcover r1 H1) as (k1 & Hk1 & Heq1).
  destruct (Hcover r2 H2) as (k2 & Hk2 & Heq2).
  assert (Hun' : unordered k1 k2).
  { apply (unordered_cong _ _ _ Heq1), unordered_sym.
    apply (unordered_cong _ _ _ Heq2), unordered_sym, Hun. }
  unfold sorted_items.
  rewrite (all_comparable_unordered k1 k2 by_key Hk1 Hk2 Hun'). reflexivity.
Qed.

Lemma unordered_keys_leave_header_witness :
  write_csv named_and_unnamed
  = ([], {| summary_csv := Some [summary_header]; details_csv := None |},
     Raise TypeError).
Proof.
  destruct (aggregate named_and_unnamed) as [by_key|e] eqn:Hagg;
    [|vm_compute in Hagg; discriminate Hagg].
  apply (unordered_keys_leave_header _
           (ledger_event "Binance" "BTCUSDT" "USDT" "funding" (Dec.Fin false 15 (-1)) 100)
           unnamed_payment by_key Hagg).
  - left. reflexivity.
  - right. left. reflexivity.
  - split; reflexivity.
Defined.

(** *** Amounts that cannot be added *)

Lemma add_signaling (a b : Dec.Decimal) :
  is_signaling b = true -> Dec.add a b = Raise InvalidOperation.
Proof.
  destruct b as [s c e|s|s [|] p]; try discriminate. intros _.
  destruct a as [s1 c1 e1|s1|s1 [|] p1]; reflexivity.
Qed.

Lemma aggregate_from_signaling (rows : list Event) (r : Event) (by_key : ByKey) :
  In r rows -> is_signaling (amount r) = true ->
  exists e, aggregate_from by_key rows = Raise e.
Proof.
  revert by_key. induction rows as [|r0 rows IH]; intros by_key Hin Hr;
    [destruct Hin|].
  simpl. destruct (accumulate by_key r0) as [b|x] eqn:Hacc; simpl.
  - destruct Hin as [-> | Hin]; [|apply (IH b Hin Hr)].
    exfalso.
    destruct (accumulate_shape by_key r) as (l1 & k & d & l2 & _ & _ & _ & Hrun).
    rewrite Hrun, (add_signaling _ _ Hr) in Hacc. discriminate Hacc.
  - exists x. reflexivity.
Qed.

(** X16.  An amount that [Decimal] accepted but that cannot be added, a
    signalling NaN, ends [write_csv] in the loop over the events: it raises
    before either file is created, wherever the event stands. *)
Theorem signaling_amount_stops_writer (rows : list Event) (r : Event) :
  In r rows -> is_signaling (amount r) = true ->
  exists e, write_csv rows = ([], no_files, Raise e).
Proof.
  intros Hin Hr. unfold write_csv, aggregate.
  destruct (aggregate_from_signaling rows r [] Hin Hr) as [e ->].
  exists e. reflexivity.
Qed.

Lemma signaling_amount_stops_writer_witness :
  exists norm,
    normalize_binance [income "ETHUSDT" "0.12" 1762761600000; signaling_income]
    = Ok norm
    /\ exists e, write_csv norm = ([], no_files, Raise e).
Proof.
  eexists. split; [vm_compute; reflexivity|].
  eapply signaling_amount_stops_writer; [right; left; reflexivity|reflexivity].
Defined.

(** ** The fetch over a ledger in order of time *)

Lemma ascending_sorted (l : list row) :
  ascending (map time_of l) = true -> StronglySorted earlier l.
Proof.
  induction l as [|a l IH]; [constructor|].
  intros H. destruct l as [|b l]; [repeat constructor|].
  cbn [map ascending] in H. apply andb_true_iff in H as [Hab Hrest].
  apply Z.ltb_lt in Hab. specialize (IH Hrest).
  constructor; [exact IH|].
  constructor; [exact Hab|].
  apply StronglySorted_inv in IH as [_ Hall].
  eapply List.Forall_impl; [|exact Hall].
  intros c Hc. unfold earlier in *. lia.
Qed.

Lemma filter_sorted (p : row -> bool) (l : list row) :
  StronglySorted earlier l -> StronglySorted earlier (List.filter p l).
Proof.
  induction 1 as [|a l Hs IH Hall]; simpl; [constructor|].
  destruct (p a); [|exact IH].
  constructor; [exact IH|].
  apply List.Forall_forall. intros x Hx. apply List.filter_In in Hx as [Hx _].
  rewrite List.Forall_forall in Hall. apply Hall, Hx.
Qed.

Lemma sorted_app (l1 l2 : list row) :
  StronglySorted earlier (l1 ++ l2) ->
  forall a b, In a l1 -> In b l2 -> earlier a b.
Proof.
  induction l1 as [|x l1 IH]; simpl; intros Hs a b Ha Hb; [destruct Ha|].
  apply StronglySorted_inv in Hs as [Hs Hall].
  destruct Ha as [-> | Ha]; [|apply (IH Hs a b Ha Hb)].
  rewrite List.Forall_forall in Hall. apply Hall, in_or_app. right. exact Hb.
Qed.

Lemma filter_none (p : row -> bool) (l : list row) :
  (forall r, In r l -> p r = false) -> List.filter p l = [].
Proof.
  induction l as [|a l IH]; simpl; intros H; [reflexivity|].
  rewrite (H a (or_introl eq_refl)). apply IH. intros r Hr. apply H. right. exact Hr.
Qed.

Lemma filter_all (p : row -> bool) (l : list row) :
  (forall r, In r l -> p r = true) -> List.filter p l = l.
Proof.
  induction l as [|a l IH]; simpl; intros H; [reflexivity|].
  rewrite (H a (or_introl eq_refl)). f_equal. apply IH.
  intros r Hr. apply H. right. exact Hr.
Qed.

Lemma filter_filter_implied (p q : row -> bool) (l : list row) :
  (forall r, p r = true -> q r = true) ->
  List.filter p (List.filter q l) = List.filter p l.
Proof.
  intros Himp. induction l as [|a l IH]; simpl; [reflexivity|].
  destruct (q a) eqn:Hq; simpl.
  - rewrite IH. reflexivity.
  - destruct (p a) eqn:Hp; [|exact IH].
    rewrite (Himp a Hp) in Hq. discriminate Hq.
Qed.

Lemma since_sorted (start : option Z) (ledger : list row) :
  StronglySorted earlier ledger -> StronglySorted earlier (since start ledger).
Proof.
  destruct start as [s|]; simpl; [apply filter_sorted|trivial].
Qed.

Lemma since_in (start : option Z) (ledger : list row) (r : row) :
  In r (since start ledger) ->
  In r ledger /\ match start with Some s => s <= time_of r | None => True end.
Proof.
  destruct start as [s|]; simpl; [|tauto].
  intros H. apply List.filter_In in H as [Hin Hs].
  split; [exact Hin|apply Z.leb_le, Hs].
Qed.

Lemma stamped_time (r : row) :
  stamped r = true -> r !! "time" = Some (VInt (time_of r)).
Proof.
  unfold stamped, time_of.
  destruct (r !! "time") as [[| b | z | s]|]; try discriminate. reflexivity.
Qed.

Lemma last_time_snoc (l : list row) (r : row) :
  stamped r = true -> last_time (l ++ [r]) = Ok (time_of r).
Proof.
  intros H. unfold last_time. rewrite last_snoc, (stamped_time r H). reflexivity.
Qed.

(** The query that follows a full page asks for what lies behind it. *)
Lemma since_next (ledger : list row) (start : option Z) (k : nat)
    (page : list row) (r : row) :
  StronglySorted earlier ledger ->
  firstn k (since start ledger) = page ++ [r] ->
  since (Some (time_of r + 1)) ledger = skipn k (since start ledger).
Proof.
  intros Hsorted Hpage.
  pose proof (since_sorted start ledger Hsorted) as HF.
  pose proof (firstn_skipn k (since start ledger)) as Hsplit.
  assert (Hr : In r (since start ledger)).
  { rewrite <- Hsplit, Hpage. apply in_or_app. left. apply in_or_app.
    right. left. reflexivity. }
  assert (Hsame : since (Some (time_of r + 1)) ledger
                  = List.filter (fun x => time_of r + 1 <=? time_of x)
                      (since start ledger)).
  { destruct start as [s|]; simpl; [|reflexivity].
    symmetry. apply filter_filter_implied.
    intros x Hx. apply Z.leb_le in Hx. apply Z.leb_le.
    apply since_in in Hr as [_ Hs]. lia. }
  rewrite Hsame. rewrite <- Hsplit at 1. rewrite List.filter_app.
  rewrite <- Hsplit, Hpage in HF.
  rewrite filter_none, filter_all; [reflexivity| |].
  - intros x Hx. apply Z.leb_le.
    assert (earlier r x); [|unfold earlier in *; lia].
    apply (sorted_app _ _ HF); [|exact Hx].
    apply in_or_app. right. left. reflexivity.
  - intros x Hx. apply Z.leb_gt. rewrite Hpage in Hx.
    apply in_app_or in Hx as [Hx | [<- | []]]; [|lia].
    rewrite <- app_assoc in HF.
    assert (earlier x r); [|unfold earlier in *; lia].
    apply (sorted_app _ _ HF x r Hx). left. reflexivity.
Qed.

Lemma ledger_loop (cfg : Config) (ledger : list row) (L : nat) :
  missing (BINANCE_API_KEY cfg) || missing (BINANCE_API_SECRET cfg) = false ->
  chronological ledger = true ->
  (0 < L)%nat ->
  forall (m : nat) (params : IncomeParams) (fuel n : nat)
         (sent : list IncomeParams) (all_rows : list row),
    limit params = Z.of_nat L ->
    (length (since (startTime params) ledger) <= m)%nat ->
    (length (since (startTime params) ledger) / L < fuel)%nat ->
    exists asked,
      funding_loop fuel cfg (ledger_server ledger) n params sent all_rows
      = Some (sent ++ asked, Ok (all_rows ++ since (startTime params) ledger))
      /\ length asked = S (length (since (startTime params) ledger) / L).
Proof.
  intros Hkeys Hchron HL.
  apply andb_true_iff in Hchron as [Hstamped Hasc].
  apply ascending_sorted in Hasc. rewrite forallb_forall in Hstamped.
  induction m as [|m IH]; intros params fuel n sent all_rows Hlimit Hm Hfuel.
  - destruct fuel as [|fuel]; [lia|].
    assert (HF : since (startTime params) ledger = [])
      by (destruct (since (startTime params) ledger); [reflexivity|simpl in Hm; lia]).
    exists [params]. rewrite HF. simpl. split.
    + apply funding_loop_short; [exact Hkeys| |simpl; lia].
      unfold ledger_server. fold (since (startTime params) ledger).
      rewrite HF, firstn_nil. reflexivity.
    + rewrite Nat.Div0.div_0_l. reflexivity.
  - destruct fuel as [|fuel]; [lia|].
    set (F := since (startTime params) ledger) in *.
    assert (Hpage : ledger_server ledger n "/fapi/v1/income" params
                    = Ok (firstn L F)).
    { unfold ledger_server. fold (since (startTime params) ledger).
      rewrite Hlimit, Nat2Z.id. reflexivity. }
    destruct (Nat.lt_ge_cases (length F) L) as [Hshort | Hfull].
    + exists [params]. rewrite firstn_all2 in Hpage by lia. split.
      * apply funding_loop_short; [exact Hkeys|exact Hpage|lia].
      * rewrite Nat.div_small by exact Hshort. reflexivity.
    + assert (Hlen : length (firstn L F) = L) by (rewrite length_firstn; lia).
      destruct (exists_last (l := firstn L F)) as (page & r & Hlast).
      { intros H. rewrite H in Hlen. simpl in Hlen. lia. }
      assert (Hr : In r ledger).
      { assert (Hin : In r F).
        { rewrite <- (firstn_skipn L F), Hlast. apply in_or_app. left.
          apply in_or_app. right. left. reflexivity. }
        apply since_in in Hin. tauto. }
      pose proof (since_next ledger (startTime params) L page r Hasc Hlast) as Hnext.
      fold F in Hnext.
      assert (Hskip : length (skipn L F) = (length F - L)%nat)
        by apply length_skipn.
      assert (Hdiv : (length F / L = S (length (skipn L F) / L))%nat).
      { rewrite Hskip.
        replace (length F) with ((length F - L) + 1 * L)%nat at 1 by lia.
        rewrite Nat.div_add by lia. lia. }
      rewrite (funding_loop_full fuel cfg _ n params sent all_rows (firstn L F)
                 (time_of r) Hkeys);
        [|lia|exact Hpage|lia|rewrite Hlast; apply last_time_snoc, Hstamped, Hr].
      destruct (IH {| incomeType := incomeType params; limit := limit params;
                      startTime := Some (time_of r + 1) |}
                  fuel (S n) (sent ++ [params]) (all_rows ++ firstn L F))
        as (asked & Hrun & Hasked).
      * exact Hlimit.
      * cbn [startTime]. rewrite Hnext. lia.
      * cbn [startTime]. rewrite Hnext. lia.
      * cbn [startTime] in Hrun, Hasked. rewrite Hnext in Hrun, Hasked.
        exists (params :: asked). split.
        -- rewrite Hrun, <- !app_assoc, firstn_skipn. reflexivity.
        -- simpl. rewrite Hasked, Hdiv. reflexivity.
Qed.

(** X17.  Over a ledger whose records carry integer times that strictly
    increase, served oldest first in pages of at most 1000, the fetch ends
    and returns the records from the start time on, every one of them
    once and in order; it sends one request more than the ledger has full
    thousands of such records. *)
Theorem ledger_fetched_whole (cfg : Config) (ledger : list row)
    (start : option Z) (fuel : nat) :
  missing (BINANCE_API_KEY cfg) || missing (BINANCE_API_SECRET cfg) = false ->
  chronological ledger = true ->
  (length (since start ledger) / 1000 < fuel)%nat ->
  exists sent,
    get_binance_funding fuel cfg (ledger_server ledger) start
    = Some (sent, Ok (since start ledger))
    /\ length sent = S (length (since start ledger) / 1000).
Proof.
  intros Hkeys Hchron Hfuel. unfold get_binance_funding.
  destruct (ledger_loop cfg ledger 1000 Hkeys Hchron ltac:(lia)
              (length (since start ledger)) (income_query start) fuel 0 [] []
              eq_refl (Nat.le_refl _) Hfuel) as (asked & Hrun & Hasked).
  exists asked. split; [exact Hrun|exact Hasked].
Qed.

Lemma ledger_fetched_whole_witness :
  exists sent,
    get_binance_funding 1 both_keys (ledger_server (payments 0 5)) (Some 2)
    = Some (sent, Ok (payments 2 3))
    /\ length sent = 1%nat.
Proof.
  exact (ledger_fetched_whole both_keys (payments 0 5) (Some 2) 1
           eq_refl eq_refl (Nat.lt_0_succ 0)).
Defined.

Lemma simultaneous_since (t : Z) (ledger : list row) (start : option Z) :
  simultaneous t ledger ->
  match start with Some s => s <= t | None => True end ->
  since start ledger = ledger /\ since (Some (t + 1)) ledger = [].
Proof.
  intros Hall Hstart. unfold simultaneous in Hall.
  rewrite List.Forall_forall in Hall.
  assert (Htime : forall r, In r ledger -> time_of r = t).
  { intros r Hr. unfold time_of. rewrite (Hall r Hr). reflexivity. }
  split.
  - destruct start as [s|]; simpl; [|reflexivity].
    apply filter_all. intros r Hr. rewrite (Htime r Hr). apply Z.leb_le, Hstart.
  - simpl. apply filter_none. intros r Hr. rewrite (Htime r Hr).
    apply Z.leb_gt. lia.
Qed.

(** X18.  Records that share the time of the last record of a full page
    are never fetched: the next request starts one millisecond later.  So
    of a thousand or more records with one and the same time the fetch
    returns the first thousand and no more, after two requests. *)
Theorem same_time_records_skipped (fuel : nat) (cfg : Config)
    (ledger : list row) (start : option Z) (t : Z) :
  missing (BINANCE_API_KEY cfg) || missing (BINANCE_API_SECRET cfg) = false ->
  simultaneous t ledger ->
  match start with Some s => s <= t | None => True end ->
  (1000 <= length ledger)%nat ->
  get_binance_funding (S (S fuel)) cfg (ledger_server ledger) start
  = Some ([income_query start; income_query (Some (t + 1))],
          Ok (firstn 1000 ledger)).
Proof.
  intros Hkeys Hall Hstart Hlen.
  destruct (simultaneous_since t ledger start Hall Hstart) as [Hsince Hnext].
  assert (Hfull : length (firstn 1000 ledger) = 1000%nat)
    by (rewrite length_firstn; lia).
  destruct (exists_last (l := firstn 1000 ledger)) as (page & r & Hlast).
  { intros H. rewrite H in Hfull. discriminate Hfull. }
  assert (Hr : r !! "time" = Some (VInt t)).
  { unfold simultaneous in Hall. rewrite List.Forall_forall in Hall. apply Hall.
    rewrite <- (firstn_skipn 1000 ledger), Hlast. apply in_or_app. left.
    apply in_or_app. right. left. reflexivity. }
  unfold get_binance_funding. fold (income_query start).
  rewrite (funding_loop_full (S fuel) cfg _ 0 (income_query start) [] []
             (firstn 1000 ledger) t Hkeys eq_refl).
  - change {| incomeType := incomeType (income_query start);
              limit := limit (income_query start);
              startTime := Some (t + 1) |} with (income_query (Some (t + 1))).
    rewrite (funding_loop_short fuel cfg _ 1 (income_query (Some (t + 1)))
               ([] ++ [income_query start]) ([] ++ firstn 1000 ledger) []
               Hkeys).
    + rewrite app_nil_r. reflexivity.
    + unfold ledger_server. fold (since (startTime (income_query (Some (t + 1)))) ledger).
      cbn [startTime income_query]. rewrite Hnext. reflexivity.
    + simpl. lia.
  - unfold ledger_server. fold (since (startTime (income_query start)) ledger).
    cbn [startTime income_query]. rewrite Hsince. reflexivity.
  - rewrite Hfull. simpl. lia.
  - rewrite Hlast. unfold last_time. rewrite last_snoc, Hr. reflexivity.
Qed.

Lemma same_time_records_skipped_witness :
  length (repeat (income "BTCUSDT" "0.01" start_ms) 1001) = 1001%nat
  /\ exists rows,
       get_binance_funding 2 both_keys
         (ledger_server (repeat (income "BTCUSDT" "0.01" start_ms) 1001))
         (Some start_ms)
       = Some ([income_query (Some start_ms); income_query (Some (start_ms + 1))],
               Ok rows)
       /\ length rows = 1000%nat.
Proof.
  split; [apply repeat_length|].
  exists (firstn 1000 (repeat (income "BTCUSDT" "0.01" start_ms) 1001)). split.
  - apply (same_time_records_skipped 0 both_keys _ (Some start_ms) start_ms eq_refl).
    + apply List.Forall_forall. intros r Hr. apply repeat_spec in Hr. subst r.
      reflexivity.
    + apply Z.le_refl.
    + rewrite repeat_length. apply Nat.le_succ_diag_r.
  - rewrite length_firstn, repeat_length. reflexivity.
Defined.

(** ** Credentials and warnings *)

(** X19.  Without its credentials a venue is never asked: the Binance
    fetch sends no query and raises RuntimeError whatever the source would
    answer, and the run does not depend on the Bybit source at all. *)
Theorem no_request_without_credentials (fuel : nat) (cfg : Config)
    (binance : BinanceServer) (bybit bybit' : BybitServer) (start : option Z) :
  (missing (BINANCE_API_KEY cfg) || missing (BINANCE_API_SECRET cfg) = true ->
   get_binance_funding (S fuel) cfg binance start = Some ([], Raise RuntimeError))
  /\ (missing (BYBIT_API_KEY cfg) || missing (BYBIT_API_SECRET cfg) = true ->
      main fuel cfg binance bybit = main fuel cfg binance bybit').
Proof.
  split; intros Hmiss.
  - unfold get_binance_funding.
    apply funding_loop_not_configured, Hmiss.
  - unfold main.
    rewrite !get_bybit_realized_raw_not_configured by exact Hmiss. reflexivity.
Qed.

Lemma no_request_without_credentials_witness :
  get_binance_funding 1 no_binance_keys two_payments (Some start_ms)
  = Some ([], Raise RuntimeError)
  /\ main 1 no_bybit_keys two_payments usdt_down
     = main 1 no_bybit_keys two_payments one_undated.
Proof.
  split.
  - apply (proj1 (no_request_without_credentials 0 no_binance_keys two_payments
                    usdt_down usdt_down (Some start_ms))).
    reflexivity.
  - apply (proj2 (no_request_without_credentials 1 no_bybit_keys two_payments
                    usdt_down one_undated None)).
    reflexivity.
Defined.

Lemma bybit_partition_warns (cfg : Config) (server : BybitServer)
    (settle other : string) :
  existsb (warns other) (fst (bybit_partition cfg server settle))
  = String.eqb settle other
    && match partition_request cfg server settle with
       | Raise _ => true
       | Ok data => negb (py_eqb (retCode data) (VInt 0))
       end.
Proof.
  unfold bybit_partition, partition_request.
  destruct (bybit_signed_request _ _ _ _) as [data|e]; simpl.
  - destruct (py_eqb (retCode data) (VInt 0)); simpl;
      rewrite ?orb_false_r, ?andb_false_r, ?andb_true_r; reflexivity.
  - rewrite orb_false_r, andb_true_r. reflexivity.
Qed.

(** X20.  The snapshot fetch prints a warning about a partition exactly
    when that partition failed (its request raised, or answered with a
    [retCode] other than 0), and at most one line per partition; a
    partition that answers 0 with no result or no list adds nothing and
    prints nothing. *)
Theorem failed_partitions_are_logged (cfg : Config) (server : BybitServer) :
  (forall settle, settle = "USDT" \/ settle = "USDC" ->
     existsb (warns settle) (fst (get_bybit_realized_raw cfg server)) = true
     <-> partition_failed (partition_request cfg server settle))
  /\ (length (fst (get_bybit_realized_raw cfg server)) <= 2)%nat.
Proof.
  assert (Hlog : fst (get_bybit_realized_raw cfg server)
                 = fst (bybit_partition cfg server "USDT")
                   ++ fst (bybit_partition cfg server "USDC")).
  { unfold get_bybit_realized_raw. simpl.
    destruct (bybit_partition cfg server "USDT") as [l1 p1].
    destruct (bybit_partition cfg server "USDC") as [l2 p2]. reflexivity. }
  rewrite Hlog. split.
  - intros settle Hsettle. rewrite existsb_app, !bybit_partition_warns.
    unfold partition_failed.
    destruct Hsettle as [-> | ->]; simpl;
      rewrite ?orb_false_r;
      destruct (partition_request cfg server _) as [data|e];
      try (destruct (py_eqb (retCode data) (VInt 0)); simpl);
      intuition congruence.
  - rewrite length_app.
    assert (Hone : forall settle,
              (length (fst (bybit_partition cfg server settle)) <= 1)%nat).
    { intros settle. unfold bybit_partition.
      destruct (bybit_signed_request _ _ _ _) as [data|e]; simpl; [|lia].
      destruct (py_eqb (retCode data) (VInt 0)); simpl; lia. }
    pose proof (Hone "USDT"). pose proof (Hone "USDC"). lia.
Qed.

Lemma failed_partitions_are_logged_witness :
  existsb (warns "USDT") (fst (get_bybit_realized_raw both_keys usdt_refused)) = true
  /\ snd (get_bybit_realized_raw both_keys usdt_refused) = three_positions.
Proof.
  split; [|reflexivity].
  apply (proj1 (failed_partitions_are_logged both_keys usdt_refused) "USDT").
  - left. reflexivity.
  - reflexivity.
Defined.

(** ** Amounts in the tables *)

Lemma round_to_zero (c : N) (k : Z) :
  0 < k -> (2 * c <= Dec.pow10 k)%N -> Dec.round_half_even c k = 0%N.
Proof.
  intros Hk Hc. unfold Dec.round_half_even.
  destruct (Z.leb_spec k 0) as [H|_]; [lia|].
  assert (Hp : (c < Dec.pow10 k)%N).
  { assert (0 < Dec.pow10 k)%N; [|lia].
    unfold Dec.pow10. apply N.neq_0_lt_0, N.pow_nonzero. discriminate. }
  rewrite (N.div_small c _ Hp), (N.mod_small c _ Hp).
  destruct (N.ltb_spec (Dec.pow10 k) (2 * c)) as [H|_]; [lia|].
  simpl. rewrite andb_false_r. reflexivity.
Qed.

(** X21.  The tables keep ten decimals and round half to even: a non-zero
    amount of magnitude at most 5E-11 is written as zero, with its sign,
    in the details table, so the written amount is not the exact one. *)
Theorem tiny_amount_written_as_zero (r : Event) (s : bool) (c : N) (e : Z) :
  amount r = Dec.Fin s c e ->
  below_tenth_decimal c e ->
  nth 4 (details_row r) VNone = VStr (Dec.sign_str s +:+ "0.0000000000").
Proof.
  intros Hamt (Hc & He & Hsmall). unfold details_row. cbn [nth].
  rewrite Hamt. unfold Dec.format_10f, Dec.rescale.
  apply N.eqb_neq in Hc. rewrite Hc.
  destruct (Z.leb_spec (-10) e) as [H|_]; [lia|].
  rewrite round_to_zero by (try lia; exact Hsmall).
  reflexivity.
Qed.

Lemma tiny_amount_written_as_zero_witness :
  nth 4 (details_row
           (ledger_event "Binance" "BTCUSDT" "USDT" "funding"
              (Dec.Fin true 5 (-11)) 100)) VNone
  = VStr "-0.0000000000".
Proof.
  apply (tiny_amount_written_as_zero
           (ledger_event "Binance" "BTCUSDT" "USDT" "funding"
              (Dec.Fin true 5 (-11)) 100) true 5 (-11) eq_refl).
  split; [discriminate|]. split; [lia|]. vm_compute. discriminate.
Defined.

(** ** When the summary exists *)

Lemma bucket_fresh (rows : list Event) (by_key : ByKey) (key : Key) :
  aggregated rows by_key -> canonical_key key = true ->
  other_keys key by_key -> bucket key rows = [].
Proof.
  intros (_ & Hcover & Hentries) Hkey Hother.
  pose proof (other_keys_not_in _ _ Hkey Hother) as Hfresh.
  destruct (bucket key rows) as [|r0 g] eqn:Hg; [reflexivity|].
  exfalso. apply Hfresh.
  assert (Hin : In r0 (bucket key rows)) by (rewrite Hg; left; reflexivity).
  unfold bucket in Hin. apply List.filter_In in Hin as [Hin Heq].
  pose proof (Hcover r0 Hin) as Hcov.
  destruct (in_map_fst _ _ Hcov) as [d0 Hd0].
  destruct (Hentries _ _ Hd0) as (Hck0 & _ & _).
  apply key_eqb_eq in Heq; [|exact Hkey|exact Hck0].
  rewrite Heq. exact Hcov.
Qed.

(** An [accumulate] that returns has added the amount to the total of the
    event's bucket. *)
Lemma accumulate_summed (rows : list Event) (by_key by_key' : ByKey) (r : Event) :
  aggregated rows by_key -> canonical r = true ->
  accumulate by_key r = Ok by_key' ->
  exists t, dec_sum (map amount (bucket (key_of r) (rows ++ [r]))) = Ok t.
Proof.
  intros Hagg Hr Hacc.
  pose proof (canonical_key_of r Hr) as Hkey.
  destruct (accumulate_shape by_key r)
    as (l1 & k & d & l2 & Hshape & Hk & Hl1 & Heq).
  rewrite Heq in Hacc.
  destruct (Dec.add (Summary.total d) (amount r)) as [t|x] eqn:Hadd;
    [|discriminate Hacc].
  exists t. rewrite (bucket_snoc_same _ _ _ (key_eqb_refl _ Hkey)), map_app.
  cbn [map].
  destruct Hshape as [-> | (-> & -> & -> & ->)].
  - destruct Hagg as (_ & _ & Hentries).
    destruct (Hentries k d) as (Hck & _ & _ & Hsum & _);
      [apply in_or_app; right; left; reflexivity|].
    apply key_eqb_eq in Hk; [|exact Hck|exact Hkey]. subst k.
    rewrite (dec_sum_snoc _ _ _ Hsum). exact Hadd.
  - rewrite (bucket_fresh rows l1 (key_of r) Hagg Hkey Hl1).
    unfold dec_sum. cbn [app map dec_sum_from]. cbn [Summary.total] in Hadd.
    rewrite Hadd. reflexivity.
Qed.

Lemma aggregate_summable (rows : list Event) :
  forallb canonical rows = true ->
  forall by_key, aggregate rows = Ok by_key -> summable_buckets rows = true.
Proof.
  induction rows as [|r rows IH] using rev_ind; intros Hrows by_key' Hrun;
    [reflexivity|].
  rewrite forallb_app in Hrows. apply andb_true_iff in Hrows as [Hrows Hr].
  simpl in Hr. rewrite andb_true_r in Hr.
  pose proof (canonical_key_of r Hr) as Hkey.
  unfold aggregate in Hrun. rewrite aggregate_from_app in Hrun.
  destruct (aggregate_from [] rows) as [by_key|x] eqn:Hagg;
    [|discriminate Hrun].
  cbn [bind aggregate_from] in Hrun.
  destruct (accumulate by_key r) as [b|x] eqn:Hacc; [|discriminate Hrun].
  pose proof (IH Hrows by_key Hagg) as Hsums.
  destruct (aggregate_spec rows Hrows Hsums) as (by_key0 & Hrun0 & Haggd).
  unfold aggregate in Hrun0. rewrite Hagg in Hrun0. injection Hrun0 as <-.
  destruct (accumulate_summed rows by_key b r Haggd Hr Hacc) as [t Hlast].
  unfold summable_buckets. apply forallb_forall. intros r0 Hr0.
  apply in_app_or in Hr0 as [Hr0 | [<- | []]]; [|rewrite Hlast; reflexivity].
  rewrite forallb_forall in Hrows.
  destruct (key_eqb (key_of r0) (key_of r)) eqn:E.
  - apply key_eqb_eq in E;
      [|exact (canonical_key_of _ (Hrows _ Hr0))|exact Hkey].
    rewrite E, Hlast. reflexivity.
  - rewrite (bucket_snoc_other _ _ _ E).
    destruct (summable_buckets_at rows r0 Hsums Hr0) as [t0 ->]. reflexivity.
Qed.

(** X22.  For canonical events the summary is produced exactly when the
    total of every group can be added up; otherwise [write_csv] raises in
    its loop over the events, before either file is created. *)
Theorem summary_exists_iff_summable (rows : list Event) :
  forallb canonical rows = true ->
  (summable rows = true <-> exists items, summary_items rows = Ok items)
  /\ (summable rows = false -> exists e, write_csv rows = ([], no_files, Raise e)).
Proof.
  intros Hrows.
  assert (Hback : forall by_key, aggregate rows = Ok by_key -> summable rows = true).
  { intros by_key Hagg. pose proof (aggregate_summable rows Hrows by_key Hagg) as H.
    unfold summable_buckets in H. unfold summable.
    rewrite forallb_forall in H. apply forallb_forall. intros r Hr.
    rewrite (group_bucket _ _ Hrows). exact (H r Hr). }
  split; [split|].
  - intros Hsums.
    destruct (summary_items_spec rows Hrows (summable_buckets_intro _ Hrows Hsums))
      as (by_key & _ & _ & Hrun & _).
    eexists. exact Hrun.
  - intros [items Hrun]. unfold summary_items in Hrun.
    destruct (aggregate rows) as [by_key|x] eqn:Hagg; [|discriminate Hrun].
    exact (Hback by_key eq_refl).
  - intros Hno. unfold write_csv.
    destruct (aggregate rows) as [by_key|x] eqn:Hagg.
    + rewrite (Hback by_key eq_refl) in Hno. discriminate Hno.
    + exists x. reflexivity.
Qed.

Lemma summary_exists_iff_summable_witness :
  summable [huge_payment] = false
  /\ summable several_keys = true
  /\ (exists e, write_csv [huge_payment] = ([], no_files, Raise e))
  /\ exists items, summary_items several_keys = Ok items.
Proof.
  split; [reflexivity|]. split; [reflexivity|]. split.
  - apply (proj2 (summary_exists_iff_summable [huge_payment] eq_refl)).
    reflexivity.
  - apply (proj1 (summary_exists_iff_summable several_keys eq_refl)).
    reflexivity.
Defined.
